(** * Crawl engine of the site auditor (crawler.js): model and properties

    The development follows crawler.js top to bottom.

    - [Char], [Text]: characters and the string operations of the
      JavaScript runtime that the crawler calls ([startsWith], [endsWith],
      [toLowerCase], [split], [replace(/\/+$/, '')], ...).
    - [URLStd]: the runtime's [URL] class, after the URL Standard
      (url.spec.whatwg.org): the basic URL parser without base URL, the
      origin and the pathname getter.
    - [normalizeUrl], [normalizeImageUrl], [isDocumentUrl]: as in the source.
    - [Crawler]: [checkImageExists], [checkDocumentUrl], the listeners of
      [setupErrorHandling] and the body of the [while] loop of
      [crawlAndTest], as a step function over the module-level state
      ([visited], [queue], [results], [checkedImages]) against an explicit
      description of what the browser answers.
    - [Report]: the path of a screenshot and the statistics that
      [generateReport] writes in the summary.
    - [ExtractUrls]: extract-urls.js, with the pattern of [isImageOrPdf]
      as a regular expression run by a backtracking matcher.

    A JavaScript string is represented by the byte string of its UTF-8
    encoding; every string the crawler inspects character by character is
    ASCII at the places it inspects. *)

From Stdlib Require Import Ascii String NArith ZArith List Bool Lia.
From stdpp Require Import base option list strings gmap.

Local Open Scope N_scope.

(** ** Characters *)

Module Char.

Definition code (c : ascii) : N := N_of_ascii c.

Definition between (lo hi : N) (c : ascii) : bool :=
  (lo <=? code c) && (code c <=? hi).

Definition isCode (n : N) (c : ascii) : bool := code c =? n.

Definition isDigit : ascii → bool := between 48 57.
Definition isUpper : ascii → bool := between 65 90.
Definition isLower : ascii → bool := between 97 122.
Definition isAlpha (c : ascii) : bool := isUpper c || isLower c.
Definition isAlnum (c : ascii) : bool := isAlpha c || isDigit c.
Definition isHex (c : ascii) : bool :=
  isDigit c || between 65 70 c || between 97 102 c.
Definition isOctal : ascii → bool := between 48 55.

Definition toLower (c : ascii) : ascii :=
  if isUpper c then ascii_of_N (code c + 32) else c.
Definition toUpper (c : ascii) : ascii :=
  if isLower c then ascii_of_N (code c - 32) else c.

(** Value of a hexadecimal digit (also used for radix 8 and 10). *)
Definition digitVal (c : ascii) : N :=
  if isDigit c then code c - 48
  else if between 65 70 c then code c - 55
  else code c - 87.

Definition hexUpper (n : N) : ascii :=
  ascii_of_N (if n <? 10 then 48 + n else 55 + n).
Definition hexLower (n : N) : ascii :=
  ascii_of_N (if n <? 10 then 48 + n else 87 + n).

(** The character classes of the URL Standard. *)
Definition isC0OrSpace (c : ascii) : bool := code c <=? 32.
Definition isTabOrNewline (c : ascii) : bool :=
  isCode 9 c || isCode 10 c || isCode 13 c.
Definition isSlash (c : ascii) : bool := isCode 47 c || isCode 92 c.

Definition inC0Set (c : ascii) : bool := (code c <=? 31) || (126 <? code c).
Definition inFragmentSet (c : ascii) : bool :=
  inC0Set c || isCode 32 c || isCode 34 c || isCode 60 c || isCode 62 c
  || isCode 96 c.
Definition inQuerySet (c : ascii) : bool :=
  inC0Set c || isCode 32 c || isCode 34 c || isCode 35 c || isCode 60 c
  || isCode 62 c.
Definition inSpecialQuerySet (c : ascii) : bool := inQuerySet c || isCode 39 c.
Definition inPathSet (c : ascii) : bool :=
  inQuerySet c || isCode 63 c || isCode 94 c || isCode 96 c || isCode 123 c
  || isCode 125 c.
Definition inUserinfoSet (c : ascii) : bool :=
  inPathSet c || isCode 47 c || isCode 58 c || isCode 59 c || isCode 61 c
  || isCode 64 c || between 91 93 c || isCode 124 c.

Definition isForbiddenHost (c : ascii) : bool :=
  isCode 0 c || isCode 9 c || isCode 10 c || isCode 13 c || isCode 32 c
  || isCode 35 c || isCode 47 c || isCode 58 c || isCode 60 c || isCode 62 c
  || isCode 63 c || isCode 64 c || isCode 91 c || isCode 92 c || isCode 93 c
  || isCode 94 c || isCode 124 c.
Definition isForbiddenDomain (c : ascii) : bool :=
  isForbiddenHost c || (code c <=? 31) || isCode 37 c || isCode 127 c.

End Char.

(** ** Strings of the runtime *)

Module Text.

(** Characters of a string, and back. *)
Definition chars (s : string) : list ascii := list_ascii_of_string s.
Definition text (l : list ascii) : string := string_of_list_ascii l.

Fixpoint isPrefix (p l : list ascii) : bool :=
  match p, l with
  | [], _ => true
  | a :: p', b :: l' => Ascii.eqb a b && isPrefix p' l'
  | _ :: _, [] => false
  end.

(** [s.startsWith(p)] and [s.endsWith(p)]. *)
Definition startsWith (s p : string) : bool := isPrefix (chars p) (chars s).
Definition endsWith (s p : string) : bool :=
  isPrefix (rev (chars p)) (rev (chars s)).

Fixpoint dropWhile (f : ascii → bool) (l : list ascii) : list ascii :=
  match l with
  | [] => []
  | c :: r => if f c then dropWhile f r else l
  end.

Definition dropWhileEnd (f : ascii → bool) (l : list ascii) : list ascii :=
  rev (dropWhile f (rev l)).

(** [breakAt f l] cuts [l] in front of its first character in [f]. *)
Fixpoint breakAt (f : ascii → bool) (l : list ascii)
  : list ascii * list ascii :=
  match l with
  | [] => ([], [])
  | c :: r =>
      if f c then ([], l)
      else let '(a, b) := breakAt f r in (c :: a, b)
  end.

(** [splitOn f l]: the pieces of [l] between the characters in [f]
    (a strict split: [n] separators give [n + 1] pieces). *)
Fixpoint splitOn (f : ascii → bool) (l : list ascii) : list (list ascii) :=
  match l with
  | [] => [[]]
  | c :: r =>
      if f c then [] :: splitOn f r
      else match splitOn f r with
           | [] => [[c]]
           | p :: ps => (c :: p) :: ps
           end
  end.

(** [s.toLowerCase()] and [s.toUpperCase()] on ASCII letters; every
    other byte is kept.  These are the methods of the runtime on a string
    without letters outside ASCII: the path names that the crawler
    lower-cases are of this kind, and so is the text after the last dot
    of a document URL, which it upper-cases, unless letters outside
    ASCII follow that dot. *)
Definition toLowerCase (s : string) : string :=
  text (map Char.toLower (chars s)).
Definition toUpperCase (s : string) : string :=
  text (map Char.toUpper (chars s)).

(** [s.replace(/\/+$/, '')]. *)
Definition stripTrailingSlashes (l : list ascii) : list ascii :=
  dropWhileEnd (Char.isCode 47) l.

(** [hay] contains [needle]: what [/needle/.test(hay)] computes for a
    pattern without metacharacters. *)
Fixpoint containsChars (needle hay : list ascii) : bool :=
  isPrefix needle hay ||
  match hay with
  | [] => false
  | _ :: r => containsChars needle r
  end.
Definition contains (hay needle : string) : bool :=
  containsChars (chars needle) (chars hay).

(** [s.split(sep).pop()] for a one-character separator. *)
Definition lastPiece (sep : N) (s : string) : string :=
  text (List.last (splitOn (Char.isCode sep) (chars s)) []).

(** Numbers in radix 10. *)
Fixpoint showDecAux (fuel : nat) (n : N) (acc : list ascii) : list ascii :=
  match fuel with
  | O => acc
  | S f =>
      let acc' := ascii_of_N (48 + n mod 10) :: acc in
      if n <? 10 then acc' else showDecAux f (n / 10) acc'
  end.
Definition showDec (n : N) : list ascii :=
  showDecAux (S (N.to_nat (N.log2 n))) n [].

Definition readRadix (radix : N) (l : list ascii) : N :=
  fold_left (λ a c, a * radix + Char.digitVal c) l 0.

End Text.

(** ** The URL class of the runtime

    [new URL(url)] runs the basic URL parser of the URL Standard on [url]
    with no base URL and throws when the parser returns failure.  The
    parser is given here as the function it computes: the state machine of
    the Standard is cut at the places where it changes state (after the
    scheme, around the authority, in front of the path, the query and the
    fragment), and each definition names the states it covers.

    Not covered: hosts that need Unicode processing.  The Standard sends
    every domain through "domain to ASCII" (UTS #46); for an ASCII domain
    none of whose labels starts with "xn--" this is ASCII lower-casing,
    and this is the case covered.  A host with a percent-decoded byte
    above 0x7F or with an "xn--" label is reported by [domainToASCII] as a
    failure; [Hosts.plainHost] below says of a URL string that its host
    is of the kind covered. *)

Module URLStd.

Import Char Text.

Inductive Host :=
| Domain (name : list ascii)
| IPv4 (address : N)
| IPv6 (pieces : list N)
| OpaqueHost (name : list ascii)
| EmptyHost.

Inductive Path :=
| OpaquePath (p : list ascii)
| ListPath (segments : list (list ascii)).

Record URL := mkURL {
  scheme : list ascii;
  username : list ascii;
  password : list ascii;
  host : option Host;
  port : option N;
  path : Path;
  query : option (list ascii);
  fragment : option (list ascii)
}.

Definition lit (s : string) : list ascii := chars s.

Definition eqChars (a b : list ascii) : bool :=
  bool_decide (a = b).

(** *** Percent-encoding *)

Definition percentEncodeByte (c : ascii) : list ascii :=
  [ascii_of_N 37; hexUpper (code c / 16); hexUpper (code c mod 16)].

Definition percentEncode (inSet : ascii → bool) (l : list ascii)
  : list ascii :=
  flat_map (λ c, if inSet c then percentEncodeByte c else [c]) l.

Fixpoint percentDecode (l : list ascii) : list ascii :=
  match l with
  | [] => []
  | c :: r =>
      if isCode 37 c then
        match r with
        | h :: r' =>
            match r' with
            | k :: r'' =>
                if isHex h && isHex k
                then ascii_of_N (digitVal h * 16 + digitVal k)
                       :: percentDecode r''
                else c :: percentDecode r
            | [] => c :: percentDecode r
            end
        | [] => [c]
        end
      else c :: percentDecode r
  end.

(** *** Schemes *)

Definition specialSchemes : list (list ascii * option N) :=
  [ (lit "ftp", Some 21); (lit "file", None); (lit "http", Some 80);
    (lit "https", Some 443); (lit "ws", Some 80); (lit "wss", Some 443) ].

Definition isSpecial (s : list ascii) : bool :=
  existsb (λ e, eqChars (fst e) s) specialSchemes.

Definition defaultPort (s : list ascii) : option N :=
  match List.find (λ e, eqChars (fst e) s) specialSchemes with
  | Some e => snd e
  | None => None
  end.

Definition isSchemeChar (c : ascii) : bool :=
  isAlnum c || isCode 43 c || isCode 45 c || isCode 46 c.

(** Scheme state: the scheme characters up to the first [":"]. *)
Fixpoint schemeRest (l : list ascii) : option (list ascii * list ascii) :=
  match l with
  | [] => None
  | c :: r =>
      if isSchemeChar c then
        match schemeRest r with
        | Some (s, t) => Some (toLower c :: s, t)
        | None => None
        end
      else if isCode 58 c then Some ([], r)
      else None
  end.

(** Scheme start state and scheme state.  Without a base URL the
    no-scheme state is a failure. *)
Definition parseScheme (l : list ascii) : option (list ascii * list ascii) :=
  match l with
  | c :: _ => if isAlpha c then schemeRest l else None
  | [] => None
  end.

(** *** Hosts *)

(** IPv4 number parser. *)
Definition parseIPv4Number (l : list ascii) : option N :=
  match l with
  | [] => None
  | _ =>
      let '(digits, radix, valid) :=
        match l with
        | z :: x :: r =>
            if isCode 48 z && (isCode 88 x || isCode 120 x)
            then (r, 16, isHex)
            else if isCode 48 z then (x :: r, 8, isOctal)
            else (l, 10, isDigit)
        | _ => (l, 10, isDigit)
        end in
      if forallb valid digits then Some (readRadix radix digits) else None
  end.

Definition isDot : ascii → bool := isCode 46.

(** The parts of a dotted name with one empty last part removed
    (the parts are given last part first). *)
Definition dottedPartsRev (l : list ascii) : list (list ascii) :=
  match rev (splitOn isDot l) with
  | [] :: (p :: ps) => p :: ps
  | parts => parts
  end.

(** Ends-in-a-number checker. *)
Definition endsInNumber (l : list ascii) : bool :=
  match rev (splitOn isDot l) with
  | [[]] => false
  | _ =>
      match dottedPartsRev l with
      | last :: _ =>
          (negb (bool_decide (last = [])) && forallb isDigit last)
          || bool_decide (is_Some (parseIPv4Number last))
      | [] => false
      end
  end.

(** IPv4 parser. *)
Definition parseIPv4 (l : list ascii) : option N :=
  let parts := dottedPartsRev l in
  if (4 <? length parts)%nat then None
  else
    match mapM parseIPv4Number parts with
    | Some (last :: others) =>
        if existsb (λ n, 255 <? n) others then None
        else if 256 ^ (5 - N.of_nat (length parts)) <=? last then None
        else Some (fold_right (λ '(i, n) a, a + n * 256 ^ N.of_nat (3 - i))
                     last (imap (λ i n, (i, n)) (rev others)))
    | _ => None
    end.

Definition showIPv4 (a : N) : list ascii :=
  showDec (a / 16777216 mod 256) ++ lit "." ++
  showDec (a / 65536 mod 256) ++ lit "." ++
  showDec (a / 256 mod 256) ++ lit "." ++
  showDec (a mod 256).

(** IPv6 parser: up to four hexadecimal digits of a piece. *)
Fixpoint readHex4 (n : nat) (l : list ascii) (value : N) (len : nat)
  : N * nat * list ascii :=
  match n, l with
  | S n', c :: r =>
      if isHex c then readHex4 n' r (value * 16 + digitVal c) (S len)
      else (value, len, l)
  | _, _ => (value, len, l)
  end.

(** IPv6 parser: one decimal number of an embedded IPv4 address. *)
Fixpoint readIPv4Piece (l : list ascii) (acc : option N)
  : option (N * list ascii) :=
  match l with
  | c :: r =>
      if isDigit c then
        match acc with
        | None => readIPv4Piece r (Some (digitVal c))
        | Some 0 => None
        | Some v =>
            let v' := v * 10 + digitVal c in
            if 255 <? v' then None else readIPv4Piece r (Some v')
        end
      else match acc with Some v => Some (v, l) | None => None end
  | [] => match acc with Some v => Some (v, []) | None => None end
  end.

(** IPv6 parser: the four numbers of an embedded IPv4 address. *)
Fixpoint readIPv4Tail (fuel : nat) (l : list ascii) (seen : list N)
  : option (list N) :=
  match fuel with
  | O => None
  | S f =>
      match l with
      | [] => if (length seen =? 4)%nat then Some seen else None
      | c :: r =>
          let start :=
            match seen with
            | [] => Some l
            | _ => if isDot c && (length seen <? 4)%nat then Some r
                   else None
            end in
          match start with
          | None => None
          | Some l1 =>
              match readIPv4Piece l1 None with
              | None => None
              | Some (v, rest) => readIPv4Tail f rest (seen ++ [v])
              end
          end
      end
  end.

(** IPv6 parser: the main loop.  [acc] holds the pieces read so far
    ([pieceIndex] is its length), [compress] the piece index at which
    ["::"] was seen. *)
Fixpoint ipv6Loop (fuel : nat) (l : list ascii) (acc : list N)
    (compress : option nat) : option (list N * option nat) :=
  match fuel with
  | O => None
  | S f =>
      match l with
      | [] => Some (acc, compress)
      | c :: r =>
          if (length acc =? 8)%nat then None
          else if isCode 58 c then
            match compress with
            | Some _ => None
            | None => ipv6Loop f r (acc ++ [0]) (Some (S (length acc)))
            end
          else
            let '(value, len, rest) := readHex4 4 l 0 0%nat in
            match rest with
            | d :: rest' =>
                if isDot d then
                  if (len =? 0)%nat then None
                  else if (6 <? length acc)%nat then None
                  else
                    match readIPv4Tail (S (length l)) l [] with
                    | Some [a; b; c'; e] =>
                        Some (acc ++ [a * 256 + b; c' * 256 + e], compress)
                    | _ => None
                    end
                else if isCode 58 d then
                  match rest' with
                  | [] => None
                  | _ => ipv6Loop f rest' (acc ++ [value]) compress
                  end
                else None
            | [] => ipv6Loop f [] (acc ++ [value]) compress
            end
      end
  end.

Definition parseIPv6 (l : list ascii) : option (list N) :=
  let start :=
    match l with
    | c :: r =>
        if isCode 58 c then
          match r with
          | c2 :: r2 => if isCode 58 c2 then Some (r2, [0], Some 1%nat)
                        else None
          | [] => None
          end
        else Some (l, [], None)
    | [] => Some (l, [], None)
    end in
  match start with
  | None => None
  | Some (l1, acc0, compress0) =>
      match ipv6Loop (S (length l1)) l1 acc0 compress0 with
      | None => None
      | Some (acc, Some k) =>
          Some (take k acc ++ replicate (8 - length acc) 0 ++ drop k acc)
      | Some (acc, None) =>
          if (length acc =? 8)%nat then Some acc else None
      end
  end.

Fixpoint showHexAux (fuel : nat) (n : N) (acc : list ascii) : list ascii :=
  match fuel with
  | O => acc
  | S f =>
      let acc' := hexLower (n mod 16) :: acc in
      if n <? 16 then acc' else showHexAux f (n / 16) acc'
  end.
Definition showHex (n : N) : list ascii :=
  showHexAux (S (N.to_nat (N.log2 n))) n [].

Fixpoint zeroRun (l : list N) : nat :=
  match l with
  | 0 :: r => S (zeroRun r)
  | _ => O
  end.

(** Index of the first longest run of two or more zero pieces. *)
Fixpoint findCompress (l : list N) (i : nat) (best : option (nat * nat))
  : option (nat * nat) :=
  match l with
  | [] => best
  | _ :: r =>
      let n := zeroRun l in
      let longer := match best with
                    | Some (_, m) => (m <? n)%nat
                    | None => true
                    end in
      findCompress r (S i)
        (if (1 <? n)%nat && longer then Some (i, n) else best)
  end.

(** IPv6 serializer. *)
Fixpoint showPieces (l : list N) (i : nat) (compress : option nat)
    (ignore0 : bool) : list ascii :=
  match l with
  | [] => []
  | p :: r =>
      if ignore0 && (p =? 0) then showPieces r (S i) compress true
      else if bool_decide (compress = Some i) then
        (if (i =? 0)%nat then lit "::" else lit ":")
        ++ showPieces r (S i) compress true
      else
        showHex p ++ (if (i =? 7)%nat then [] else lit ":")
        ++ showPieces r (S i) compress false
  end.

Definition showIPv6 (pieces : list N) : list ascii :=
  showPieces pieces 0 (fst <$> findCompress pieces 0 None) false.

(** Domain to ASCII, for ASCII domains without an "xn--" label. *)
Definition hasXnLabel (l : list ascii) : bool :=
  existsb (λ label, isPrefix (lit "xn--") (map toLower label))
    (splitOn isDot l).

Definition domainToASCII (l : list ascii) : option (list ascii) :=
  if forallb (λ c, code c <? 128) l && negb (hasXnLabel l) then
    match l with
    | [] => None
    | _ => Some (map toLower l)
    end
  else None.

(** Opaque-host parser. *)
Definition parseOpaqueHost (l : list ascii) : option Host :=
  if existsb isForbiddenHost l then None
  else match l with
       | [] => Some EmptyHost
       | _ => Some (OpaqueHost (percentEncode inC0Set l))
       end.

(** Host parser. *)
Definition parseHost (isOpaque : bool) (l : list ascii) : option Host :=
  match l with
  | c :: r =>
      if isCode 91 c then
        match rev r with
        | e :: mid =>
            if isCode 93 e then IPv6 <$> parseIPv6 (rev mid) else None
        | [] => None
        end
      else if isOpaque then parseOpaqueHost l
      else
        match domainToASCII (percentDecode l) with
        | None => None
        | Some asciiDomain =>
            if existsb isForbiddenDomain asciiDomain then None
            else if endsInNumber asciiDomain
            then IPv4 <$> parseIPv4 asciiDomain
            else Some (Domain asciiDomain)
        end
  | [] => if isOpaque then parseOpaqueHost l else None
  end.

(** Host serializer. *)
Definition showHost (h : Host) : list ascii :=
  match h with
  | Domain d => d
  | IPv4 a => showIPv4 a
  | IPv6 p => lit "[" ++ showIPv6 p ++ lit "]"
  | OpaqueHost s => s
  | EmptyHost => []
  end.

(** *** Paths *)

Definition isSingleDot (b : list ascii) : bool :=
  let b' := map toLower b in
  eqChars b' (lit ".") || eqChars b' (lit "%2e").

Definition isDoubleDot (b : list ascii) : bool :=
  let b' := map toLower b in
  eqChars b' (lit "..") || eqChars b' (lit ".%2e")
  || eqChars b' (lit "%2e.") || eqChars b' (lit "%2e%2e").

Definition isWindowsDriveLetter (b : list ascii) : bool :=
  match b with
  | [a; c] => isAlpha a && (isCode 58 c || isCode 124 c)
  | _ => false
  end.

Definition isNormalizedDriveLetter (b : list ascii) : bool :=
  match b with
  | [a; c] => isAlpha a && isCode 58 c
  | _ => false
  end.

(** Shorten a URL's path. *)
Definition shorten (isFile : bool) (p : list (list ascii))
  : list (list ascii) :=
  match p with
  | [d] => if isFile && isNormalizedDriveLetter d then p else []
  | _ => removelast p
  end.

(** Path state, one buffer at a time: [pieces] are the percent-encoded
    buffers, each ended by a slash except the last one. *)
Fixpoint pathSegments (isFile : bool) (pieces : list (list ascii))
    (p : list (list ascii)) : list (list ascii) :=
  match pieces with
  | [] => p
  | b :: rest =>
      let atEnd := bool_decide (rest = []) in
      let p' :=
        if isDoubleDot b then
          let q := shorten isFile p in
          if atEnd then q ++ [[]] else q
        else if isSingleDot b then
          if atEnd then p ++ [[]] else p
        else if isFile && bool_decide (p = []) && isWindowsDriveLetter b
        then [match b with a :: _ => [a; ascii_of_N 58] | [] => b end]
        else p ++ [b] in
      pathSegments isFile rest p'
  end.

Definition isQueryOrFragmentStart (c : ascii) : bool :=
  isCode 63 c || isCode 35 c.

(** Path state on the input that follows the slash in front of the
    path, up to the query or fragment. *)
Definition parsePathState (special isFile : bool) (l : list ascii)
  : list (list ascii) :=
  let sep := if special then isSlash else isCode 47 in
  pathSegments isFile
    (map (percentEncode inPathSet) (splitOn sep l)) [].

(** Query state and fragment state, on the input that starts at
    ["?"], at ["#"] or is empty. *)
Definition parseQueryFragment (special : bool) (l : list ascii)
  : option (list ascii) * option (list ascii) :=
  let '(q, f) := breakAt (isCode 35) l in
  (match q with
   | _ :: q' =>
       Some (percentEncode
               (if special then inSpecialQuerySet else inQuerySet) q')
   | [] => None
   end,
   match f with
   | _ :: f' => Some (percentEncode inFragmentSet f')
   | [] => None
   end).

(** Opaque path state, up to the query or fragment. *)
Fixpoint parseOpaquePath (l : list ascii) : list ascii :=
  match l with
  | [] => []
  | c :: r =>
      if isQueryOrFragmentStart c then []
      else
        (if isCode 32 c then
           match r with
           | c2 :: _ => if isQueryOrFragmentStart c2 then lit "%20" else [c]
           | [] => [c]
           end
         else percentEncode inC0Set [c]) ++ parseOpaquePath r
  end.

(** *** Authority *)

Definition isAuthorityEnd (special : bool) (c : ascii) : bool :=
  isCode 47 c || isCode 63 c || isCode 35 c || (special && isCode 92 c).

(** Authority state: the credentials are what precedes the last ["@"]. *)
Fixpoint splitCredentials (l : list ascii)
  : option (list ascii) * list ascii :=
  match l with
  | [] => (None, [])
  | c :: r =>
      let '(cred, hp) := splitCredentials r in
      match cred with
      | Some cr => (Some (c :: cr), hp)
      | None => if isCode 64 c then (Some [], hp) else (None, c :: hp)
      end
  end.

(** Host state: the host is what precedes the first [":"] outside
    square brackets. *)
Fixpoint splitHostPort (inside : bool) (l : list ascii)
  : list ascii * option (list ascii) :=
  match l with
  | [] => ([], None)
  | c :: r =>
      if isCode 58 c && negb inside then ([], Some r)
      else
        let inside' := if isCode 91 c then true
                       else if isCode 93 c then false else inside in
        let '(h, p) := splitHostPort inside' r in (c :: h, p)
  end.

(** Port state. *)
Definition parsePort (sch : list ascii) (l : list ascii)
  : option (option N) :=
  if forallb isDigit l then
    match l with
    | [] => Some None
    | _ =>
        let p := readRadix 10 l in
        if 65535 <? p then None
        else if bool_decide (defaultPort sch = Some p) then Some None
        else Some (Some p)
    end
  else None.

(** Path start state and what follows it. *)
Definition parseAfterAuthority (special isFile : bool) (rest : list ascii)
  : Path * option (list ascii) * option (list ascii) :=
  let startsPath :=
    match rest with
    | c :: _ => special || negb (isQueryOrFragmentStart c)
    | [] => special
    end in
  let rest1 :=
    match rest with
    | c :: r =>
        if (if special then isSlash c else isCode 47 c) && startsPath
        then r else rest
    | [] => rest
    end in
  let '(p, qf) := breakAt isQueryOrFragmentStart rest1 in
  let '(q, f) := parseQueryFragment special qf in
  (ListPath (if startsPath then parsePathState special isFile p else []),
   q, f).

(** Authority state, host state and port state (after the slashes). *)
Definition parseAuthority (sch : list ascii) (special : bool)
    (l : list ascii) : option URL :=
  let '(authority, rest) := breakAt (isAuthorityEnd special) l in
  let '(cred, hostport) := splitCredentials authority in
  if bool_decide (is_Some cred) && bool_decide (hostport = []) then None
  else
    let '(hostText, portText) := splitHostPort false hostport in
    if (special || bool_decide (is_Some portText))
       && bool_decide (hostText = []) then None
    else
      match parseHost (negb special) hostText with
      | None => None
      | Some h =>
          match parsePort sch (default [] portText) with
          | None => None
          | Some prt =>
              let '(user, pass) :=
                match cred with
                | Some cr =>
                    let '(u, p) := breakAt (isCode 58) cr in
                    (percentEncode inUserinfoSet u,
                     percentEncode inUserinfoSet (tail p))
                | None => ([], [])
                end in
              let '(p, q, f) := parseAfterAuthority special false rest in
              Some (mkURL sch user pass (Some h) prt p q f)
          end
      end.

(** File state, file slash state and file host state. *)
Definition parseFile (l : list ascii) : option URL :=
  let sch := lit "file" in
  let pathOnly (l1 : list ascii) :=
    let '(p, qf) := breakAt isQueryOrFragmentStart l1 in
    let '(q, f) := parseQueryFragment true qf in
    Some (mkURL sch [] [] (Some EmptyHost) None
            (ListPath (parsePathState true true p)) q f) in
  match l with
  | c :: r =>
      if isSlash c then
        match r with
        | c2 :: r2 =>
            if isSlash c2 then
              let '(buffer, rest) := breakAt (isAuthorityEnd true) r2 in
              if isWindowsDriveLetter buffer then pathOnly r2
              else
                match buffer with
                | [] =>
                    let '(p, q, f) := parseAfterAuthority true true rest in
                    Some (mkURL sch [] [] (Some EmptyHost) None p q f)
                | _ =>
                    match parseHost false buffer with
                    | None => None
                    | Some h =>
                        let h' :=
                          match h with
                          | Domain d =>
                              if eqChars d (lit "localhost")
                              then EmptyHost else h
                          | _ => h
                          end in
                        let '(p, q, f) :=
                          parseAfterAuthority true true rest in
                        Some (mkURL sch [] [] (Some h') None p q f)
                    end
                end
            else pathOnly r
        | [] => pathOnly r
        end
      else pathOnly l
  | [] => pathOnly l
  end.

(** *** The parser *)

Definition preprocess (l : list ascii) : list ascii :=
  List.filter (λ c, negb (isTabOrNewline c))
    (dropWhileEnd isC0OrSpace (dropWhile isC0OrSpace l)).

(** Basic URL parser, without base URL and without state override. *)
Definition basicParse (input : list ascii) : option URL :=
  match parseScheme (preprocess input) with
  | None => None
  | Some (sch, rest) =>
      if eqChars sch (lit "file") then parseFile rest
      else if isSpecial sch then
        parseAuthority sch true (dropWhile isSlash rest)
      else
        match rest with
        | c :: r =>
            if isCode 47 c then
              match r with
              | c2 :: r2 =>
                  if isCode 47 c2 then parseAuthority sch false r2
                  else
                    let '(p, q, f) := parseAfterAuthority false false rest in
                    Some (mkURL sch [] [] None None p q f)
              | [] =>
                  let '(p, q, f) := parseAfterAuthority false false rest in
                  Some (mkURL sch [] [] None None p q f)
              end
            else
              let '(q, f) :=
                parseQueryFragment false
                  (snd (breakAt isQueryOrFragmentStart rest)) in
              Some (mkURL sch [] [] None None
                      (OpaquePath (parseOpaquePath rest)) q f)
        | [] => Some (mkURL sch [] [] None None (OpaquePath []) None None)
        end
  end.

(** *** Getters *)

(** URL path serializer: the [pathname] getter. *)
Definition pathname (u : URL) : list ascii :=
  match path u with
  | OpaquePath p => p
  | ListPath segments => flat_map (λ seg, lit "/" ++ seg) segments
  end.

(** Serialization of a tuple origin. *)
Definition tupleOrigin (u : URL) : list ascii :=
  scheme u ++ lit "://" ++ from_option showHost [] (host u)
  ++ match port u with
     | Some p => lit ":" ++ showDec p
     | None => []
     end.

Definition hasTupleOrigin (sch : list ascii) : bool :=
  existsb (eqChars sch)
    [lit "ftp"; lit "http"; lit "https"; lit "ws"; lit "wss"].

(** The [origin] getter: the serialization of the URL's origin.  A blob
    URL takes the origin of the URL in its path when that one is an
    http or https URL. *)
Definition origin (u : URL) : list ascii :=
  if eqChars (scheme u) (lit "blob") then
    match basicParse (pathname u) with
    | Some inner =>
        if eqChars (scheme inner) (lit "http")
           || eqChars (scheme inner) (lit "https")
        then tupleOrigin inner else lit "null"
    | None => lit "null"
    end
  else if hasTupleOrigin (scheme u) then tupleOrigin u
  else lit "null".

(** [new URL(url)]: [None] when the constructor throws. *)
Definition parse (url : string) : option URL := basicParse (chars url).

End URLStd.

(** ** The helpers of crawler.js *)

Import Text.

Definition DOCUMENT_EXTENSIONS : list string :=
  [ ".pdf"; ".doc"; ".docx"; ".xls"; ".xlsx"; ".ppt"; ".pptx";
    ".jpg"; ".jpeg"; ".png"; ".gif"; ".bmp"; ".svg"; ".webp";
    ".mp4"; ".avi"; ".mov"; ".wmv";
    ".zip"; ".rar"; ".7z";
    ".txt"; ".rtf" ].

(** [normalizeUrl]: origin and pathname, trailing slashes removed; the
    argument itself when [new URL] throws. *)
Definition normalizeUrl (url : string) : string :=
  match URLStd.parse url with
  | Some parsedUrl =>
      let normalized := URLStd.origin parsedUrl ++ URLStd.pathname parsedUrl in
      text (stripTrailingSlashes normalized)
  | None => url
  end.

(** [normalizeImageUrl]: origin and pathname. *)
Definition normalizeImageUrl (url : string) : string :=
  match URLStd.parse url with
  | Some parsedUrl =>
      text (URLStd.origin parsedUrl ++ URLStd.pathname parsedUrl)
  | None => url
  end.

(** [isDocumentUrl]. *)
Definition isDocumentUrl (url : string) : bool :=
  match URLStd.parse url with
  | Some parsedUrl =>
      let pathname := toLowerCase (text (URLStd.pathname parsedUrl)) in
      existsb (λ ext, endsWith pathname ext) DOCUMENT_EXTENSIONS
  | None => false
  end.

(** ** The crawl loop *)

Module Crawler.

(** *** What the browser answers

    Everything that crosses the Playwright boundary is an answer of the
    browser: the outcome of a navigation, the values the in-page
    callbacks are given, the events delivered to the listeners, the
    clock.  One [Visit] describes one iteration of the [while] loop. *)

(** An [img] element, as the callback of the image analysis sees it. *)
Record Img := mkImg {
  img_src : string;
  img_alt : string;
  img_naturalWidth : N;
  img_naturalHeight : N;
  img_complete : bool
}.

(** A [meta] element: its [name], [property] and [content] attributes. *)
Record Meta := mkMeta {
  meta_name : option string;
  meta_property : option string;
  meta_content : option string
}.

Inductive PageEvent :=
| PageError (message : string)
| ConsoleMessage (type text : string)
| ResponseSeen (status : N) (responseUrl : string).

(** [page.goto]: a response (or [null]), or a rejection. *)
Inductive Goto :=
| Loaded (status : option N)
| Failed (message : string).

Record Visit := mkVisit {
  navEvents : list PageEvent;       (* delivered while [goto] is pending *)
  elapsed : Z;                      (* [Date.now() - startTime] *)
  navigation : Goto;
  pageTitle : option string;        (* [None]: [page.title()] rejects *)
  description : option string;      (* [None]: the [$eval] rejects *)
  metas : option (list Meta);       (* [None]: the [evaluate] rejects *)
  images : option (list Img);       (* [None]: the [evaluate] rejects *)
  anchors : option (list string);   (* [None]: the [$$eval] rejects *)
  pauseOk : bool;                   (* [waitForTimeout] resolves *)
  laterEvents : list PageEvent      (* delivered after [goto] *)
}.

(** The HEAD request of [checkImageExists]. *)
Inductive Probe :=
| Fetched (status : N) (ok : bool)
| FetchFailed (message : string)    (* the inner [catch] *)
| EvaluateFailed.                   (* the outer [catch] *)

(** The browser: its answers may depend on how many navigations and
    probes came before. *)
Record Browser := mkBrowser {
  visit : nat → string → Visit;
  head : nat → string → Probe
}.

(** *** The data of the crawler *)

Record ImageInfo := mkImageInfo {
  src : string;
  alt : string;
  naturalWidth : N;
  naturalHeight : N;
  complete : bool;
  isWorking : bool;
  verifiedExists : option bool;     (* [None]: not set *)
  cachedCheck : option bool
}.

Record ImagesAnalysis := mkImagesAnalysis {
  total : Z;
  working : Z;
  broken : Z;
  withAlt : Z;
  withoutAlt : Z;
  details : list ImageInfo
}.

(** A [pageResult].  The fields added after its creation are [None]
    until they are set. *)
Record PageResult := mkPageResult {
  url : string;
  title : string;
  metaDescription : string;
  jsErrors : list string;
  consoleErrors : list string;
  brokenImages : list string;
  allImages : list string;
  imagesAnalysis : ImagesAnalysis;
  links : list string;
  statusCode : N;
  loadTime : Z;
  metaTags : gmap string string;
  isDocument : bool;
  documentType : string;
  documentStatus : string;
  benignErrors : option (list string);
  networkErrors : option (list string);
  warnings : option (list string);
  documentLinks : option (list string)
}.

(** An entry of [checkedImages]. *)
Record ImageCheck := mkImageCheck {
  exists_ : bool;
  verified : bool;
  originalUrl : string;
  status : N
}.

Inductive Status := Running | Finished | Aborted.

#[global] Instance Status_eq_dec : EqDecision Status.
Proof. solve_decision. Defined.

(** The module-level state, with the log of the requests sent to the
    browser ([navigated]: the [page.goto] calls; [probed]: the HEAD
    requests) and where the loop stands. *)
Record State := mkState {
  visited : gset string;
  queue : list string;
  results : list PageResult;
  checkedImages : gmap string ImageCheck;
  navigated : list string;
  probed : list string;
  phase : Status
}.

Definition emptyAnalysis : ImagesAnalysis :=
  mkImagesAnalysis 0 0 0 0 0 [].

(** The object literal at the head of the loop body. *)
Definition newPageResult (url : string) : PageResult :=
  {| url := url; title := ""; metaDescription := "";
     jsErrors := []; consoleErrors := [];
     brokenImages := []; allImages := [];
     imagesAnalysis := emptyAnalysis;
     links := []; statusCode := 200; loadTime := 0;
     metaTags := ∅;
     isDocument := false; documentType := ""; documentStatus := "";
     benignErrors := None; networkErrors := None; warnings := None;
     documentLinks := None |}.

(** *** [setupErrorHandling] *)

Inductive Channel := JsErrors | ConsoleErrors | Benign | Network | Warnings.

#[global] Instance Channel_eq_dec : EqDecision Channel.
Proof. solve_decision. Defined.

(** [pageResult.<channel>.push(m)]. *)
Definition push (k : Channel) (m : string) (r : PageResult) : PageResult :=
  let add (this : bool) (l : list string) := if this then l ++ [m] else l in
  let at_ k' := bool_decide (k = k') in
  {| url := url r; title := title r; metaDescription := metaDescription r;
     jsErrors := add (at_ JsErrors) (jsErrors r);
     consoleErrors := add (at_ ConsoleErrors) (consoleErrors r);
     brokenImages := brokenImages r; allImages := allImages r;
     imagesAnalysis := imagesAnalysis r;
     links := links r; statusCode := statusCode r; loadTime := loadTime r;
     metaTags := metaTags r;
     isDocument := isDocument r; documentType := documentType r;
     documentStatus := documentStatus r;
     benignErrors := add (at_ Benign) <$> benignErrors r;
     networkErrors := add (at_ Network) <$> networkErrors r;
     warnings := add (at_ Warnings) <$> warnings r;
     documentLinks := documentLinks r |}.

Definition benignPageErrors : list string :=
  [ "Syntax error, unrecognized expression:"; "jQuery.expr"; "Script error.";
    "Unable to preventDefault"; "Cannot read property"; "is not defined";
    "null is not an object"; "undefined is not an object" ].

Definition benignConsoleErrors : list string :=
  [ "Syntax error, unrecognized expression:"; "Failed to load resource";
    "Blocked a frame with origin"; "Content Security Policy";
    "Loading failed for the" ].

(** The three listeners registered on [page] for [pageResult]. *)
Definition listener (e : PageEvent) (r : PageResult) : PageResult :=
  match e with
  | PageError message =>
      if existsb (contains message) benignPageErrors
      then push Benign message r else push JsErrors message r
  | ConsoleMessage type text' =>
      if bool_decide (type = "error") then
        if existsb (contains text') benignConsoleErrors
        then push Benign text' r else push ConsoleErrors text' r
      else if bool_decide (type = "warning") then push Warnings text' r
      else r
  | ResponseSeen st responseUrl =>
      if 400 <=? st
      then push Network (text (showDec st) +:+ " - " +:+ responseUrl) r
      else r
  end.

(** [setupErrorHandling] initializes the three extra lists and registers
    the listeners; the listeners are never removed from [page].  So a
    [pageResult] has listeners on [page] exactly when its extra lists
    exist. *)
Definition setupErrorHandling (r : PageResult) : PageResult :=
  {| url := url r; title := title r; metaDescription := metaDescription r;
     jsErrors := jsErrors r; consoleErrors := consoleErrors r;
     brokenImages := brokenImages r; allImages := allImages r;
     imagesAnalysis := imagesAnalysis r;
     links := links r; statusCode := statusCode r; loadTime := loadTime r;
     metaTags := metaTags r;
     isDocument := isDocument r; documentType := documentType r;
     documentStatus := documentStatus r;
     benignErrors := Some []; networkErrors := Some []; warnings := Some [];
     documentLinks := documentLinks r |}.

Definition hasListeners (r : PageResult) : bool :=
  bool_decide (is_Some (benignErrors r)).

(** Delivery of events to every listener registered so far. *)
Definition deliver (events : list PageEvent) (r : PageResult) : PageResult :=
  if hasListeners r then fold_left (λ r' e, listener e r') events r else r.

(** *** [checkImageExists] *)

(** The image cache and the log of HEAD requests. *)
Record Cache := mkCache {
  entries : gmap string ImageCheck;
  requests : list string
}.

Definition checkImageExists (browser : Browser) (imageUrl : string)
    (c : Cache) : bool * Cache :=
  let normalizedImageUrl := normalizeImageUrl imageUrl in
  match entries c !! normalizedImageUrl with
  | Some existingCheck => (exists_ existingCheck, c)
  | None =>
      let store (e : bool) (st : N) :=
        mkCache
          (<[normalizedImageUrl := mkImageCheck e true imageUrl st]>
             (entries c))
          (requests c ++ [imageUrl]) in
      match head browser (length (requests c)) imageUrl with
      | Fetched st ok =>
          let e := ok && (st =? 200) in (e, store e st)
      | FetchFailed _ => (false, store false 0)
      | EvaluateFailed => (false, store false 0)
      end
  end.

(** *** The image analysis *)

(** JavaScript white space, in UTF-8. *)
Fixpoint isBlank (fuel : nat) (l : list N) : bool :=
  match fuel with
  | O => false
  | S f =>
      match l with
      | [] => true
      | 9 :: r | 10 :: r | 11 :: r | 12 :: r | 13 :: r | 32 :: r
      | 194 :: 160 :: r
      | 225 :: 154 :: 128 :: r
      | 226 :: 128 :: 168 :: r | 226 :: 128 :: 169 :: r
      | 226 :: 128 :: 175 :: r | 226 :: 129 :: 159 :: r
      | 227 :: 128 :: 128 :: r
      | 239 :: 187 :: 191 :: r => isBlank f r
      | 226 :: 128 :: c :: r =>
          (128 <=? c) && (c <=? 138) && isBlank f r
      | _ => false
      end
  end.

(** [img.alt && img.alt.trim() !== ''] *)
Definition hasAltText (a : string) : bool :=
  let bytes := map Char.code (chars a) in
  negb (isBlank (S (length bytes)) bytes).

(** One pass of the loop of the in-page callback. *)
Definition inspectImage (i : Img) : ImageInfo :=
  {| src := img_src i; alt := img_alt i;
     naturalWidth := img_naturalWidth i;
     naturalHeight := img_naturalHeight i;
     complete := img_complete i;
     isWorking := img_complete i && (0 <? img_naturalWidth i)
                  && (0 <? img_naturalHeight i);
     verifiedExists := None; cachedCheck := None |}.

(** The callback of the image analysis: one pass of its loop. *)
Definition analyzeImage (analysis : ImagesAnalysis) (i : Img)
  : ImagesAnalysis :=
  let imageInfo := inspectImage i in
  let hasAlt := hasAltText (img_alt i) in
  {| total := total analysis;
     working := if isWorking imageInfo then working analysis + 1
                else working analysis;
     broken := if isWorking imageInfo then broken analysis
               else broken analysis + 1;
     withAlt := if hasAlt then withAlt analysis + 1 else withAlt analysis;
     withoutAlt := if hasAlt then withoutAlt analysis
                   else withoutAlt analysis + 1;
     details := details analysis ++ [imageInfo] |}%Z.

Definition analyzeImages (imgs : list Img) : ImagesAnalysis :=
  fold_left analyzeImage imgs
    (mkImagesAnalysis (Z.of_nat (length imgs)) 0 0 0 0 []).

(** The state of the verification loop: the cache, and the two counters
    of [pageResult.imagesAnalysis] that the loop adjusts. *)
Record Verification := mkVerification {
  cache : Cache;
  workingCount : Z;
  brokenCount : Z
}.

(** The downgrade shared by both branches: an image the browser
    reported as working is marked broken when the check says it does
    not exist. *)
Definition reconcile (found cached : bool) (i : ImageInfo)
    (v : Verification) (c : Cache) : ImageInfo * Verification :=
  if negb found && isWorking i then
    ({| src := src i; alt := alt i; naturalWidth := naturalWidth i;
        naturalHeight := naturalHeight i; complete := complete i;
        isWorking := false;
        verifiedExists := Some found; cachedCheck := Some cached |},
     mkVerification c (workingCount v - 1)%Z (brokenCount v + 1)%Z)
  else
    ({| src := src i; alt := alt i; naturalWidth := naturalWidth i;
        naturalHeight := naturalHeight i; complete := complete i;
        isWorking := isWorking i;
        verifiedExists := Some found; cachedCheck := Some cached |},
     mkVerification c (workingCount v) (brokenCount v)).

(** The body of [for (const imageInfo of ...details)]. *)
Definition verifyImage (browser : Browser) (i : ImageInfo)
    (v : Verification) : ImageInfo * Verification :=
  if negb (bool_decide (src i = "")) && negb (startsWith (src i) "data:")
  then
    let normalizedImageUrl := normalizeImageUrl (src i) in
    match entries (cache v) !! normalizedImageUrl with
    | Some existingCheck =>
        reconcile (exists_ existingCheck) true i v (cache v)
    | None =>
        let '(found, c) := checkImageExists browser (src i) (cache v) in
        reconcile found false i v c
    end
  else (i, v).

Fixpoint verifyImages (browser : Browser) (infos : list ImageInfo)
    (v : Verification) : list ImageInfo * Verification :=
  match infos with
  | [] => ([], v)
  | i :: rest =>
      let '(i', v1) := verifyImage browser i v in
      let '(rest', v2) := verifyImages browser rest v1 in
      (i' :: rest', v2)
  end.

(** *** [checkDocumentUrl] *)

(** [response?.status() || 200] *)
Definition statusOr200 (st : option N) : N :=
  match st with
  | Some 0 | None => 200
  | Some c => c
  end.

Definition orElse (s fallback : string) : string :=
  if bool_decide (s = "") then fallback else s.

Definition checkDocumentUrl (v : Visit) (url : string) (r : PageResult)
  : PageResult :=
  match navigation v with
  | Loaded st =>
      let documentType :=
        orElse (toUpperCase (lastPiece 46 url)) "DOCUMENT" in
      let isBroken := match st with Some c => 400 <=? c | None => false end in
      {| url := Crawler.url r;
         title :=
           if isBroken then title r
           else "📄 " +:+ documentType +:+ " Document: "
                +:+ lastPiece 47 url;
         metaDescription := metaDescription r;
         jsErrors :=
           if isBroken
           then jsErrors r ++ ["Document returned status: "
                               +:+ text (showDec (default 0 st))]
           else jsErrors r;
         consoleErrors := consoleErrors r;
         brokenImages := brokenImages r; allImages := allImages r;
         imagesAnalysis := imagesAnalysis r;
         links := links r;
         statusCode := statusOr200 st;
         loadTime := elapsed v;
         metaTags := metaTags r;
         isDocument := true;
         documentType := documentType;
         documentStatus := if isBroken then "broken" else "accessible";
         benignErrors := benignErrors r; networkErrors := networkErrors r;
         warnings := warnings r; documentLinks := documentLinks r |}
  | Failed message =>
      {| url := Crawler.url r; title := title r;
         metaDescription := metaDescription r;
         jsErrors := jsErrors r ++ ["Failed to load document: " +:+ message];
         consoleErrors := consoleErrors r;
         brokenImages := brokenImages r; allImages := allImages r;
         imagesAnalysis := imagesAnalysis r;
         links := links r; statusCode := statusCode r;
         loadTime := elapsed v;
         metaTags := metaTags r;
         isDocument := isDocument r; documentType := documentType r;
         documentStatus := "broken";
         benignErrors := benignErrors r; networkErrors := networkErrors r;
         warnings := warnings r; documentLinks := documentLinks r |}
  end.

(** *** The meta tags *)

Definition importantMetaTags : list string :=
  [ "description"; "keywords"; "viewport"; "robots";
    "og:title"; "og:description"; "og:image";
    "twitter:title"; "twitter:description"; "twitter:image" ].

(** [a || b] on attribute values ([null] and [''] are falsy). *)
Definition orAttr (a b : option string) : option string :=
  match a with
  | Some x => if bool_decide (x = "") then b else a
  | None => b
  end.

Definition extractMetaTags (ms : list Meta) : gmap string string :=
  fold_left
    (λ tags m,
       match orAttr (meta_name m) (meta_property m) with
       | Some name =>
           if negb (bool_decide (name = ""))
              && bool_decide (name ∈ importantMetaTags)
           then <[name := default "" (meta_content m)]> tags
           else tags
       | None => tags
       end)
    ms ∅.

(** *** The links *)

(** What [allLinks.forEach] builds: the two local arrays and the
    queue. *)
Record Discovery := mkDiscovery {
  internalLinks : list string;
  foundDocuments : list string;
  pending : list string
}.

Section Loop.

Context (ROOT : string) (browser : Browser).

(** The callback of [allLinks.forEach]; [seen] is [visited]. *)
Definition discoverLink (seen : gset string) (d : Discovery)
    (link : string) : Discovery :=
  let normalizedLink := normalizeUrl link in
  if isDocumentUrl link then
    mkDiscovery (internalLinks d) (foundDocuments d ++ [link]) (pending d)
  else if startsWith link ROOT then
    if negb (bool_decide (normalizedLink ∈ seen))
       && negb (existsb
                  (λ q, bool_decide (normalizeUrl q = normalizedLink))
                  (pending d))
    then mkDiscovery (internalLinks d ++ [link]) (foundDocuments d)
           (pending d ++ [link])
    else d
  else d.

Definition discover (seen : gset string) (allLinks : list string)
    (q : list string) : Discovery :=
  fold_left (discoverLink seen) allLinks (mkDiscovery [] [] q).

(** *** The body of the [while] loop *)

(** The [catch] of a failed navigation. *)
Definition failedPage (v : Visit) (message : string) (r : PageResult)
  : PageResult :=
  let r' := push JsErrors ("Page failed to load: " +:+ message) r in
  {| url := url r'; title := title r';
     metaDescription := metaDescription r';
     jsErrors := jsErrors r'; consoleErrors := consoleErrors r';
     brokenImages := brokenImages r'; allImages := allImages r';
     imagesAnalysis := imagesAnalysis r';
     links := links r'; statusCode := statusCode r';
     loadTime := elapsed v;
     metaTags := metaTags r';
     isDocument := isDocument r'; documentType := documentType r';
     documentStatus := documentStatus r';
     benignErrors := benignErrors r'; networkErrors := networkErrors r';
     warnings := warnings r'; documentLinks := documentLinks r' |}.

(** The image analysis with its verification loop, and the list of
    broken images; [c] is [checkedImages].  When the [evaluate]
    rejects, the [catch] leaves everything as it was. *)
Definition inspectImages (v : Visit) (r : PageResult) (c : Cache)
  : ImagesAnalysis * list string * Cache :=
  match images v with
  | Some imgs =>
      let a := analyzeImages imgs in
      let '(checked, ver) :=
        verifyImages browser (details a)
          (mkVerification c (working a) (broken a)) in
      (mkImagesAnalysis (total a) (workingCount ver) (brokenCount ver)
         (withAlt a) (withoutAlt a) checked,
       map src (List.filter (λ i, negb (isWorking i)) checked),
       cache ver)
  | None => (imagesAnalysis r, brokenImages r, c)
  end.

(** The [pageResult] of a page that loaded, when it is saved. *)
Definition htmlPage (v : Visit) (t : string) (st : option N)
    (r : PageResult) (analysis : ImagesAnalysis)
    (brokenList : list string) (d : Discovery) : PageResult :=
  {| url := url r;
     title := orElse t "⚠ Missing <title>";
     metaDescription := default "" (description v);
     jsErrors := jsErrors r; consoleErrors := consoleErrors r;
     brokenImages := brokenList; allImages := allImages r;
     imagesAnalysis := analysis;
     links := internalLinks d;
     statusCode := statusOr200 st;
     loadTime := elapsed v;
     metaTags := from_option extractMetaTags (metaTags r) (metas v);
     isDocument := isDocument r; documentType := documentType r;
     documentStatus := documentStatus r;
     benignErrors := benignErrors r; networkErrors := networkErrors r;
     warnings := warnings r;
     documentLinks := Some (foundDocuments d) |}.

Definition step (s : State) : State :=
  match phase s, queue s with
  | Running, [] =>
      mkState (visited s) [] (results s) (checkedImages s)
        (navigated s) (probed s) Finished
  | Running, url :: rest =>
      let normalizedUrl := normalizeUrl url in
      if bool_decide (normalizedUrl ∈ visited s) then
        mkState (visited s) rest (results s) (checkedImages s)
          (navigated s) (probed s) Running
      else
        let seen := {[normalizedUrl]} ∪ visited s in
        let pageResult := newPageResult url in
        let v := visit browser (length (navigated s)) url in
        let gone := navigated s ++ [url] in
        let earlier := deliver (navEvents v) <$> results s in
        if isDocumentUrl url then
          mkState seen rest
            (earlier ++ [checkDocumentUrl v url pageResult])
            (checkedImages s) gone (probed s) Running
        else
          let r0 := deliver (navEvents v) (setupErrorHandling pageResult) in
          match navigation v with
          | Failed message =>
              mkState seen rest (earlier ++ [failedPage v message r0])
                (checkedImages s) gone (probed s) Running
          | Loaded st =>
              match pageTitle v with
              | None =>
                  mkState seen rest earlier (checkedImages s) gone
                    (probed s) Aborted
              | Some t =>
                  let '(analysis, brokenList, c) :=
                    inspectImages v r0
                      (mkCache (checkedImages s) (probed s)) in
                  match anchors v with
                  | None =>
                      mkState seen rest earlier (entries c) gone
                        (requests c) Aborted
                  | Some allLinks =>
                      let d := discover seen allLinks rest in
                      let r := htmlPage v t st r0 analysis brokenList d in
                      mkState seen (pending d)
                        (deliver (laterEvents v) <$> earlier ++ [r])
                        (entries c) gone (requests c)
                        (if pauseOk v then Running else Aborted)
                  end
              end
          end
  | _, _ => s
  end.

(** [crawlAndTest]: the state when the loop starts, and after [n]
    turns of the loop. *)
Definition start : State := mkState ∅ [ROOT] [] ∅ [] [] Running.

Fixpoint runFrom (n : nat) (s : State) : State :=
  match n with
  | O => s
  | S k => runFrom k (step s)
  end.

Definition run (n : nat) : State := runFrom n start.

End Loop.

End Crawler.


(** ** The report *)

Module Report.

Import Crawler.

(** *** The screenshot of a page *)

Definition screenshotsDir : string := "site-report/screenshots".

(** [s.replace(/[^a-zA-Z0-9]/g, '_')] replaces UTF-16 code units.  On the
    UTF-8 bytes: a character of one, two or three bytes is one code unit,
    a character of four bytes is two. *)
Definition replaceUnit (c : ascii) : list ascii :=
  if Char.isAlnum c then [c]
  else if Char.code c <? 128 then ["_"%char]
  else if Char.code c <? 192 then []
  else if Char.code c <? 240 then ["_"%char]
  else ["_"%char; "_"%char].

Definition replaceNonAlnum (s : string) : string :=
  text (flat_map replaceUnit (chars s)).

(** The characters that [encodeURIComponent] leaves alone. *)
Definition isUnreserved (c : ascii) : bool :=
  Char.isAlnum c
  || existsb (Ascii.eqb c) (chars "-_.!~*'()").

(** [encodeURIComponent(s)]: every other byte of the UTF-8 encoding is
    percent-encoded. *)
Definition encodeURIComponent (s : string) : string :=
  text (URLStd.percentEncode (λ c, negb (isUnreserved c)) (chars s)).

(** The path of the screenshot of the page of identity [normalizedUrl];
    the link of the HTML report is built from the same expression. *)
Definition screenshotPath (normalizedUrl : string) : string :=
  screenshotsDir +:+ "/"
  +:+ encodeURIComponent (replaceNonAlnum normalizedUrl) +:+ ".png".

(** *** [generateReport]: the summary *)

(** The [images] object of the summary. *)
Record Images := mkImages {
  totalImages : Z;
  totalWorkingImages : Z;
  totalBrokenImagesDetailed : Z;
  imagesWithAlt : Z;
  imagesWithoutAlt : Z;
  totalUniqueImagesChecked : Z
}.

(** The [summary] object of report.json. *)
Record Summary := mkSummary {
  totalPages : Z;
  htmlPages : Z;
  documentPages : Z;
  pagesWithCriticalErrors : Z;
  brokenDocuments : Z;
  pagesMissingTitles : Z;
  pagesMissingDescriptions : Z;
  pagesWithBrokenImages : Z;
  totalCriticalErrors : Z;
  totalBenignErrors : Z;
  totalBrokenImages : Z;
  images : Images
}.

(** [xs.length] *)
Definition len {A} (xs : list A) : Z := Z.of_nat (length xs).

(** [xs.filter(f).length] *)
Definition count {A} (f : A → bool) (xs : list A) : Z :=
  len (List.filter f xs).

(** [xs.reduce((sum, x) => sum + f(x), 0)] *)
Definition sumOf {A} (f : A → Z) (xs : list A) : Z :=
  fold_left (λ sum x, sum + f x)%Z xs 0%Z.

(** The same when [f(x)] can throw: [None] is the exception. *)
Definition sumOrThrow {A} (f : A → option Z) (xs : list A) : option Z :=
  fold_left
    (λ sum x,
       match sum, f x with
       | Some s, Some n => Some (s + n)%Z
       | _, _ => None
       end)
    xs (Some 0%Z).

(** [!r.title || r.title === "⚠ Missing <title>"] *)
Definition missingTitle (r : PageResult) : bool :=
  bool_decide (title r = "") || bool_decide (title r = "⚠ Missing <title>").

(** The statistics that [generateReport] computes before it writes
    anything, as they stand in the summary of report.json; [None] when
    the computation throws, which is before the report is written.
    [r.benignErrors.length] throws a [TypeError] on a result without
    [benignErrors]. *)
Definition generateReport (results : list PageResult)
    (checkedImages : gmap string ImageCheck) : option Summary :=
  let htmlPages := List.filter (λ r, negb (isDocument r)) results in
  let documentPages := List.filter isDocument results in
  match sumOrThrow (λ r, len <$> benignErrors r) results with
  | None => None
  | Some totalBenignErrors =>
      Some
        {| totalPages := len results;
           htmlPages := len htmlPages;
           documentPages := len documentPages;
           pagesWithCriticalErrors :=
             count (λ r, (0 <? len (jsErrors r))%Z
                         || (0 <? len (consoleErrors r))%Z) results;
           brokenDocuments :=
             count (λ r, bool_decide (documentStatus r = "broken"))
               documentPages;
           pagesMissingTitles := count missingTitle htmlPages;
           pagesMissingDescriptions :=
             count (λ r, bool_decide (metaDescription r = "")) htmlPages;
           pagesWithBrokenImages :=
             count (λ r, (0 <? len (brokenImages r))%Z) results;
           totalCriticalErrors :=
             sumOf (λ r, len (jsErrors r) + len (consoleErrors r))%Z results;
           totalBenignErrors := totalBenignErrors;
           totalBrokenImages := sumOf (λ r, len (brokenImages r)) results;
           images :=
             {| totalImages :=
                  sumOf (λ r, total (imagesAnalysis r)) htmlPages;
                totalWorkingImages :=
                  sumOf (λ r, working (imagesAnalysis r)) htmlPages;
                totalBrokenImagesDetailed :=
                  sumOf (λ r, broken (imagesAnalysis r)) htmlPages;
                imagesWithAlt :=
                  sumOf (λ r, withAlt (imagesAnalysis r)) htmlPages;
                imagesWithoutAlt :=
                  sumOf (λ r, withoutAlt (imagesAnalysis r)) htmlPages;
                totalUniqueImagesChecked :=
                  Z.of_nat (size checkedImages) |} |}
  end.

(** What [crawlAndTest] leaves behind: the summary of the report when
    the loop has ended and [generateReport] returned. *)
Definition report (s : State) : option Summary :=
  match phase s with
  | Finished => generateReport (results s) (checkedImages s)
  | _ => None
  end.

End Report.

(** ** extract-urls.js *)

Module ExtractUrls.

(** *** The pattern of [isImageOrPdf] *)

(** The regular expressions that the pattern is made of. *)
Inductive Pattern :=
| Eps
| Chr (c : ascii)
| Seq (a b : Pattern)
| Alt (a b : Pattern)
| Opt (a : Pattern)
| AnyStar                       (* [.*] *)
| AtEnd.                        (* [$], without the [m] flag *)

(** A line terminator starts here: LF, CR, or the three bytes of U+2028
    or U+2029. *)
Definition lineTerminatorAt (l : list ascii) : bool :=
  match l with
  | c :: r =>
      Char.isCode 10 c || Char.isCode 13 c
      || (Char.isCode 226 c
          && match r with
             | c2 :: c3 :: _ =>
                 Char.isCode 128 c2
                 && (Char.isCode 168 c3 || Char.isCode 169 c3)
             | _ => false
             end)
  | [] => false
  end.

(** [.*] followed by [k]: the longest run first. *)
Fixpoint anyStar (l : list ascii) (k : list ascii → bool) : bool :=
  match l with
  | [] => k []
  | _ :: r => (negb (lineTerminatorAt l) && anyStar r k) || k l
  end.

(** The backtracking matcher: [p] at the head of [l], then [k] on what
    is left. *)
Fixpoint matchFrom (p : Pattern) (l : list ascii)
    (k : list ascii → bool) : bool :=
  match p with
  | Eps => k l
  | Chr c =>
      match l with
      | x :: r => Ascii.eqb x c && k r
      | [] => false
      end
  | Seq a b => matchFrom a l (λ r, matchFrom b r k)
  | Alt a b => matchFrom a l k || matchFrom b l k
  | Opt a => matchFrom a l k || k l
  | AnyStar => anyStar l k
  | AtEnd =>
      match l with
      | [] => k []
      | _ :: _ => false
      end
  end.

(** [p.test(s)]: a match at some position. *)
Fixpoint test (p : Pattern) (l : list ascii) : bool :=
  matchFrom p l (λ _, true)
  || match l with
     | [] => false
     | _ :: r => test p r
     end.

Definition word (s : string) : Pattern :=
  fold_right (λ c p, Seq (Chr c) p) Eps (chars s).

(** The pattern of the source: [\.], then
    [(png|jpe?g|gif|webp|svg|bmp|tiff?|ico|pdf)], then optionally [\?]
    with [.*], then [$]. *)
Definition imageOrPdf : Pattern :=
  Seq (Chr ".")
    (Seq (Alt (word "png")
         (Alt (Seq (word "jp") (Seq (Opt (Chr "e")) (Chr "g")))
         (Alt (word "gif")
         (Alt (word "webp")
         (Alt (word "svg")
         (Alt (word "bmp")
         (Alt (Seq (word "tif") (Opt (Chr "f")))
         (Alt (word "ico")
              (word "pdf")))))))))
       (Seq (Opt (Seq (Chr "?") AnyStar)) AtEnd)).

(** [isImageOrPdf].  The pattern has only ASCII characters, and the
    lower-casing of a character outside ASCII gives no ASCII letter of
    the pattern next to another one; so it is the ASCII letters of
    [url] whose case matters. *)
Definition isImageOrPdf (url : string) : bool :=
  let lower := toLowerCase url in
  test imageOrPdf (chars lower).

(** *** [String.prototype.trim] *)

(** What is left after one white space or line terminator at the head,
    on the bytes of the UTF-8 encoding. *)
Definition afterSpace (l : list N) : option (list N) :=
  match l with
  | 9 :: r | 10 :: r | 11 :: r | 12 :: r | 13 :: r | 32 :: r => Some r
  | 194 :: 160 :: r => Some r
  | 225 :: 154 :: 128 :: r => Some r
  | 226 :: 128 :: c :: r =>
      if ((128 <=? c) && (c <=? 138)) || (c =? 168) || (c =? 169)
         || (c =? 175)
      then Some r else None
  | 226 :: 129 :: 159 :: r => Some r
  | 227 :: 128 :: 128 :: r => Some r
  | 239 :: 187 :: 191 :: r => Some r
  | _ => None
  end.

(** The same at the end, on the reversed bytes. *)
Definition beforeSpace (l : list N) : option (list N) :=
  match l with
  | 9 :: r | 10 :: r | 11 :: r | 12 :: r | 13 :: r | 32 :: r => Some r
  | 160 :: 194 :: r => Some r
  | 128 :: 154 :: 225 :: r => Some r
  | 159 :: 129 :: 226 :: r => Some r
  | 128 :: 128 :: 227 :: r => Some r
  | 191 :: 187 :: 239 :: r => Some r
  | c :: 128 :: 226 :: r =>
      if ((128 <=? c) && (c <=? 138)) || (c =? 168) || (c =? 169)
         || (c =? 175)
      then Some r else None
  | _ => None
  end.

Fixpoint dropSpaces (strip : list N → option (list N)) (fuel : nat)
    (l : list N) : list N :=
  match fuel with
  | O => l
  | S f =>
      match strip l with
      | Some r => dropSpaces strip f r
      | None => l
      end
  end.

Definition trim (s : string) : string :=
  let bytes := map Char.code (chars s) in
  let front := dropSpaces afterSpace (length bytes) bytes in
  let back := dropSpaces beforeSpace (length front) (rev front) in
  text (map ascii_of_N (rev back)).

(** *** The report that is read *)

(** A value of [JSON.parse]; a number is [mantissa * 10 ^ exponent]. *)
#[warnings="-register-all"]
Inductive JSON :=
| JNull
| JBool (b : bool)
| JNumber (mantissa exponent : Z)
| JString (s : string)
| JArray (items : list JSON)
| JObject (fields : list (string * JSON)).

(** The value of the last field named [key], as [JSON.parse] keeps it. *)
Fixpoint lookupLast (key : string) (fields : list (string * JSON))
  : option JSON :=
  match fields with
  | [] => None
  | (k, v) :: rest =>
      match lookupLast key rest with
      | Some v' => Some v'
      | None => if bool_decide (k = key) then Some v else None
      end
  end.

(** [v.key], for a [key] that no prototype defines: [None] is the
    [TypeError] on [null], [Some None] is [undefined]. *)
Definition member (key : string) (v : JSON) : option (option JSON) :=
  match v with
  | JNull => None
  | JObject fields => Some (lookupLast key fields)
  | _ => Some None
  end.

(** The number that [JSON.parse] makes of [mantissa * 10 ^ exponent] is
    zero when the value is at most [2 ^ -1075], half of the least
    positive double (the tie goes to the even neighbour, which is
    zero). *)
Definition isZero (mantissa exponent : Z) : bool :=
  (Z.abs mantissa * 2 ^ 1075 <=? 10 ^ (- exponent))%Z.

(** [!!v] *)
Definition truthy (v : JSON) : bool :=
  match v with
  | JNull => false
  | JBool b => b
  | JNumber mantissa exponent => negb (isZero mantissa exponent)
  | JString s => negb (bool_decide (s = ""))
  | JArray _ | JObject _ => true
  end.

(** *** [extractCleanUrls] *)

(** The callback of [pages.forEach]: [cleanUrls] after it, or [None]
    when it throws ([null.url], or [trim] on a value that has none). *)
Definition visitPage (cleanUrls : list string) (page : JSON)
  : option (list string) :=
  match member "url" page with
  | None => None
  | Some None | Some (Some JNull) => Some cleanUrls
  | Some (Some (JString s)) =>
      let url := trim s in
      if bool_decide (url = "") then Some cleanUrls
      else if isImageOrPdf url then Some cleanUrls
      else Some (cleanUrls ++ [url])
  | Some (Some _) => None
  end.

(** [pages.forEach(...)] with a callback that can throw. *)
Definition forEach (pages : list JSON) : option (list string) :=
  fold_left
    (λ acc page,
       match acc with
       | Some cleanUrls => visitPage cleanUrls page
       | None => None
       end)
    pages (Some []).

(** [cleanUrls.join('\n') + '\n'] *)
Definition lines (cleanUrls : list string) : string :=
  String.concat (String (ascii_of_N 10) "") cleanUrls
  +:+ String (ascii_of_N 10) "".

(** The input file: missing, not JSON, or the value it holds. *)
Inductive Input :=
| Missing
| Malformed
| Parsed (data : JSON).

(** [extractCleanUrls]: what is written to the output file; [None] when
    nothing is written (the input file is missing, or an exception went
    to the [catch]). *)
Definition extractCleanUrls (inputFile : Input) : option string :=
  match inputFile with
  | Missing | Malformed => None
  | Parsed data =>
      match member "pages" data with
      | None => None
      | Some found =>
          let pages :=
            match found with
            | Some v => if truthy v then v else JArray []
            | None => JArray []
            end in
          match pages with
          | JArray items => lines <$> forEach items
          | _ => None
          end
      end
  end.

End ExtractUrls.
(** * Properties *)

Import Crawler.

(** ** Vocabulary *)

(** [stable r r']: [r'] is [r] after some deliveries of events; only the
    error lists may have grown. *)
Record stable (r r' : PageResult) : Prop := mkStable {
  st_url : url r' = url r;
  st_title : title r' = title r;
  st_metaDescription : metaDescription r' = metaDescription r;
  st_brokenImages : brokenImages r' = brokenImages r;
  st_allImages : allImages r' = allImages r;
  st_imagesAnalysis : imagesAnalysis r' = imagesAnalysis r;
  st_links : links r' = links r;
  st_statusCode : statusCode r' = statusCode r;
  st_loadTime : loadTime r' = loadTime r;
  st_metaTags : metaTags r' = metaTags r;
  st_isDocument : isDocument r' = isDocument r;
  st_documentType : documentType r' = documentType r;
  st_documentStatus : documentStatus r' = documentStatus r;
  st_documentLinks : documentLinks r' = documentLinks r;
  st_listening : hasListeners r' = hasListeners r;
  st_jsErrors : ∀ m, m ∈ jsErrors r → m ∈ jsErrors r'
}.

(** A link that [allLinks.forEach] puts in the queue. *)
Definition followable (ROOT : string) (seen : gset string) (q : list string)
    (link : string) : Prop :=
  isDocumentUrl link = false ∧ startsWith link ROOT = true
  ∧ (normalizeUrl link ∉ seen) ∧ (normalizeUrl link ∉ normalizeUrl <$> q).

(** Where the result [r] that a turn adds comes from: [v] is the
    browser's answer, [c] and [c'] the image cache before and after. *)
Definition Emitted (ROOT : string) (browser : Browser) (v : Visit)
    (seen : gset string) (rest : list string) (c c' : Cache) (u : string)
    (r : PageResult) : Prop :=
  let r0 := deliver (navEvents v) (setupErrorHandling (newPageResult u)) in
  if isDocumentUrl u then
    r = checkDocumentUrl v u (newPageResult u) ∧ c' = c
  else
    match navigation v with
    | Failed message => r = failedPage v message r0 ∧ c' = c
    | Loaded st =>
        ∃ t allLinks analysis brokenList,
          pageTitle v = Some t ∧ anchors v = Some allLinks
          ∧ inspectImages browser v r0 c = (analysis, brokenList, c')
          ∧ r = deliver (laterEvents v)
                  (htmlPage v t st r0 analysis brokenList
                     (discover ROOT seen allLinks rest))
    end.

(** The invariant of the loop. *)
Record Inv (ROOT : string) (s : State) : Prop := mkInv {
  inv_nodup : NoDup ((λ r, normalizeUrl (url r)) <$> results s);
  inv_seen : ∀ u, u ∈ (url <$> results s) ++ navigated s →
             normalizeUrl u ∈ visited s;
  inv_queue_nodup : NoDup (normalizeUrl <$> queue s);
  inv_queue_fresh : ∀ q, q ∈ queue s → normalizeUrl q ∉ visited s;
  inv_scope : ∀ q, q ∈ queue s ++ navigated s →
              startsWith q ROOT = true ∧ (q = ROOT ∨ isDocumentUrl q = false);
  inv_links : ∀ r l, r ∈ results s → l ∈ links r →
              startsWith l ROOT = true ∧ isDocumentUrl l = false;
  inv_history : ∃ q', (phase s ≠ Aborted → q' = queue s)
                ∧ (url <$> results s) ++ q'
                  = ROOT :: concat (links <$> results s);
  inv_navigated : ∃ extra, navigated s = (url <$> results s) ++ extra
                  ∧ (phase s ≠ Aborted → extra = []);
  inv_navigated_nodup : NoDup (normalizeUrl <$> navigated s);
  inv_history_nodup :
    NoDup (normalizeUrl <$> ROOT :: concat (links <$> results s))
}.

(** The cache after some more checks: entries are only added. *)
Definition extends (c c' : Cache) : Prop :=
  (∀ k e, entries c !! k = Some e → entries c' !! k = Some e)
  ∧ requests c `prefix_of` requests c'.

(** Every request wrote the entry of its identity, and no identity was
    requested twice. *)
Record CacheOk (c : Cache) : Prop := mkCacheOk {
  ok_once : NoDup (normalizeImageUrl <$> requests c);
  ok_keys : ∀ k, is_Some (entries c !! k)
                 ↔ k ∈ normalizeImageUrl <$> requests c;
  ok_verified : ∀ k e, entries c !! k = Some e → verified e = true
}.

(** What the browser reported for an image, and whether the check found
    it missing. *)
Definition reported (i : ImageInfo) : bool :=
  complete i && (0 <? naturalWidth i) && (0 <? naturalHeight i).

Definition refuted (i : ImageInfo) : bool :=
  bool_decide (verifiedExists i = Some false).

Definition countZ {A} (f : A → bool) (l : list A) : Z :=
  Z.of_nat (length (List.filter f l)).

Definition tally (i : ImageInfo) : Z := if isWorking i then 1 else 0.

(** [b] is [a] after the body of the verification loop. *)
Definition verifiedFrom (c : Cache) (a b : ImageInfo) : Prop :=
  src b = src a ∧ reported b = reported a
  ∧ (b = a
     ∨ ∃ e, entries c !! normalizeImageUrl (src a) = Some e
            ∧ verifiedExists b = Some (exists_ e)
            ∧ isWorking b = isWorking a && exists_ e).

(** The counters of an analysis agree with its entries, and an entry is
    working exactly when the browser reported it and no check refuted
    it. *)
Definition AnalysisOk (a : ImagesAnalysis) : Prop :=
  Forall (λ i, isWorking i = reported i && negb (refuted i)) (details a)
  ∧ working a = countZ isWorking (details a)
  ∧ broken a = countZ (λ i, negb (isWorking i)) (details a).

(** The verified existence of an entry is the one in the cache. *)
Definition Backed (m : gmap string ImageCheck) (i : ImageInfo) : Prop :=
  ∀ b, verifiedExists i = Some b →
       ∃ e, m !! normalizeImageUrl (src i) = Some e ∧ exists_ e = b.

(** The invariant of the loop, continued: the cache, the image analyses
    and where each result comes from. *)
Record Inv2 (ROOT : string) (browser : Browser) (s : State) : Prop := mkInv2 {
  inv_cache : CacheOk (mkCache (checkedImages s) (probed s));
  inv_images : ∀ r, r ∈ results s →
      AnalysisOk (imagesAnalysis r)
      ∧ Forall (Backed (checkedImages s)) (details (imagesAnalysis r))
      ∧ brokenImages r
        = src <$> List.filter (λ i, negb (isWorking i))
                    (details (imagesAnalysis r));
  inv_provenance : ∀ i r, results s !! i = Some r →
      ∃ seen rest c c' x,
        Emitted ROOT browser (visit browser i (url r)) seen rest c c' (url r) x
        ∧ stable x r
}.

(** The history of a run: the root, then the links of the results in
    order.  The targets are taken from it front to back. *)
Definition history (ROOT : string) (s : State) : list string :=
  ROOT :: concat (links <$> results s).

(** A browser on which no step after a successful navigation rejects. *)
Definition calm (browser : Browser) : Prop :=
  ∀ k u st,
    navigation (visit browser k u) = Loaded st →
    is_Some (pageTitle (visit browser k u))
    ∧ is_Some (anchors (visit browser k u))
    ∧ pauseOk (visit browser k u) = true.

(** The serialized origin of a URL string. *)
Definition originOf (u : string) : option string :=
  (λ p, text (URLStd.origin p)) <$> URLStd.parse u.

(** ** Example sites *)

(** A page that loads, with its anchors and images. *)
Definition htmlVisit (hrefs : list string) (imgs : list Img) : Visit :=
  mkVisit [] 5 (Loaded (Some 200)) (Some "Page") (Some "About")
    (Some []) (Some imgs) (Some hrefs) true [].

(** A navigation that fails after [ms] milliseconds. *)
Definition failedVisit (ms : Z) (message : string) : Visit :=
  mkVisit [PageError "boom"] ms (Failed message) None None None None None
    true [].

(** A small site under the root ["https://x.com"]: the root links to
    [/a] and [/b] (and to more), [/a] links back to the root and to
    [/c], and [/b] times out.  The logo is missing at the first request
    and present afterwards. *)
Definition exampleSite : Browser :=
  mkBrowser
    (λ _ u,
       if bool_decide (u = "https://x.com") then
         htmlVisit
           [ "https://x.com/a"; "https://x.com/b"; "https://x.com/a/";
             "https://other.com/page"; "https://other.com/f.pdf" ]
           [ mkImg "https://x.com/logo.png?v=1" "logo" 10 10 true ]
       else if bool_decide (u = "https://x.com/a") then
         htmlVisit [ "https://x.com/"; "https://x.com/c"; "https://x.com/b#x" ]
           [ mkImg "https://x.com/logo.png?v=2" "" 10 10 true ]
       else if bool_decide (u = "https://x.com/b") then
         failedVisit 30000 "Timeout 30000ms exceeded."
       else htmlVisit [] [])
    (λ n _, if (n =? 0)%nat then Fetched 404 false else Fetched 200 true).

(** A site whose root links to a host that merely starts with the root
    string. *)
Definition lookalikeSite : Browser :=
  mkBrowser
    (λ _ u,
       if bool_decide (u = "https://x.com")
       then htmlVisit [ "https://x.com.evil.org/p" ] []
       else htmlVisit [] [])
    (λ _ _, Fetched 200 true).

(** ** Vocabulary of the image verification *)

(** The guard of the verification loop: an entry is checked when its
    source is not empty and is no data URL. *)
Definition eligible (i : ImageInfo) : bool :=
  negb (bool_decide (src i = "")) && negb (startsWith (src i) "data:").

(** The entry [i] went through the verification loop against the cache
    [m]: when it is eligible, its verified existence is the one that the
    cache holds for its identity; otherwise it has none. *)
Definition Checked (m : gmap string ImageCheck) (i : ImageInfo) : Prop :=
  if eligible i
  then ∃ e, m !! normalizeImageUrl (src i) = Some e
            ∧ verifiedExists i = Some (exists_ e)
  else verifiedExists i = None.

(** A page with five images: one that is there, one that is missing,
    the missing one again under another query, a data URL, and one that
    the browser could not render. *)
Definition gallerySite : Browser :=
  mkBrowser
    (λ _ _,
       htmlVisit []
         [ mkImg "https://x.com/a.png" "a" 10 10 true;
           mkImg "https://x.com/b.png" "b" 10 10 true;
           mkImg "https://x.com/b.png?v=2" "b" 10 10 true;
           mkImg "data:image/png;base64,AAAA" "dot" 1 1 true;
           mkImg "https://x.com/c.png" "c" 0 0 true ])
    (λ _ u, if bool_decide (u = "https://x.com/b.png")
            then Fetched 404 false else Fetched 200 true).

(** ** Vocabulary of the re-parsing of a normalized URL *)

Module Reparse.
Import Char URLStd.

(** All the characters. *)
Definition allAscii : list ascii := map ascii_of_nat (seq 0 256).

(** A character that can stand in a serialized URL without being touched
    by the preprocessing of the parser. *)
Definition isPlain (c : ascii) : bool := (32 <? code c) && (code c <? 127).

(** A character of a serialized host: plain, and none of the delimiters
    of the authority. *)
Definition isHostChar (c : ascii) : bool :=
  isPlain c && negb (isAuthorityEnd true c) && negb (isCode 64 c)
  && negb (isCode 37 c).

(** A character of a serialized path segment. *)
Definition isSegmentChar (c : ascii) : bool :=
  isPlain c && negb (inPathSet c) && negb (isSlash c).



(** A segment of a parsed path: encoded, without slash, and not a dot
    segment. *)
Definition SegOk (seg : list ascii) : Prop :=
  forallb isSegmentChar seg = true
  ∧ isSingleDot seg = false ∧ isDoubleDot seg = false.

(** [forallBits k P]: [P] holds for all numbers below [2 ^ k]. *)
Fixpoint forallBits (k : nat) (P : N → bool) : bool :=
  match k with
  | O => P 0
  | S k' => forallBits k' (λ n, P (2 * n)) && forallBits k' (λ n, P (2 * n + 1))
  end.

(** A decimal number as it stands in a serialized host or port. *)
Definition decimalOk (n : N) : bool :=
  let d := showDec n in
  forallb isDigit d && negb (bool_decide (d = []))
  && (readRadix 10 d =? n)
  && bool_decide (parseIPv4Number d = Some n).

(** What the reparsing needs of a parsed host [h]: its serialization is
    not empty, consists of host characters, is taken whole by the host
    state, and parses to [h]. *)
Record HostOk (h : Host) : Prop := mkHostOk {
  host_nonempty : showHost h ≠ [];
  host_chars : forallb isHostChar (showHost h) = true;
  host_split : ∀ tail,
    splitHostPort false (showHost h ++ tail)
    = (showHost h ++ (splitHostPort false tail).1,
       (splitHostPort false tail).2);
  host_parse : parseHost false (showHost h) = Some h
}.

(** Evaluates the powers of 256 in the goal and the hypotheses. *)
Ltac pow256 :=
  repeat match goal with
    | H : context [256 ^ ?e] |- _ =>
        let v := eval vm_compute in (256 ^ e) in
        change (256 ^ e) with v in H
    | |- context [256 ^ ?e] =>
        let v := eval vm_compute in (256 ^ e) in change (256 ^ e) with v
    end.

(** The text of a dotted-decimal address. *)
Definition dotted (parts : list (list ascii)) : list ascii :=
  match parts with
  | [] => []
  | p :: ps => p ++ flat_map (λ q, "."%char :: q) ps
  end.

(** The port as it follows the host in a serialized origin. *)
Definition portText (prt : option N) : list ascii :=
  match prt with
  | Some p => lit ":" ++ showDec p
  | None => []
  end.

(** A character of a serialized IPv6 address. *)
Definition isIPv6Char (c : ascii) : bool := isHex c || isCode 58 c.

(** A piece as it stands in a serialized IPv6 address. *)
Definition hexOk (n : N) : bool :=
  let s := showHex n in
  forallb isHex s && negb (bool_decide (s = [])) && (length s <=? 4)%nat
  && match readHex4 4 s 0 0%nat with
     | (value, _, rest) => (value =? n) && bool_decide (rest = [])
     end.

(** Pieces separated by colons. *)
Fixpoint sepHex (l : list N) : list ascii :=
  match l with
  | [] => []
  | [p] => showHex p
  | p :: r => showHex p ++ lit ":" ++ sepHex r
  end.

(** Pieces, each followed by a colon. *)
Definition prefixText (l : list N) : list ascii :=
  flat_map (λ p, showHex p ++ lit ":") l.

(** The pieces after the zero pieces in front. *)
Fixpoint dropZeros (l : list N) : list N :=
  match l with
  | 0 :: r => dropZeros r
  | _ => l
  end.

(** The parts of a parsed URL whose scheme has a tuple origin. *)
Record TupleOk (p : URL) (h : Host) (segs : list (list ascii)) : Prop := {
  tuple_host : host p = Some h;
  tuple_host_ok : HostOk h;
  tuple_port : ∀ n,
    port p = Some n → n ≤ 65535 ∧ defaultPort (scheme p) ≠ Some n;
  tuple_path : path p = ListPath segs;
  tuple_segments : Forall SegOk segs;
  tuple_nonempty : segs ≠ []
}.

(** The segments after the empty ones in front. *)
Fixpoint dropEmpty (segs : list (list ascii)) : list (list ascii) :=
  match segs with
  | [] :: rest => dropEmpty rest
  | _ => segs
  end.

(** The segments without the empty ones at the end. *)
Definition trimSegs (segs : list (list ascii)) : list (list ascii) :=
  rev (dropEmpty (rev segs)).


End Reparse.

(** ** Hosts that need no Unicode processing *)

Module Hosts.
Import Char Text URLStd.



(** A domain for which "domain to ASCII" is ASCII lower-casing: all its
    bytes are ASCII and none of its labels starts with "xn--". *)
Definition plainDomain (l : list ascii) : bool :=
  forallb (λ c, code c <? 128) l && negb (hasXnLabel l).


End Hosts.

(** ** Vocabulary of the listeners *)

(** The number of messages that the listeners have recorded in [r]. *)
Definition recorded (r : PageResult) : nat :=
  length (jsErrors r) + length (consoleErrors r)
  + length (default [] (benignErrors r))
  + length (default [] (networkErrors r))
  + length (default [] (warnings r)).

(** The events that a listener records: every page error, the console
    messages of type error or warning, the responses from status 400. *)
Definition reportable (e : PageEvent) : bool :=
  match e with
  | PageError _ => true
  | ConsoleMessage type _ =>
      bool_decide (type = "error") || bool_decide (type = "warning")
  | ResponseSeen st _ => 400 <=? st
  end.

(** [setupErrorHandling] has been called on [r]. *)
Definition armed (r : PageResult) : Prop :=
  is_Some (benignErrors r) ∧ is_Some (networkErrors r)
  ∧ is_Some (warnings r).

(** The five lists of [r'] are those of [r] with more at the end. *)
Definition grown (r r' : PageResult) : Prop :=
  jsErrors r `prefix_of` jsErrors r'
  ∧ consoleErrors r `prefix_of` consoleErrors r'
  ∧ default [] (benignErrors r) `prefix_of` default [] (benignErrors r')
  ∧ default [] (networkErrors r) `prefix_of` default [] (networkErrors r')
  ∧ default [] (warnings r) `prefix_of` default [] (warnings r').

(** A site of two pages; the second one fails to load a script and
    throws, and has a broken image. *)
Definition noisySite : Browser :=
  mkBrowser
    (λ _ u,
       if bool_decide (u = "https://x.com")
       then htmlVisit [ "https://x.com/a" ] []
       else
         mkVisit
           [ ResponseSeen 404 "https://x.com/missing.js"; PageError "boom" ]
           7 (Loaded (Some 200)) (Some "A") (Some "") (Some [])
           (Some [ mkImg "https://x.com/gone.png" "" 0 0 true;
                   mkImg "data:image/png;base64,AAAA" "dot" 1 1 true ])
           (Some []) true [ ConsoleMessage "warning" "slow" ])
    (λ _ _, Fetched 404 false).

(** The images that the results count. *)
Definition imagesSeen (rs : list PageResult) : nat :=
  sum_list_with (λ r, length (details (imagesAnalysis r))) rs.

(** A browser that cannot load anything. *)
Definition deadSite : Browser :=
  mkBrowser (λ _ _, failedVisit 15000 "net::ERR_ABORTED")
    (λ _ _, FetchFailed "offline").

(** A character of a file name that needs no escaping: a letter, a
    digit or the underscore. *)
Definition isWordChar (c : ascii) : bool := Char.isAlnum c || Char.isCode 95 c.


(** ** Vocabulary of extract-urls.js *)

Module ExtractUrlsSpec.

Import ExtractUrls.

(** The extensions that the pattern of [isImageOrPdf] accepts. *)
Definition imageExtensions : list string :=
  [ "png"; "jpg"; "jpeg"; "gif"; "webp"; "svg"; "bmp"; "tif"; "tiff";
    "ico"; "pdf" ].

(** A line terminator starts somewhere in [l]. *)
Fixpoint hasLineTerminator (l : list ascii) : bool :=
  lineTerminatorAt l
  || match l with
     | [] => false
     | _ :: r => hasLineTerminator r
     end.

(** [p] matches [a] in front of [rest]. *)
Fixpoint denotes (p : Pattern) (a rest : list ascii) : Prop :=
  match p with
  | Eps => a = []
  | Chr c => a = [c]
  | Seq p1 p2 =>
      ∃ a1 a2, a = a1 ++ a2 ∧ denotes p1 a1 (a2 ++ rest) ∧ denotes p2 a2 rest
  | Alt p1 p2 => denotes p1 a rest ∨ denotes p2 a rest
  | Opt p1 => a = [] ∨ denotes p1 a rest
  | AnyStar =>
      ∀ x y, a = x ++ y → y ≠ [] → lineTerminatorAt (y ++ rest) = false
  | AtEnd => a = [] ∧ rest = []
  end.

(** The [url] of a page of the report, as the callback of [forEach]
    reads it: [None] when reading it throws, [Some None] when there is
    none. *)
Definition urlField (page : JSON) : option (option string) :=
  match page with
  | JNull => None
  | JObject fields =>
      match lookupLast "url" fields with
      | None | Some JNull => Some None
      | Some (JString s) => Some (Some s)
      | Some _ => None
      end
  | _ => Some None
  end.

(** A URL that [extractCleanUrls] writes. *)
Definition isClean (url : string) : bool :=
  negb (bool_decide (url = "")) && negb (isImageOrPdf url).

(** The character [c] occurs in [s]. *)
Definition occurs (c : ascii) (s : string) : bool :=
  existsb (Ascii.eqb c) (chars s).

(** The line feed, at which the output file is cut into lines. *)
Definition isLineFeed (c : ascii) : bool := Char.isCode 10 c.

End ExtractUrlsSpec.

(** ** Strings *)

Lemma chars_text l : chars (text l) = l.
Proof. apply list_ascii_of_string_of_list_ascii. Qed.

Lemma text_chars s : text (chars s) = s.
Proof. apply string_of_list_ascii_of_string. Qed.

Lemma text_inj a b : text a = text b → a = b.
Proof. intros H. rewrite <- (chars_text a), <- (chars_text b). by rewrite H. Qed.

(** ** The listeners leave everything but the error lists alone *)

Lemma stable_refl r : stable r r.
Proof. by split. Qed.

Lemma stable_trans a b c : stable a b → stable b c → stable a c.
Proof.
  intros [] []; split; try congruence; eauto.
Qed.

Lemma push_stable k m r : stable r (push k m r).
Proof.
  split; try reflexivity.
  - unfold hasListeners, push; simpl. by destruct (benignErrors r).
  - intros x Hx. unfold push; simpl. case_bool_decide; [|done].
    apply elem_of_app; by left.
Qed.

Lemma listener_stable e r : stable r (listener e r).
Proof.
  destruct e; simpl; repeat case_match;
    auto using push_stable, stable_refl.
Qed.

Lemma deliver_stable events r : stable r (deliver events r).
Proof.
  unfold deliver. destruct (hasListeners r); [|apply stable_refl].
  revert r. induction events as [|e events IH]; intros r; simpl.
  - apply stable_refl.
  - eapply stable_trans; [apply listener_stable | apply IH].
Qed.

Lemma deliver_url events r : url (deliver events r) = url r.
Proof. apply deliver_stable. Qed.

Lemma fmap_deliver_urls events (rs : list PageResult) :
  url <$> (deliver events <$> rs) = url <$> rs.
Proof.
  rewrite <- list_fmap_compose. apply list_fmap_ext.
  intros i r _. simpl. apply deliver_url.
Qed.

(** ** The links of a page *)

Section Discover.

Context (ROOT : string).

Lemma discover_fold seen allLinks d0 :
  let d := fold_left (discoverLink ROOT seen) allLinks d0 in
  ∃ new,
    internalLinks d = internalLinks d0 ++ new
    ∧ pending d = pending d0 ++ new
    ∧ foundDocuments d
      = foundDocuments d0 ++ List.filter isDocumentUrl allLinks
    ∧ Forall (λ l, l ∈ allLinks ∧ followable ROOT seen (pending d0) l) new
    ∧ NoDup (normalizeUrl <$> new).
Proof.
  revert d0. induction allLinks as [|link allLinks IH]; intros d0; simpl.
  { exists []. rewrite !app_nil_r. repeat split; constructor. }
  destruct (IH (discoverLink ROOT seen d0 link))
    as (new & Hi & Hp & Hd & Hall & Hnd).
  rewrite Hi, Hp, Hd. clear Hi Hp Hd IH.
  unfold discoverLink in *.
  destruct (isDocumentUrl link) eqn:Hdoc; simpl in *.
  { exists new. repeat split; auto. 
    - by rewrite <- app_assoc.
    - eapply Forall_impl; [exact Hall|]. simpl. intros l [? ?]. split; [|done].
      by apply elem_of_cons; right. }
  destruct (startsWith link ROOT) eqn:Hroot; simpl in *.
  2:{ exists new. repeat split; auto.
      eapply Forall_impl; [exact Hall|]. simpl. intros l [? ?]. split; [|done].
      by apply elem_of_cons; right. }
  destruct (negb (bool_decide (normalizeUrl link ∈ seen))
            && negb (existsb
                       (λ q, bool_decide (normalizeUrl q = normalizeUrl link))
                       (pending d0))) eqn:Hnew; simpl in *.
  2:{ exists new. repeat split; auto.
      eapply Forall_impl; [exact Hall|]. simpl. intros l [? ?]. split; [|done].
      by apply elem_of_cons; right. }
  apply andb_true_iff in Hnew as [Hseen Hq].
  apply negb_true_iff, bool_decide_eq_false in Hseen.
  apply negb_true_iff in Hq.
  assert (Hfresh : normalizeUrl link ∉ normalizeUrl <$> pending d0).
  { intros (q & Heq & Hin)%list_elem_of_fmap.
    assert (existsb (λ q, bool_decide (normalizeUrl q = normalizeUrl link))
              (pending d0) = true); [|congruence].
    apply existsb_exists. exists q. split; [by apply list_elem_of_In|].
    by apply bool_decide_eq_true. }
  exists (link :: new). rewrite <- !app_assoc. simpl. repeat split; auto.
  - constructor.
    + split; [by apply elem_of_cons; left | done].
    + eapply Forall_impl; [exact Hall|]. simpl.
      intros l [? (? & ? & ? & Hl)]. split; [by apply elem_of_cons; right|].
      repeat split; auto. intros Hin. apply Hl.
      rewrite fmap_app. apply elem_of_app. by left.
  - simpl. constructor; [|done].
    intros (l & Heq & Hin)%list_elem_of_fmap.
    rewrite Forall_forall in Hall. destruct (Hall l Hin) as [_ (_ & _ & _ & Hl)].
    apply Hl. rewrite fmap_app. apply elem_of_app. right.
    rewrite <- Heq. simpl. by apply list_elem_of_singleton.
Qed.

Lemma discover_spec seen allLinks q :
  let d := discover ROOT seen allLinks q in
  pending d = q ++ internalLinks d
  ∧ foundDocuments d = List.filter isDocumentUrl allLinks
  ∧ Forall (λ l, l ∈ allLinks ∧ followable ROOT seen q l) (internalLinks d)
  ∧ NoDup (normalizeUrl <$> internalLinks d).
Proof.
  destruct (discover_fold seen allLinks (mkDiscovery [] [] q))
    as (new & Hi & Hp & Hd & Hall & Hnd).
  simpl in *. unfold discover. rewrite Hi, Hp, Hd. auto.
Qed.

End Discover.

(** ** One turn of the loop *)

Section Turn.

Context (ROOT : string) (browser : Browser).

Abbreviation step := (step ROOT browser).
Abbreviation identity := (λ r : PageResult, normalizeUrl (url r)).

Lemma checkDocumentUrl_links v u r : links (checkDocumentUrl v u r) = links r.
Proof. unfold checkDocumentUrl. by destruct (navigation v). Qed.

Lemma checkDocumentUrl_url v u r : url (checkDocumentUrl v u r) = url r.
Proof. unfold checkDocumentUrl. by destruct (navigation v). Qed.

Lemma step_turn s u rest :
  phase s = Running → queue s = u :: rest → normalizeUrl u ∉ visited s →
  let v := visit browser (length (navigated s)) u in
  let c := mkCache (checkedImages s) (probed s) in
  let c' := mkCache (checkedImages (step s)) (probed (step s)) in
  ∃ f new,
    (∀ x, stable x (f x))
    ∧ results (step s) = (f <$> results s) ++ new
    ∧ visited (step s) = {[normalizeUrl u]} ∪ visited s
    ∧ navigated (step s) = navigated s ++ [u]
    ∧ queue (step s) = rest ++ concat (links <$> new)
    ∧ (c' = c ∨ ∃ r0, c' = (inspectImages browser v r0 c).2)
    ∧ ((new = [] ∧ phase (step s) = Aborted)
       ∨ (∃ r, new = [r] ∧ url r = u
            ∧ Forall (followable ROOT ({[normalizeUrl u]} ∪ visited s) rest)
                (links r)
            ∧ NoDup (normalizeUrl <$> links r)
            ∧ Emitted ROOT browser v ({[normalizeUrl u]} ∪ visited s) rest c c' u r)).
Proof.
  intros Hp Hq Hv. unfold Crawler.step, Emitted. rewrite Hp, Hq.
  rewrite bool_decide_false by done. cbv zeta.
  set (v := visit browser (length (navigated s)) u).
  pose proof (deliver_stable (navEvents v)
                (setupErrorHandling (newPageResult u))) as H0.
  destruct (isDocumentUrl u) eqn:Hdoc.
  { exists (deliver (navEvents v)), [checkDocumentUrl v u (newPageResult u)].
    simpl. rewrite checkDocumentUrl_links. simpl. rewrite app_nil_r.
    split; [intros x; apply deliver_stable|].
    do 4 (split; [reflexivity|]). split; [by left|].
    right. eexists. split; [done|].
    rewrite checkDocumentUrl_links, checkDocumentUrl_url.
    repeat split; constructor. }
  destruct (navigation v) as [st|message] eqn:Hnav.
  2:{ exists (deliver (navEvents v)),
      [failedPage v message
         (deliver (navEvents v) (setupErrorHandling (newPageResult u)))].
    simpl. rewrite (st_links _ _ H0). simpl. rewrite app_nil_r.
    split; [intros x; apply deliver_stable|].
    do 4 (split; [reflexivity|]). split; [by left|].
    right. eexists. split; [done|].
    simpl. rewrite (st_links _ _ H0), (st_url _ _ H0).
    repeat split; constructor. }
  destruct (pageTitle v) as [t|] eqn:Htitle.
  2:{ exists (deliver (navEvents v)), []. simpl. rewrite !app_nil_r.
    split; [intros x; apply deliver_stable|].
    do 4 (split; [reflexivity|]). split; by left. }
  destruct (inspectImages _ _ _ _) as [[analysis brokenList] c] eqn:Himg.
  destruct (anchors v) as [allLinks|] eqn:Hanchors.
  2:{ exists (deliver (navEvents v)), []. simpl. rewrite !app_nil_r.
    split; [intros x; apply deliver_stable|].
    do 4 (split; [reflexivity|]).
    split; [right; eexists; by rewrite Himg; destruct c | by left]. }
  destruct (discover_spec ROOT ({[normalizeUrl u]} ∪ visited s) allLinks rest)
    as (Hpend & Hdocs & Hall & Hnd).
  set (r := htmlPage v t st
              (deliver (navEvents v) (setupErrorHandling (newPageResult u)))
              analysis brokenList
              (discover ROOT ({[normalizeUrl u]} ∪ visited s) allLinks rest)).
  pose proof (deliver_stable (laterEvents v) r) as H1.
  exists (λ x, deliver (laterEvents v) (deliver (navEvents v) x)),
    [deliver (laterEvents v) r].
  simpl.
  split; [intros x; eapply stable_trans; apply deliver_stable|].
  rewrite fmap_app, <- list_fmap_compose. simpl.
  do 3 (split; [reflexivity|]).
  rewrite (st_links _ _ H1). simpl. rewrite app_nil_r.
  split; [done|].
  split; [right; eexists; by rewrite Himg; destruct c|].
  right. eexists. split; [done|].
  rewrite (st_links _ _ H1), (st_url _ _ H1). simpl.
  rewrite (st_url _ _ H0). simpl. split; [done|].
  split; [eapply Forall_impl; [exact Hall|]; by intros l [_ ?]|].
  split; [done|]. exists t, allLinks, analysis, brokenList.
  repeat split. by destruct c.
Qed.

Lemma step_shape s u rest :
  phase s = Running → queue s = u :: rest → normalizeUrl u ∉ visited s →
  ∃ f new,
    (∀ x, stable x (f x))
    ∧ results (step s) = (f <$> results s) ++ new
    ∧ visited (step s) = {[normalizeUrl u]} ∪ visited s
    ∧ navigated (step s) = navigated s ++ [u]
    ∧ queue (step s) = rest ++ concat (links <$> new)
    ∧ ((new = [] ∧ phase (step s) = Aborted)
       ∨ (∃ r, new = [r] ∧ url r = u
            ∧ Forall (followable ROOT ({[normalizeUrl u]} ∪ visited s) rest)
                (links r)
            ∧ NoDup (normalizeUrl <$> links r))).
Proof.
  intros Hp Hq Hv.
  destruct (step_turn s u rest Hp Hq Hv)
    as (f & new & ? & ? & ? & ? & ? & _ & Hnew).
  exists f, new. repeat (split; [done|]).
  destruct Hnew as [?|(r & ? & ? & ? & ? & _)]; [by left|].
  right. by exists r.
Qed.

Lemma step_idle s : phase s ≠ Running → step s = s.
Proof. unfold Crawler.step. by destruct (phase s). Qed.

Lemma step_finish s :
  phase s = Running → queue s = [] →
  step s = mkState (visited s) [] (results s) (checkedImages s)
             (navigated s) (probed s) Finished.
Proof. intros Hp Hq. unfold Crawler.step. by rewrite Hp, Hq. Qed.

Lemma step_skip s u rest :
  phase s = Running → queue s = u :: rest → normalizeUrl u ∈ visited s →
  step s = mkState (visited s) rest (results s) (checkedImages s)
             (navigated s) (probed s) Running.
Proof.
  intros Hp Hq Hv. unfold Crawler.step. rewrite Hp, Hq.
  by rewrite bool_decide_true.
Qed.

Lemma runFrom_succ n s :
  runFrom ROOT browser (S n) s = step (runFrom ROOT browser n s).
Proof. revert s. induction n as [|n IH]; intros s; [done|]. simpl in *. by rewrite IH. Qed.

Lemma run_succ n : run ROOT browser (S n) = step (run ROOT browser n).
Proof. apply runFrom_succ. Qed.

Lemma isPrefix_refl l : isPrefix l l = true.
Proof.
  induction l as [|c l IH]; [done|]. simpl.
  by rewrite Ascii.eqb_refl, IH.
Qed.

Lemma startsWith_refl s : startsWith s s = true.
Proof. apply isPrefix_refl. Qed.

Lemma Inv_start : Inv ROOT (start ROOT).
Proof.
  split; simpl.
  - constructor.
  - intros u Hu. by apply elem_of_nil in Hu.
  - apply NoDup_singleton.
  - intros q _. apply not_elem_of_empty.
  - intros q ->%list_elem_of_singleton. split; [apply startsWith_refl|by left].
  - intros r l Hr. by apply elem_of_nil in Hr.
  - by exists [ROOT].
  - by exists [].
  - constructor.
  - apply NoDup_singleton.
Qed.

Lemma fmap_stable_urls f (rs : list PageResult) :
  (∀ x, stable x (f x)) → url <$> (f <$> rs) = url <$> rs.
Proof.
  intros Hf. rewrite <- list_fmap_compose. apply list_fmap_ext.
  intros i r _. simpl. apply Hf.
Qed.

Lemma fmap_stable_links f (rs : list PageResult) :
  (∀ x, stable x (f x)) → links <$> (f <$> rs) = links <$> rs.
Proof.
  intros Hf. rewrite <- list_fmap_compose. apply list_fmap_ext.
  intros i r _. simpl. apply Hf.
Qed.

Lemma Inv_step s : Inv ROOT s → Inv ROOT (step s).
Proof.
  intros HI.
  destruct (decide (phase s = Running)) as [Hp|Hp];
    [|by rewrite step_idle].
  destruct (queue s) as [|u rest] eqn:Hq.
  { rewrite step_finish by done. destruct HI as [? ? ? ? ? ? Hh Hn ? ?].
    split; simpl; rewrite ?Hq in *; auto.
    - destruct Hh as (q' & Hq' & Hh). exists q'. split; [|done].
      intros _. by apply Hq'; rewrite Hp.
    - destruct Hn as (e & He & He'). exists e. split; [done|].
      intros _. by apply He'; rewrite Hp. }
  destruct (decide (normalizeUrl u ∈ visited s)) as [Hv|Hv].
  { destruct (inv_queue_fresh ROOT s HI u); [rewrite Hq; by left|done]. }
  destruct (step_shape s u rest Hp Hq Hv)
    as (f & new & Hf & Hres & Hvis & Hnav & Hque & Hnew).
  destruct HI as [Hnd Hseen Hqnd Hqf Hsc Hl Hh Hn Hnn Hhn].
  rewrite Hq in *. simpl in Hqnd. apply NoDup_cons in Hqnd as [Hu Hrest].
  assert (Hids : identity <$> (f <$> results s) = identity <$> results s).
  { rewrite <- list_fmap_compose. apply list_fmap_ext.
    intros i r _. simpl. by rewrite (st_url _ _ (Hf r)). }
  destruct Hh as (q' & Hq' & Hh). rewrite (Hq' ltac:(by rewrite Hp)) in Hh.
  destruct Hn as (extra & Hn & He). rewrite (He ltac:(by rewrite Hp)) in Hn.
  rewrite app_nil_r in Hn. clear Hq' He q' extra.
  split; rewrite ?Hres, ?Hvis, ?Hnav, ?Hque.
  - rewrite fmap_app, Hids. apply NoDup_app. split; [done|]. split.
    + intros x Hx Hx'. destruct Hnew as [[-> _]|(r & -> & Hr & _)];
        [by apply elem_of_nil in Hx'|].
      simpl in Hx'. apply list_elem_of_singleton in Hx'. subst x.
      rewrite Hr in Hx. apply Hv.
      apply list_elem_of_fmap in Hx as (r' & Heq & Hin).
      rewrite Heq. apply Hseen. apply elem_of_app; left.
      apply list_elem_of_fmap. eauto.
    + destruct Hnew as [[-> _]|(r & -> & _)]; simpl;
        [constructor | apply NoDup_singleton].
  - intros x Hx. rewrite fmap_app, fmap_stable_urls in Hx by done.
    rewrite !elem_of_app in Hx.
    destruct Hx as [[Hx|Hx]|[Hx|Hx]].
    + apply elem_of_union; right. apply Hseen, elem_of_app; by left.
    + destruct Hnew as [[-> _]|(r & -> & Hr & _)];
        [by apply elem_of_nil in Hx|].
      simpl in Hx. apply list_elem_of_singleton in Hx. subst x.
      rewrite Hr. apply elem_of_union; left. by apply elem_of_singleton.
    + apply elem_of_union; right. apply Hseen, elem_of_app; by right.
    + apply list_elem_of_singleton in Hx. subst x.
      apply elem_of_union; left. by apply elem_of_singleton.
  - rewrite fmap_app. apply NoDup_app. split; [done|].
    destruct Hnew as [[-> _]|(r & -> & Hr & Hfol & Hlnd)]; simpl.
    { split; [|constructor]. intros x _ Hx. by apply elem_of_nil in Hx. }
    rewrite app_nil_r. split; [|done].
    intros x Hx (l & -> & Hin)%list_elem_of_fmap.
    rewrite Forall_forall in Hfol. by destruct (Hfol l Hin) as (_ & _ & _ & ?).
  - intros q [Hin|Hin]%elem_of_app.
    + intros [Heq%elem_of_singleton|Hin']%elem_of_union.
      * apply Hu. rewrite <- Heq. apply list_elem_of_fmap. eauto.
      * apply (Hqf q); [by right|done].
    + destruct Hnew as [[-> _]|(r & -> & Hr & Hfol & Hlnd)]; simpl in Hin;
        [by apply elem_of_nil in Hin|].
      rewrite app_nil_r in Hin. rewrite Forall_forall in Hfol.
      by destruct (Hfol q Hin) as (_ & _ & ? & _).
  - intros q Hin. rewrite !elem_of_app in Hin.
    destruct Hin as [[Hin|Hin]|[Hin|Hin]].
    + apply Hsc. apply elem_of_app; left. by right.
    + destruct Hnew as [[-> _]|(r & -> & Hr & Hfol & Hlnd)]; simpl in Hin;
        [by apply elem_of_nil in Hin|].
      rewrite app_nil_r in Hin. rewrite Forall_forall in Hfol.
      destruct (Hfol q Hin) as (? & ? & _). auto.
    + apply Hsc. apply elem_of_app; by right.
    + apply list_elem_of_singleton in Hin. subst q.
      apply Hsc. apply elem_of_app; left. by left.
  - intros r l [Hr|Hr]%elem_of_app Hin.
    + apply list_elem_of_fmap in Hr as (r' & -> & Hr').
      rewrite (st_links _ _ (Hf r')) in Hin. eauto.
    + destruct Hnew as [[-> _]|(r0 & -> & Hr0 & Hfol & Hlnd)];
        [by apply elem_of_nil in Hr|].
      apply list_elem_of_singleton in Hr. subst r0.
      rewrite Forall_forall in Hfol. destruct (Hfol l Hin) as (? & ? & _). auto.
  - rewrite !fmap_app, fmap_stable_urls, fmap_stable_links, concat_app by done.
    destruct Hnew as [[-> Hab]|(r & -> & Hr & _)]; simpl.
    + exists (u :: rest). split; [rewrite Hab; intros H; by destruct H|].
      by rewrite !app_nil_r.
    + exists (rest ++ (links r ++ [])). split; [done|].
      rewrite Hr, !app_nil_r.
      transitivity (((url <$> results s) ++ u :: rest) ++ links r);
        [by rewrite <- !app_assoc | by rewrite Hh].
  - rewrite !fmap_app, fmap_stable_urls by done.
    destruct Hnew as [[-> Hab]|(r & -> & Hr & _)]; simpl.
    + exists [u]. split; [by rewrite app_nil_r, <- Hn|].
      rewrite Hab; intros H; by destruct H.
    + exists []. split; [by rewrite app_nil_r, Hr, <- Hn | done].
  - rewrite fmap_app. apply NoDup_app. split; [done|]. split.
    + intros x Hx Hx'%list_elem_of_singleton. subst x. apply Hv.
      apply list_elem_of_fmap in Hx as (y & -> & Hy).
      apply Hseen, elem_of_app. by right.
    + apply NoDup_singleton.
  - rewrite fmap_app, fmap_stable_links, concat_app by done.
    destruct Hnew as [[-> Hab]|(r & -> & Hr & Hfol & Hlnd)];
      cbn [fmap list_fmap concat]; [by rewrite app_nil_r|].
    rewrite app_nil_r.
    change (NoDup (normalizeUrl <$>
                     (ROOT :: concat (links <$> results s)) ++ links r)).
    rewrite fmap_app.
    apply NoDup_app. split; [done|]. split; [|done].
    intros x Hx (l & -> & Hl')%list_elem_of_fmap.
    rewrite Forall_forall in Hfol.
    destruct (Hfol l Hl') as (_ & _ & Hl1 & Hl2).
    rewrite <- Hh in Hx. rewrite fmap_app in Hx.
    apply elem_of_app in Hx as [Hx|Hx].
    * apply Hl1, elem_of_union. right.
      apply list_elem_of_fmap in Hx as (y & -> & Hy).
      apply Hseen, elem_of_app. by left.
    * rewrite fmap_cons in Hx. apply elem_of_cons in Hx as [Hx|Hx].
      -- apply Hl1, elem_of_union. left. by apply elem_of_singleton.
      -- done.
Qed.

Lemma Inv_run n : Inv ROOT (run ROOT browser n).
Proof.
  induction n as [|n IH]; [apply Inv_start|].
  rewrite run_succ. by apply Inv_step.
Qed.

End Turn.
(** ** The image cache *)

Section Cache.

Context (browser : Browser).

Lemma extends_refl c : extends c c.
Proof. split; [auto | done]. Qed.

Lemma extends_trans a b c : extends a b → extends b c → extends a c.
Proof. intros [? ?] [? ?]. split; [auto | by etrans]. Qed.

(** A hit answers from the cache and changes nothing. *)
Lemma checkImageExists_hit imageUrl c e :
  entries c !! normalizeImageUrl imageUrl = Some e →
  checkImageExists browser imageUrl c = (exists_ e, c).
Proof. intros H. unfold checkImageExists. by rewrite H. Qed.

(** A miss sends one request and writes the entry, whatever the
    outcome. *)
Lemma checkImageExists_miss imageUrl c :
  entries c !! normalizeImageUrl imageUrl = None →
  ∃ e,
    checkImageExists browser imageUrl c
    = (exists_ e,
       mkCache (<[normalizeImageUrl imageUrl := e]> (entries c))
         (requests c ++ [imageUrl]))
    ∧ verified e = true ∧ originalUrl e = imageUrl
    ∧ exists_ e
      = match head browser (length (requests c)) imageUrl with
        | Fetched st ok => ok && (st =? 200)
        | _ => false
        end.
Proof.
  intros H. unfold checkImageExists. rewrite H.
  destruct (head browser _ _) as [st ok| |];
    [exists (mkImageCheck (ok && (st =? 200)) true imageUrl st)
    |exists (mkImageCheck false true imageUrl 0)
    |exists (mkImageCheck false true imageUrl 0)]; done.
Qed.

Lemma checkImageExists_ok imageUrl c :
  CacheOk c →
  CacheOk (checkImageExists browser imageUrl c).2
  ∧ extends c (checkImageExists browser imageUrl c).2
  ∧ ∃ e, entries (checkImageExists browser imageUrl c).2
           !! normalizeImageUrl imageUrl = Some e
         ∧ exists_ e = (checkImageExists browser imageUrl c).1.
Proof.
  intros [Hn Hk Hv].
  destruct (entries c !! normalizeImageUrl imageUrl) as [e|] eqn:He.
  { rewrite (checkImageExists_hit _ _ _ He). simpl.
    split; [by split|]. split; [apply extends_refl|]. eauto. }
  destruct (checkImageExists_miss _ _ He) as (e & -> & Hver & _ & _). simpl.
  assert (Hfresh : normalizeImageUrl imageUrl
                   ∉ normalizeImageUrl <$> requests c).
  { intros Hin%Hk. rewrite He in Hin. by destruct Hin. }
  split; [split; simpl|split; [split; simpl|]].
  - rewrite fmap_app. apply NoDup_app. split; [done|]. split.
    + intros x Hx Hx'%list_elem_of_singleton. by subst.
    + apply NoDup_singleton.
  - intros k. rewrite fmap_app, elem_of_app. simpl.
    rewrite list_elem_of_singleton, lookup_insert_is_Some, Hk.
    split.
    + intros [<- | [_ ?]]; auto.
    + intros [? | ->]; [|by left].
      destruct (decide (normalizeImageUrl imageUrl = k)); auto.
  - intros k e'. rewrite lookup_insert. case_decide; [by intros [= <-]|].
    apply Hv.
  - intros k e' Hke. rewrite lookup_insert_ne; [done|].
    intros <-. congruence.
  - by apply prefix_app_r.
  - exists e. by rewrite lookup_insert_eq.
Qed.

Lemma verifiedFrom_extends c c' a b :
  extends c c' → verifiedFrom c a b → verifiedFrom c' a b.
Proof.
  intros [He _] (? & ? & [?|(e & ? & ?)]); repeat split; eauto 6.
Qed.

Lemma reconcile_spec found cached i v c :
  let '(i', v') := reconcile found cached i v c in
  cache v' = c
  ∧ src i' = src i ∧ reported i' = reported i
  ∧ verifiedExists i' = Some found
  ∧ isWorking i' = isWorking i && found
  ∧ (workingCount v' - tally i' = workingCount v - tally i)%Z
  ∧ (brokenCount v' + tally i' = brokenCount v + tally i)%Z.
Proof.
  unfold reconcile, tally.
  destruct found, (isWorking i) eqn:Hw; simpl; rewrite ?Hw;
    repeat split; lia.
Qed.

Lemma verifyImage_spec i v :
  CacheOk (cache v) →
  let '(i', v') := verifyImage browser i v in
  CacheOk (cache v') ∧ extends (cache v) (cache v')
  ∧ verifiedFrom (cache v') i i'
  ∧ (workingCount v' - tally i' = workingCount v - tally i)%Z
  ∧ (brokenCount v' + tally i' = brokenCount v + tally i)%Z.
Proof.
  intros Hok. unfold verifyImage.
  destruct (negb (bool_decide (src i = ""))
            && negb (startsWith (src i) "data:")).
  2:{ repeat split; try apply Hok; auto. }
  destruct (entries (cache v) !! normalizeImageUrl (src i)) as [e|] eqn:He.
  { pose proof (reconcile_spec (exists_ e) true i v (cache v)) as Hr.
    destruct (reconcile _ _ _ _ _) as [i' v'].
    destruct Hr as (-> & ? & ? & ? & ? & ? & ?).
    repeat split; try apply Hok; auto. right. eauto. }
  destruct (checkImageExists_ok (src i) (cache v) Hok)
    as (Hok' & Hext & e & He' & Hfound).
  destruct (checkImageExists browser (src i) (cache v)) as [found c].
  simpl in *.
  pose proof (reconcile_spec found false i v c) as Hr.
  destruct (reconcile _ _ _ _ _) as [i' v'].
  destruct Hr as (-> & ? & ? & ? & ? & ? & ?).
  repeat split; try apply Hok'; try apply Hext; auto.
  right. exists e. subst found. auto.
Qed.

Lemma verifyImages_spec infos v :
  CacheOk (cache v) →
  let '(out, v') := verifyImages browser infos v in
  CacheOk (cache v') ∧ extends (cache v) (cache v')
  ∧ Forall2 (verifiedFrom (cache v')) infos out
  ∧ (workingCount v' - countZ isWorking out
     = workingCount v - countZ isWorking infos)%Z
  ∧ (brokenCount v' + countZ isWorking out
     = brokenCount v + countZ isWorking infos)%Z.
Proof.
  revert v. induction infos as [|i infos IH]; intros v Hok; simpl.
  { repeat split; try apply Hok; auto. }
  pose proof (verifyImage_spec i v Hok) as H1.
  destruct (verifyImage browser i v) as [i' v1].
  destruct H1 as (Hok1 & Hext1 & Hi & Hw1 & Hb1).
  pose proof (IH v1 Hok1) as H2.
  destruct (verifyImages browser infos v1) as [out v2].
  destruct H2 as (Hok2 & Hext2 & Hall & Hw2 & Hb2).
  split; [done|]. split; [by eapply extends_trans|].
  split; [constructor; [by eapply verifiedFrom_extends|done]|].
  unfold countZ, tally in *. simpl.
  destruct (isWorking i), (isWorking i'); simpl; lia.
Qed.

End Cache.
Section Images.

Context (browser : Browser).

Lemma countZ_cons {A} (f : A → bool) x l :
  countZ f (x :: l) = ((if f x then 1 else 0) + countZ f l)%Z.
Proof. unfold countZ. simpl. destruct (f x); simpl; lia. Qed.

Lemma analyzeImages_fold imgs a :
  let r := fold_left analyzeImage imgs a in
  details r = details a ++ (inspectImage <$> imgs)
  ∧ working r = (working a + countZ isWorking (inspectImage <$> imgs))%Z
  ∧ broken r
    = (broken a + countZ (λ i, negb (isWorking i)) (inspectImage <$> imgs))%Z
  ∧ total r = total a ∧ withAlt r = (withAlt a + countZ (λ i, hasAltText (img_alt i)) imgs)%Z.
Proof.
  revert a. induction imgs as [|i imgs IH]; intros a; cbn [fold_left].
  { rewrite app_nil_r. unfold countZ. simpl. repeat split; lia. }
  destruct (IH (analyzeImage a i)) as (Hd & Hw & Hb & Ht & Ha).
  rewrite Hd, Hw, Hb, Ht, Ha, fmap_cons, !countZ_cons. unfold analyzeImage.
  cbn [details working broken total withAlt].
  rewrite <- app_assoc.
  destruct (isWorking (inspectImage i)), (hasAltText (img_alt i));
    cbn [negb]; repeat split; lia.
Qed.

Lemma analyzeImages_spec imgs :
  let a := analyzeImages imgs in
  details a = inspectImage <$> imgs
  ∧ working a = countZ isWorking (details a)
  ∧ broken a = countZ (λ i, negb (isWorking i)) (details a)
  ∧ total a = Z.of_nat (length imgs).
Proof.
  destruct (analyzeImages_fold imgs
              (mkImagesAnalysis (Z.of_nat (length imgs)) 0 0 0 0 []))
    as (Hd & Hw & Hb & Ht & _).
  unfold analyzeImages. simpl in *. rewrite Hd, Hw, Hb, Ht.
  repeat split; lia.
Qed.

(** An untouched or reconciled entry is working exactly when the
    browser reported it and the check did not refute it. *)
Lemma verifiedFrom_working c a b :
  isWorking a = reported a → verifiedExists a = None →
  verifiedFrom c a b →
  isWorking b = reported b && negb (refuted b).
Proof.
  intros Hw Hn (_ & Hr & [->|(e & _ & Hv & Hw')]).
  - unfold refuted. rewrite Hn. simpl. by rewrite andb_true_r.
  - unfold refuted. rewrite Hv, Hw', Hr, Hw.
    destruct (exists_ e); simpl; [by rewrite andb_true_r|].
    by rewrite andb_false_r.
Qed.

Lemma verifiedFrom_backed c a b :
  verifiedExists a = None → verifiedFrom c a b → Backed (entries c) b.
Proof.
  intros Hn (Hs & _ & [->|(e & He & Hv & _)]) x Hx; [congruence|].
  exists e. rewrite Hs. split; congruence.
Qed.

Lemma Backed_extends c c' i :
  extends c c' → Backed (entries c) i → Backed (entries c') i.
Proof.
  intros [He _] Hb x Hx. destruct (Hb x Hx) as (e & ? & ?). eauto.
Qed.

Lemma AnalysisOk_empty : AnalysisOk emptyAnalysis.
Proof. repeat split. constructor. Qed.

Lemma verifiedFrom_all c la lb :
  Forall (λ a, isWorking a = reported a ∧ verifiedExists a = None) la →
  Forall2 (verifiedFrom c) la lb →
  Forall (λ b, isWorking b = reported b && negb (refuted b)) lb
  ∧ Forall (Backed (entries c)) lb.
Proof.
  intros Hinit Hall. revert Hinit.
  induction Hall as [|a b la lb Hab Hall IH]; intros Hinit;
    [split; constructor|].
  apply Forall_cons in Hinit as [[? ?] Hinit].
  destruct (IH Hinit). split; constructor; auto.
  - by eapply verifiedFrom_working.
  - by eapply verifiedFrom_backed.
Qed.

(** The image analysis of a page, with its verification. *)
Lemma inspectImages_spec v r c :
  CacheOk c → imagesAnalysis r = emptyAnalysis → brokenImages r = [] →
  let '(a, brokenList, c') := inspectImages browser v r c in
  CacheOk c' ∧ extends c c'
  ∧ AnalysisOk a ∧ Forall (Backed (entries c')) (details a)
  ∧ brokenList
    = src <$> List.filter (λ i, negb (isWorking i)) (details a).
Proof.
  intros Hok Hr Hb. unfold inspectImages.
  destruct (images v) as [imgs|].
  2:{ rewrite Hr, Hb. repeat split; try apply Hok; auto; constructor. }
  destruct (analyzeImages_spec imgs) as (Hd & Hw & Hbr & _).
  pose proof (verifyImages_spec browser (details (analyzeImages imgs))
    (mkVerification c (working (analyzeImages imgs))
       (broken (analyzeImages imgs))) Hok) as Hv.
  destruct (verifyImages _ _ _) as [out ver].
  destruct Hv as (Hok' & Hext & Hall & Hwc & Hbc). simpl in *.
  split; [done|]. split; [done|].
  assert (Hinit : Forall (λ a, isWorking a = reported a
                             ∧ verifiedExists a = None)
                    (details (analyzeImages imgs))).
  { rewrite Hd. apply Forall_fmap, Forall_forall. by intros i _. }
  destruct (verifiedFrom_all _ _ _ Hinit Hall) as [Hworking Hbacked].
  split; [|split; [|done]].
  - split; [|split]; simpl.
    + done.
    + lia.
    + assert (Hlen : ∀ l : list ImageInfo,
                (countZ isWorking l
                 + countZ (λ i, negb (isWorking i)) l
                 = Z.of_nat (length l))%Z).
      { induction l as [|x l IH]; [done|]. rewrite !countZ_cons. simpl.
        destruct (isWorking x); simpl; lia. }
      pose proof (Hlen out). pose proof (Hlen (details (analyzeImages imgs))).
      apply Forall2_length in Hall. lia.
  - done.
Qed.

End Images.
Section Provenance.

Context (ROOT : string) (browser : Browser).

Abbreviation step := (step ROOT browser).

Lemma inspectImages_cache v r c :
  CacheOk c →
  CacheOk (inspectImages browser v r c).2
  ∧ extends c (inspectImages browser v r c).2.
Proof.
  intros Hok. unfold inspectImages. destruct (images v) as [imgs|].
  2:{ split; [done | apply extends_refl]. }
  pose proof (verifyImages_spec browser (details (analyzeImages imgs))
    (mkVerification c (working (analyzeImages imgs))
       (broken (analyzeImages imgs))) Hok) as Hv.
  destruct (verifyImages _ _ _) as [out ver]. simpl. tauto.
Qed.

Lemma Inv2_start : Inv2 ROOT browser (start ROOT).
Proof.
  split; simpl.
  - split; simpl.
    + constructor.
    + intros k. rewrite lookup_empty. split; [by intros [? ?]|].
      intros H. by apply elem_of_nil in H.
    + intros k e. by rewrite lookup_empty.
  - intros r Hr. by apply elem_of_nil in Hr.
  - intros i r. by rewrite lookup_nil.
Qed.

(** The result a turn adds has a sound image analysis. *)
Lemma Emitted_images v seen rest c c' u r :
  CacheOk c → Emitted ROOT browser v seen rest c c' u r →
  AnalysisOk (imagesAnalysis r)
  ∧ Forall (Backed (entries c')) (details (imagesAnalysis r))
  ∧ brokenImages r
    = src <$> List.filter (λ i, negb (isWorking i))
                (details (imagesAnalysis r)).
Proof.
  intros Hok. unfold Emitted.
  pose proof (deliver_stable (navEvents v)
                (setupErrorHandling (newPageResult u))) as H0.
  destruct (isDocumentUrl u).
  { intros [-> ->]. unfold checkDocumentUrl.
    destruct (navigation v); simpl;
      (split; [apply AnalysisOk_empty|split; [constructor|done]]). }
  destruct (navigation v) as [st|message].
  2:{ intros [-> ->]. simpl.
      rewrite (st_imagesAnalysis _ _ H0), (st_brokenImages _ _ H0). simpl.
      split; [apply AnalysisOk_empty|split; [constructor|done]]. }
  intros (t & allLinks & analysis & brokenList & _ & _ & Himg & ->).
  match goal with |- context [deliver (laterEvents v) ?x] =>
    pose proof (deliver_stable (laterEvents v) x) as H1 end.
  rewrite (st_imagesAnalysis _ _ H1), (st_brokenImages _ _ H1). simpl.
  pose proof (inspectImages_spec browser v _ c Hok
                (st_imagesAnalysis _ _ H0) (st_brokenImages _ _ H0)) as Hs.
  rewrite Himg in Hs. tauto.
Qed.

Lemma Inv2_step s :
  Inv ROOT s → Inv2 ROOT browser s → Inv2 ROOT browser (step s).
Proof.
  intros HI HI2.
  destruct (decide (phase s = Running)) as [Hp|Hp];
    [|by rewrite step_idle].
  destruct (queue s) as [|u rest] eqn:Hq.
  { rewrite step_finish by done. by destruct HI2. }
  destruct (decide (normalizeUrl u ∈ visited s)) as [Hv|Hv].
  { destruct (inv_queue_fresh ROOT s HI u); [rewrite Hq; by left|done]. }
  destruct (step_turn ROOT browser s u rest Hp Hq Hv)
    as (f & new & Hf & Hres & Hvis & Hnav & Hque & Hc & Hnew).
  destruct HI2 as [Hok Himg Hprov].
  set (c := mkCache (checkedImages s) (probed s)) in *.
  set (c' := mkCache (checkedImages (step s)) (probed (step s))) in *.
  assert (Hc' : CacheOk c' ∧ extends c c').
  { destruct Hc as [->|[r0 ->]];
      [split; [done|apply extends_refl] | by apply inspectImages_cache]. }
  destruct Hc' as [Hok' Hext].
  destruct (inv_navigated ROOT s HI) as (extra & Hn & He).
  rewrite (He ltac:(by rewrite Hp)), app_nil_r in Hn. clear He extra.
  split; [done| |]; rewrite Hres.
  - intros r [Hr|Hr]%elem_of_app.
    + apply list_elem_of_fmap in Hr as (r' & -> & Hr').
      destruct (Himg r' Hr') as (Ha & Hb & Hbr).
      rewrite (st_imagesAnalysis _ _ (Hf r')), (st_brokenImages _ _ (Hf r')).
      split; [done|]. split; [|done].
      eapply Forall_impl; [exact Hb|]. intros i. by apply (Backed_extends c c').
    + destruct Hnew as [[-> _]|(r0 & -> & _ & _ & _ & Hem)];
        [by apply elem_of_nil in Hr|].
      apply list_elem_of_singleton in Hr. subst r0.
      by eapply (Emitted_images _ _ _ c c' u).
  - intros i r Hir. apply lookup_app_Some in Hir as [Hir|[Hlen Hir]].
    + apply list_lookup_fmap_Some in Hir as (r' & -> & Hir').
      destruct (Hprov i r' Hir') as (seen & q & c1 & c2 & x & Hem & Hst).
      exists seen, q, c1, c2, x. rewrite (st_url _ _ (Hf r')).
      split; [done|]. eapply stable_trans; [exact Hst | apply Hf].
    + destruct Hnew as [[-> _]|(r0 & -> & Hu & _ & _ & Hem)];
        [by rewrite lookup_nil in Hir|].
      apply list_lookup_singleton_Some in Hir as [Hi <-].
      rewrite length_fmap in Hlen, Hi.
      assert (i = length (navigated s)) as ->.
      { rewrite Hn, length_fmap. lia. }
      eexists _, _, _, _, r0. rewrite Hu. split; [exact Hem|apply stable_refl].
Qed.

Lemma Inv2_run n : Inv2 ROOT browser (run ROOT browser n).
Proof.
  induction n as [|n IH]; [apply Inv2_start|].
  rewrite run_succ. apply Inv2_step; [apply Inv_run | done].
Qed.

End Provenance.
(** * The claims about the crawl loop *)

(** C1. At-most-once processing.  In every run, over any site, the
    results carry pairwise different page identities.  A dequeued target
    whose identity is already visited is dropped: the turn only shortens
    the queue.  Otherwise the identity is in [visited] as soon as the page
    is opened, whatever the inspection does afterwards, so every target
    ever opened is marked. *)
Theorem visit_once (ROOT : string) (browser : Browser) :
  (∀ n, NoDup ((λ r, normalizeUrl (url r)) <$> results (run ROOT browser n)))
  ∧ (∀ s u rest,
       phase s = Running → queue s = u :: rest → normalizeUrl u ∈ visited s →
       step ROOT browser s
       = mkState (visited s) rest (results s) (checkedImages s)
           (navigated s) (probed s) Running)
  ∧ (∀ s u rest,
       phase s = Running → queue s = u :: rest → normalizeUrl u ∉ visited s →
       visited (step ROOT browser s) = {[normalizeUrl u]} ∪ visited s
       ∧ navigated (step ROOT browser s) = navigated s ++ [u])
  ∧ (∀ n u, u ∈ navigated (run ROOT browser n) →
            normalizeUrl u ∈ visited (run ROOT browser n)).
Proof.
  split; [|split; [|split]].
  - intros n. apply (inv_nodup ROOT), Inv_run.
  - apply step_skip.
  - intros s u rest Hp Hq Hv.
    destruct (step_shape ROOT browser s u rest Hp Hq Hv)
      as (f & new & _ & _ & ? & ? & _). done.
  - intros n u Hu. apply (inv_seen ROOT _ (Inv_run ROOT browser n)).
    apply elem_of_app. by right.
Qed.

Lemma visit_once_witness :
  let s := mkState {["https://x.com"]} ["https://x.com/"; "https://x.com/a"]
             [] ∅ [] [] Running in
  NoDup ((λ r, normalizeUrl (url r))
           <$> results (run "https://x.com" exampleSite 6))
  ∧ step "https://x.com" exampleSite s
    = mkState (visited s) ["https://x.com/a"] [] ∅ [] [] Running.
Proof.
  intros s.
  destruct (visit_once "https://x.com" exampleSite) as (H1 & H2 & _).
  split; [apply H1|].
  apply (H2 s "https://x.com/" ["https://x.com/a"]); [reflexivity..|].
  vm_compute. reflexivity.
Defined.
(** C2. Cache write-once.  Across a run no asset identity is requested
    twice, and every entry of the cache is marked verified.  A first check
    of an identity sends one request and writes the entry whatever the
    outcome: [exists] is [ok && status = 200] when the request was
    answered and [false] when it failed.  A later check of any URL with
    the same asset identity, whatever else was checked in between and
    whatever the browser would answer now, returns the value of the first
    check and leaves the cache and the request log as they are. *)
Theorem probe_once (ROOT : string) (browser : Browser) :
  (∀ n, let s := run ROOT browser n in
        NoDup (normalizeImageUrl <$> probed s)
        ∧ (∀ k, is_Some (checkedImages s !! k)
                ↔ k ∈ normalizeImageUrl <$> probed s)
        ∧ (∀ k e, checkedImages s !! k = Some e → verified e = true))
  ∧ (∀ imageUrl c,
       entries c !! normalizeImageUrl imageUrl = None →
       ∃ e, checkImageExists browser imageUrl c
            = (exists_ e,
               mkCache (<[normalizeImageUrl imageUrl := e]> (entries c))
                 (requests c ++ [imageUrl]))
            ∧ verified e = true
            ∧ exists_ e
              = match head browser (length (requests c)) imageUrl with
                | Fetched st ok => ok && (st =? 200)
                | _ => false
                end)
  ∧ (∀ browser' first later c c2,
       normalizeImageUrl first = normalizeImageUrl later →
       extends (checkImageExists browser first c).2 c2 →
       checkImageExists browser' later c2
       = ((checkImageExists browser first c).1, c2)).
Proof.
  split; [|split].
  - intros n. destruct (inv_cache _ _ _ (Inv2_run ROOT browser n)) as [? ? ?].
    simpl in *. auto.
  - intros imageUrl c Hmiss.
    destruct (checkImageExists_miss browser imageUrl c Hmiss)
      as (e & ? & ? & _ & ?). eauto.
  - intros browser' first later c c2 Hid [Hext _].
    assert (∃ e, entries (checkImageExists browser first c).2
                   !! normalizeImageUrl first = Some e
                 ∧ exists_ e = (checkImageExists browser first c).1)
      as (e & He & <-).
    { destruct (entries c !! normalizeImageUrl first) as [e|] eqn:Hc.
      - rewrite (checkImageExists_hit browser _ _ _ Hc). eauto.
      - destruct (checkImageExists_miss browser _ _ Hc) as (e & -> & _).
        exists e. simpl. by rewrite lookup_insert_eq. }
    apply checkImageExists_hit. rewrite <- Hid. by apply Hext.
Qed.

Lemma probe_once_witness :
  let c := mkCache ∅ [] in
  let first := "https://x.com/logo.png?v=1" in
  let later := "https://x.com/logo.png?v=2" in
  checkImageExists exampleSite first c
  = (false,
     mkCache {[ "https://x.com/logo.png"
                := mkImageCheck false true first 404 ]} [first])
  ∧ checkImageExists (mkBrowser (visit exampleSite) (λ _ _, Fetched 200 true))
      later (checkImageExists exampleSite first c).2
    = (false, (checkImageExists exampleSite first c).2).
Proof.
  intros c first later.
  destruct (probe_once "https://x.com" exampleSite) as (_ & H2 & H3).
  split.
  - destruct (H2 first c) as (e & He & _); [reflexivity|].
    vm_compute. reflexivity.
  - apply (H3 _ first later c); [vm_compute; reflexivity | apply extends_refl].
Defined.
Lemma countZ_split {A} (f g : A → bool) l :
  countZ f l
  = (countZ (λ x, f x && g x) l + countZ (λ x, f x && negb (g x)) l)%Z.
Proof.
  induction l as [|x l IH]; [done|]. rewrite !countZ_cons, IH.
  destruct (f x), (g x); simpl; lia.
Qed.

Lemma countZ_ext {A} (f g : A → bool) l :
  Forall (λ x, f x = g x) l → countZ f l = countZ g l.
Proof.
  induction 1 as [|x l Hx _ IH]; [done|]. by rewrite !countZ_cons, IH, Hx.
Qed.

Section Verified.

Context (ROOT : string) (browser : Browser).

Abbreviation step := (step ROOT browser).

Lemma Checked_extends c c' i :
  extends c c' → Checked (entries c) i → Checked (entries c') i.
Proof.
  intros [He _]. unfold Checked. destruct (eligible i); [|done].
  intros (e & ? & ?). exists e. auto.
Qed.

Lemma verifyImage_checked i v :
  CacheOk (cache v) → verifiedExists i = None →
  Checked (entries (cache (verifyImage browser i v).2))
    (verifyImage browser i v).1.
Proof.
  intros Hok Hn. unfold verifyImage, Checked.
  destruct (negb (bool_decide (src i = ""))
            && negb (startsWith (src i) "data:")) eqn:Hel.
  2:{ cbn [fst snd]. unfold eligible. by rewrite Hel. }
  destruct (entries (cache v) !! normalizeImageUrl (src i)) as [e|] eqn:He.
  { pose proof (reconcile_spec (exists_ e) true i v (cache v)) as Hr.
    destruct (reconcile _ _ _ _ _) as [i' v']. cbn [fst snd].
    destruct Hr as (-> & Hs & _ & Hv & _).
    unfold eligible. rewrite Hs, Hel. exists e. by rewrite He. }
  destruct (checkImageExists_ok browser (src i) (cache v) Hok)
    as (_ & _ & e & He' & Hfound).
  destruct (checkImageExists browser (src i) (cache v)) as [found c].
  cbn [fst snd] in He', Hfound.
  pose proof (reconcile_spec found false i v c) as Hr.
  destruct (reconcile _ _ _ _ _) as [i' v']. cbn [fst snd].
  destruct Hr as (-> & Hs & _ & Hv & _).
  unfold eligible. rewrite Hs, Hel. exists e. by rewrite He', Hv, Hfound.
Qed.

Lemma verifyImages_checked infos v :
  CacheOk (cache v) → Forall (λ a, verifiedExists a = None) infos →
  Forall (Checked (entries (cache (verifyImages browser infos v).2)))
    (verifyImages browser infos v).1.
Proof.
  revert v. induction infos as [|i infos IH]; intros v Hok Hnone;
    [constructor|].
  apply Forall_cons in Hnone as [Hi Hnone]. cbn [verifyImages].
  pose proof (verifyImage_checked i v Hok Hi) as H1.
  pose proof (verifyImage_spec browser i v Hok) as H2.
  destruct (verifyImage browser i v) as [i' v1]. cbn [fst snd] in H1.
  destruct H2 as (Hok1 & _).
  pose proof (IH v1 Hok1 Hnone) as H3.
  pose proof (verifyImages_spec browser infos v1 Hok1) as H4.
  destruct (verifyImages browser infos v1) as [out v2].
  cbn [fst snd] in H3 |- *. destruct H4 as (_ & Hext & _).
  constructor; [|done]. by apply (Checked_extends (cache v1)).
Qed.

Lemma inspectImages_checked v r c :
  CacheOk c → imagesAnalysis r = emptyAnalysis →
  Forall (Checked (entries (inspectImages browser v r c).2))
    (details (inspectImages browser v r c).1.1).
Proof.
  intros Hok Hr. unfold inspectImages.
  destruct (images v) as [imgs|]; [|rewrite Hr; constructor].
  destruct (analyzeImages_spec imgs) as (Hd & _).
  pose proof (verifyImages_checked (details (analyzeImages imgs))
    (mkVerification c (working (analyzeImages imgs))
       (broken (analyzeImages imgs))) Hok) as Hv.
  destruct (verifyImages _ _ _) as [out ver]. cbn [fst snd details] in Hv |- *.
  apply Hv. rewrite Hd. apply Forall_fmap, Forall_forall. by intros i _.
Qed.

(** The result a turn adds went through the verification loop. *)
Lemma Emitted_checked v seen rest c c' u r :
  CacheOk c → Emitted ROOT browser v seen rest c c' u r →
  Forall (Checked (entries c')) (details (imagesAnalysis r)).
Proof.
  intros Hok. unfold Emitted.
  pose proof (deliver_stable (navEvents v)
                (setupErrorHandling (newPageResult u))) as H0.
  destruct (isDocumentUrl u).
  { intros [-> ->]. unfold checkDocumentUrl.
    destruct (navigation v); simpl; constructor. }
  destruct (navigation v) as [st|message].
  2:{ intros [-> ->]. simpl.
      rewrite (st_imagesAnalysis _ _ H0). simpl. constructor. }
  intros (t & allLinks & analysis & brokenList & _ & _ & Himg & ->).
  match goal with |- context [deliver (laterEvents v) ?x] =>
    pose proof (deliver_stable (laterEvents v) x) as H1 end.
  rewrite (st_imagesAnalysis _ _ H1). simpl.
  pose proof (inspectImages_checked v _ c Hok
                (st_imagesAnalysis _ _ H0)) as Hs.
  by rewrite Himg in Hs.
Qed.

Lemma step_checked s :
  Inv ROOT s → Inv2 ROOT browser s →
  (∀ r, r ∈ results s →
        Forall (Checked (checkedImages s)) (details (imagesAnalysis r))) →
  ∀ r, r ∈ results (step s) →
       Forall (Checked (checkedImages (step s))) (details (imagesAnalysis r)).
Proof.
  intros HI HI2 Hall.
  destruct (decide (phase s = Running)) as [Hp|Hp];
    [|by rewrite step_idle].
  destruct (queue s) as [|u rest] eqn:Hq.
  { by rewrite step_finish by done. }
  destruct (decide (normalizeUrl u ∈ visited s)) as [Hv|Hv].
  { destruct (inv_queue_fresh ROOT s HI u); [rewrite Hq; by left|done]. }
  destruct (step_turn ROOT browser s u rest Hp Hq Hv)
    as (f & new & Hf & Hres & Hvis & Hnav & Hque & Hc & Hnew).
  destruct HI2 as [Hok Himg Hprov].
  set (c := mkCache (checkedImages s) (probed s)) in *.
  set (c' := mkCache (checkedImages (step s)) (probed (step s))) in *.
  assert (Hc' : extends c c').
  { destruct Hc as [->|[r0 ->]];
      [apply extends_refl | by apply inspectImages_cache]. }
  rewrite Hres. intros r [Hr|Hr]%elem_of_app.
  - apply list_elem_of_fmap in Hr as (r' & -> & Hr').
    rewrite (st_imagesAnalysis _ _ (Hf r')).
    eapply Forall_impl; [exact (Hall r' Hr')|].
    intros i. apply (Checked_extends c c' i Hc').
  - destruct Hnew as [[-> _]|(r0 & -> & _ & _ & _ & Hem)];
      [by apply elem_of_nil in Hr|].
    apply list_elem_of_singleton in Hr. subst r0.
    by eapply (Emitted_checked _ _ _ c c' u).
Qed.

Lemma results_checked n r :
  r ∈ results (run ROOT browser n) →
  Forall (Checked (checkedImages (run ROOT browser n)))
    (details (imagesAnalysis r)).
Proof.
  revert r. induction n as [|n IH]; intros r.
  { intros Hr. by apply elem_of_nil in Hr. }
  rewrite run_succ. apply step_checked; [apply Inv_run|apply Inv2_run|done].
Qed.

End Verified.

(** C3. Reconciliation.  In the results of every run, every entry that
    the verification loop checks (its source is not empty and no data
    URL) carries the existence that the cache holds for its identity,
    and is working exactly when the browser reported it as working and
    the cache says it exists; an entry that the loop skips keeps what
    the browser reported.  So an entry reported as working whose
    identity the cache holds with [exists = false] is recorded as not
    working, whether the request was sent for it or for an earlier image
    of the same identity, and an entry the browser reported as broken is
    never recorded as working.  The counters follow: [working] is the
    number of entries reported as working less the downgraded ones,
    [broken] the number reported as broken plus the downgraded ones. *)
Theorem reconciliation (ROOT : string) (browser : Browser) (n : nat)
    (r : PageResult) :
  r ∈ results (run ROOT browser n) →
  let entries := details (imagesAnalysis r) in
  let downgraded := countZ (λ i, reported i && refuted i) entries in
  (∀ i, i ∈ entries →
        (eligible i = true →
         ∃ e, checkedImages (run ROOT browser n)
                !! normalizeImageUrl (src i) = Some e
              ∧ verifiedExists i = Some (exists_ e)
              ∧ isWorking i = reported i && exists_ e)
        ∧ (eligible i = false →
           verifiedExists i = None ∧ isWorking i = reported i)
        ∧ (∀ e, eligible i = true →
                checkedImages (run ROOT browser n)
                  !! normalizeImageUrl (src i) = Some e →
                exists_ e = false →
                verifiedExists i = Some false ∧ isWorking i = false)
        ∧ (reported i = true → verifiedExists i = Some false →
           isWorking i = false)
        ∧ (reported i = false → isWorking i = false)
        ∧ (verifiedExists i = Some false →
           ∃ e, checkedImages (run ROOT browser n)
                  !! normalizeImageUrl (src i) = Some e
                ∧ exists_ e = false))
  ∧ working (imagesAnalysis r) = (countZ reported entries - downgraded)%Z
  ∧ broken (imagesAnalysis r)
    = (countZ (λ i, negb (reported i)) entries + downgraded)%Z.
Proof.
  intros Hr entries downgraded.
  destruct (inv_images _ _ _ (Inv2_run ROOT browser n) r Hr)
    as ((Hall & Hw & Hb) & Hbacked & _).
  pose proof (results_checked ROOT browser n r Hr) as Hchecked.
  fold entries in Hall, Hw, Hb, Hbacked, Hchecked.
  split; [|split].
  - intros i Hi. rewrite Forall_forall in Hall, Hbacked, Hchecked.
    specialize (Hall i Hi). specialize (Hbacked i Hi).
    specialize (Hchecked i Hi). unfold Checked in Hchecked.
    assert (Hel : eligible i = true →
              ∃ e, checkedImages (run ROOT browser n)
                     !! normalizeImageUrl (src i) = Some e
                   ∧ verifiedExists i = Some (exists_ e)
                   ∧ isWorking i = reported i && exists_ e).
    { intros Hel. rewrite Hel in Hchecked.
      destruct Hchecked as (e & He & Hv). exists e.
      split; [done|]. split; [done|].
      rewrite Hall. unfold refuted. rewrite Hv.
      destruct (exists_ e); [by rewrite bool_decide_false|
                             by rewrite bool_decide_true]. }
    split; [exact Hel|]. split; [|split; [|split; [|split]]].
    + intros Hne. rewrite Hne in Hchecked. split; [done|].
      rewrite Hall. unfold refuted. rewrite Hchecked.
      by rewrite bool_decide_false, andb_true_r.
    + intros e He Hcache Hex.
      destruct (Hel He) as (e' & He' & Hv & Hwk).
      assert (e' = e) as -> by congruence.
      rewrite Hv, Hwk, Hex. by rewrite andb_false_r.
    + intros Hrep Hv. rewrite Hall. unfold refuted. rewrite Hv.
      by rewrite bool_decide_true, andb_false_r.
    + intros Hrep. by rewrite Hall, Hrep.
    + intros Hv. by apply Hbacked.
  - rewrite Hw, (countZ_split reported refuted entries).
    rewrite (countZ_ext isWorking (λ i, reported i && negb (refuted i)))
      by done.
    unfold downgraded. lia.
  - rewrite Hb.
    rewrite (countZ_ext (λ i, negb (isWorking i))
               (λ i, negb (reported i && negb (refuted i)))).
    2:{ eapply Forall_impl; [exact Hall|]. simpl. by intros i ->. }
    unfold downgraded. clear. induction entries as [|x l IH]; [done|].
    rewrite !countZ_cons. destruct (reported x), (refuted x); simpl; lia.
Qed.

Lemma reconciliation_witness :
  let s := run "https://x.com" gallerySite 1 in
  let r := nth 0 (results s) (newPageResult "") in
  r ∈ results s
  ∧ working (imagesAnalysis r) = 2%Z ∧ broken (imagesAnalysis r) = 3%Z
  ∧ (reported <$> details (imagesAnalysis r))
    = [true; true; true; true; false]
  ∧ (eligible <$> details (imagesAnalysis r))
    = [true; true; true; false; true]
  ∧ (verifiedExists <$> details (imagesAnalysis r))
    = [Some true; Some false; Some false; None; Some true]
  ∧ (isWorking <$> details (imagesAnalysis r))
    = [true; false; false; true; false].
Proof.
  intros s r.
  assert (Hin : r ∈ results s).
  { apply (list_elem_of_lookup_2 _ 0%nat). vm_compute. reflexivity. }
  destruct (reconciliation "https://x.com" gallerySite 1 r Hin)
    as (_ & Hw & Hb).
  split; [exact Hin|]. split; [exact Hw|]. split; [exact Hb|].
  repeat split; vm_compute; reflexivity.
Defined.

(** ** Where a result comes from *)

Section Origin.

Context (ROOT : string) (browser : Browser).

(** The [i]-th result is what the [i]-th answer of the browser made
    it, up to the events delivered later. *)
Lemma provenance n i r :
  results (run ROOT browser n) !! i = Some r →
  let v := visit browser i (url r) in
  let r0 := deliver (navEvents v)
              (setupErrorHandling (newPageResult (url r))) in
  if isDocumentUrl (url r) then
    stable (checkDocumentUrl v (url r) (newPageResult (url r))) r
  else
    match navigation v with
    | Failed message => stable (failedPage v message r0) r
    | Loaded st =>
        ∃ t allLinks analysis brokenList seen rest,
          pageTitle v = Some t ∧ anchors v = Some allLinks
          ∧ stable (htmlPage v t st r0 analysis brokenList
                      (discover ROOT seen allLinks rest)) r
    end.
Proof.
  intros Hr.
  destruct (inv_provenance _ _ _ (Inv2_run ROOT browser n) i r Hr)
    as (seen & rest & c & c' & x & Hem & Hst).
  unfold Emitted in Hem. cbv zeta.
  destruct (isDocumentUrl (url r)); [by destruct Hem as [-> _]|].
  destruct (navigation _) as [st|message]; [|by destruct Hem as [-> _]].
  destruct Hem as (t & allLinks & analysis & brokenList & ? & ? & _ & ->).
  exists t, allLinks, analysis, brokenList, seen, rest.
  split; [done|]. split; [done|].
  eapply stable_trans; [apply deliver_stable | exact Hst].
Qed.

Lemma setup_stable u :
  let r0 := setupErrorHandling (newPageResult u) in
  title r0 = "" ∧ isDocument r0 = false ∧ documentStatus r0 = ""
  ∧ documentLinks r0 = None ∧ links r0 = [].
Proof. done. Qed.

(** Only a target with an asset extension goes through
    [checkDocumentUrl]. *)
Lemma document_result n r :
  r ∈ results (run ROOT browser n) →
  isDocument r = true ∨ documentStatus r ≠ "" →
  isDocumentUrl (url r) = true.
Proof.
  intros (i & Hi)%list_elem_of_lookup_1 Hdoc.
  pose proof (provenance n i r Hi) as Hp. cbv zeta in Hp.
  destruct (isDocumentUrl (url r)); [done|]. exfalso.
  set (v := visit browser i (url r)) in *.
  pose proof (deliver_stable (navEvents v)
                (setupErrorHandling (newPageResult (url r)))) as H0.
  destruct (navigation v) as [st|message].
  - destruct Hp as (t & allLinks & analysis & bl & seen & rest & _ & _ & Hs).
    rewrite (st_isDocument _ _ Hs), (st_documentStatus _ _ Hs) in Hdoc.
    simpl in Hdoc.
    rewrite (st_isDocument _ _ H0), (st_documentStatus _ _ H0) in Hdoc.
    by destruct Hdoc.
  - rewrite (st_isDocument _ _ Hp), (st_documentStatus _ _ Hp) in Hdoc.
    simpl in Hdoc.
    rewrite (st_isDocument _ _ H0), (st_documentStatus _ _ H0) in Hdoc.
    by destruct Hdoc.
Qed.

(** The [documentLinks] of a result are the asset links among the
    anchors of its page, in document order. *)
Lemma document_links n i r dl :
  results (run ROOT browser n) !! i = Some r →
  documentLinks r = Some dl →
  isDocumentUrl (url r) = false
  ∧ ∃ allLinks, anchors (visit browser i (url r)) = Some allLinks
                ∧ dl = List.filter isDocumentUrl allLinks.
Proof.
  intros Hi Hdl.
  pose proof (provenance n i r Hi) as Hp. cbv zeta in Hp.
  set (v := visit browser i (url r)) in *.
  pose proof (deliver_stable (navEvents v)
                (setupErrorHandling (newPageResult (url r)))) as H0.
  destruct (isDocumentUrl (url r)).
  { rewrite (st_documentLinks _ _ Hp) in Hdl. unfold checkDocumentUrl in Hdl.
    by destruct (navigation v). }
  split; [done|]. destruct (navigation v) as [st|message].
  - destruct Hp as (t & allLinks & analysis & bl & seen & rest & _ & ? & Hs).
    rewrite (st_documentLinks _ _ Hs) in Hdl. simpl in Hdl.
    injection Hdl as <-. exists allLinks. split; [done|].
    by destruct (discover_spec ROOT seen allLinks rest) as (_ & ? & _).
  - rewrite (st_documentLinks _ _ Hp) in Hdl. simpl in Hdl.
    by rewrite (st_documentLinks _ _ H0) in Hdl.
Qed.

End Origin.


(** C5.  The scope test of the loop over the links is
    [link.startsWith(ROOT)], a test on the text of the link where the
    internal links are meant.  Under the root ["https://x.com"] the link
    ["https://x.com.evil.org/p"] has another origin and no asset
    extension; it passes the test, and it is recorded in [links], queued
    and opened. *)
Lemma outside_origin_followed :
  let ROOT := "https://x.com" in
  let link := "https://x.com.evil.org/p" in
  let s := run ROOT lookalikeSite 2 in
  originOf ROOT = Some "https://x.com"
  ∧ originOf link = Some "https://x.com.evil.org"
  ∧ isDocumentUrl link = false
  ∧ (links <$> results s) = [[link]; []]
  ∧ navigated s = [ROOT; link].
Proof. vm_compute. repeat split; reflexivity. Qed.

(** Links that do not start with the root string.  Such a link is
    never put in the queue, never opened, and never in the [links] of a
    result.  The [documentLinks] of a page are exactly the asset links
    among its anchors, whatever their host: so such a link is recorded
    there when it is an asset, and recorded nowhere when it is not. *)
Theorem outside_root_not_followed (ROOT : string) (browser : Browser)
    (n : nat) (link : string) :
  startsWith link ROOT = false →
  let s := run ROOT browser n in
  (link ∉ queue s) ∧ (link ∉ navigated s)
  ∧ (∀ r, r ∈ results s → (link ∉ links r) ∧ url r ≠ link)
  ∧ (∀ i r dl, results s !! i = Some r → documentLinks r = Some dl →
       ∃ allLinks, anchors (visit browser i (url r)) = Some allLinks
                   ∧ dl = List.filter isDocumentUrl allLinks
                   ∧ (link ∈ dl ↔ link ∈ allLinks ∧ isDocumentUrl link = true)).
Proof.
  intros Hout s. pose proof (Inv_run ROOT browser n) as HI. fold s in HI.
  assert (Hq : link ∉ queue s ++ navigated s).
  { intros Hin. destruct (inv_scope ROOT s HI link Hin). congruence. }
  split; [|split; [|split]].
  - intros Hin. apply Hq, elem_of_app. by left.
  - intros Hin. apply Hq, elem_of_app. by right.
  - intros r Hr. split.
    + intros Hl. destruct (inv_links ROOT s HI r link Hr Hl). congruence.
    + intros Hu. apply Hq, elem_of_app. right.
      destruct (inv_navigated ROOT s HI) as (extra & -> & _).
      apply elem_of_app. left. apply list_elem_of_fmap. eauto.
  - intros i r dl Hi Hdl.
    destruct (document_links ROOT browser n i r dl Hi Hdl)
      as (_ & allLinks & Ha & ->).
    exists allLinks. split; [done|]. split; [done|].
    by rewrite list_elem_of_In, filter_In, <- list_elem_of_In.
Qed.

Lemma outside_root_not_followed_witness :
  let s := run "https://x.com" exampleSite 6 in
  startsWith "https://other.com/page" "https://x.com" = false
  ∧ ("https://other.com/page" ∉ queue s)
  ∧ ("https://other.com/page" ∉ navigated s).
Proof.
  intros s. split; [reflexivity|].
  destruct (outside_root_not_followed "https://x.com" exampleSite 6
              "https://other.com/page") as (H1 & H2 & _); [reflexivity|].
  split; [exact H1 | exact H2].
Defined.
(** C9, as stated, fails on [loadTime]: the [catch] of a failed
    navigation stores the elapsed time, which is not the default [0].
    On the example site the page [/b] times out after 30 seconds. *)
Lemma failed_page_keeps_load_time :
  let s := run "https://x.com" exampleSite 3 in
  let r := nth 2 (results s) (newPageResult "") in
  url r = "https://x.com/b"
  ∧ navigation (visit exampleSite 2 (url r))
    = Failed "Timeout 30000ms exceeded."
  ∧ loadTime r = 30000%Z
  ∧ loadTime (newPageResult (url r)) = 0%Z.
Proof. vm_compute. repeat split; reflexivity. Qed.

(** C9, amended.  When the navigation to an HTML target fails, the crawl
    goes on: the turn leaves the loop running, adds one result and adds
    nothing to the queue.  In the results of every run, the result of
    such a target has the failure message in [jsErrors], the elapsed
    time in [loadTime] and the default value in every other field that
    the listeners do not write ([title], [metaDescription],
    [brokenImages], [allImages], [imagesAnalysis], [links],
    [statusCode], [metaTags], [isDocument], [documentType],
    [documentStatus]; [documentLinks] is not set).  Its identity is
    visited, and no identity is opened twice, so it is not retried. *)
Theorem failed_navigation (ROOT : string) (browser : Browser) :
  (∀ s u rest message,
     phase s = Running → queue s = u :: rest → normalizeUrl u ∉ visited s →
     isDocumentUrl u = false →
     navigation (visit browser (length (navigated s)) u) = Failed message →
     let s' := step ROOT browser s in
     phase s' = Running ∧ queue s' = rest
     ∧ length (results s') = S (length (results s))
     ∧ normalizeUrl u ∈ visited s')
  ∧ (∀ n i r message,
       let s := run ROOT browser n in
       results s !! i = Some r → isDocumentUrl (url r) = false →
       navigation (visit browser i (url r)) = Failed message →
       ("Page failed to load: " +:+ message) ∈ jsErrors r
       ∧ loadTime r = elapsed (visit browser i (url r))
       ∧ title r = "" ∧ metaDescription r = ""
       ∧ brokenImages r = [] ∧ allImages r = []
       ∧ imagesAnalysis r = emptyAnalysis
       ∧ links r = [] ∧ statusCode r = 200 ∧ metaTags r = ∅
       ∧ isDocument r = false ∧ documentType r = ""
       ∧ documentStatus r = "" ∧ documentLinks r = None
       ∧ normalizeUrl (url r) ∈ visited s
       ∧ NoDup (normalizeUrl <$> navigated s)).
Proof.
  split.
  - intros s u rest message Hp Hq Hv Hdoc Hnav s'. subst s'.
    assert (Hin : normalizeUrl u ∈ visited (step ROOT browser s)).
    { destruct (step_shape ROOT browser s u rest Hp Hq Hv)
        as (f & new & _ & _ & -> & _). apply elem_of_union. left.
      by apply elem_of_singleton. }
    revert Hin. unfold Crawler.step. rewrite Hp, Hq.
    rewrite bool_decide_false by done. cbv zeta. rewrite Hdoc, Hnav. simpl.
    intros Hin. repeat split; [|done].
    by rewrite length_app, length_fmap, Nat.add_1_r.
  - intros n i r message s Hi Hdoc Hnav.
    pose proof (provenance ROOT browser n i r Hi) as Hp. cbv zeta in Hp.
    rewrite Hdoc, Hnav in Hp.
    set (v := visit browser i (url r)) in *.
    pose proof (deliver_stable (navEvents v)
                  (setupErrorHandling (newPageResult (url r)))) as H0.
    pose proof (Inv_run ROOT browser n) as HI. fold s in HI.
    destruct Hp as [? ? ? ? ? ? ? ? ? ? ? ? ? ? _ Hjs]. simpl in *.
    destruct H0 as [? ? ? ? ? ? ? ? ? ? ? ? ? ? _ _]. simpl in *.
    split; [|repeat split; try congruence].
    + apply Hjs. apply elem_of_app. right. by apply list_elem_of_singleton.
    + apply (inv_seen ROOT s HI). apply elem_of_app. left.
      apply list_elem_of_fmap. exists r. split; [done|].
      by eapply list_elem_of_lookup_2.
    + apply (inv_navigated_nodup ROOT s HI).
Qed.

Lemma failed_navigation_witness :
  let s := run "https://x.com" exampleSite 6 in
  let r := nth 2 (results s) (newPageResult "") in
  "Page failed to load: Timeout 30000ms exceeded." ∈ jsErrors r
  ∧ loadTime r = 30000%Z ∧ links r = [] ∧ title r = "".
Proof.
  intros s r.
  destruct (failed_navigation "https://x.com" exampleSite) as [_ H].
  destruct (H 6%nat 2%nat r "Timeout 30000ms exceeded.")
    as (H1 & H2 & H3 & _ & _ & _ & _ & H8 & _);
    [vm_compute; reflexivity..|].
  split; [exact H1|]. split; [exact H2|]. split; [exact H8 | exact H3].
Defined.
(** ** Progress of the loop *)

Section Progress.

Context (ROOT : string) (browser : Browser).

Abbreviation step := (step ROOT browser).
Abbreviation run := (run ROOT browser).

(** A turn only adds results. *)
Lemma step_results s :
  Inv ROOT s →
  ∃ f new, (∀ x, stable x (f x))
           ∧ results (step s) = (f <$> results s) ++ new.
Proof.
  intros HI.
  assert (Hid : ∃ f new, (∀ x, stable x (f x))
                  ∧ results s = (f <$> results s) ++ new).
  { exists id, []. split; [intros x; apply stable_refl|].
    by rewrite list_fmap_id, app_nil_r. }
  destruct (decide (phase s = Running)) as [Hp|Hp];
    [|by rewrite step_idle].
  destruct (queue s) as [|u rest] eqn:Hq; [by rewrite step_finish|].
  destruct (decide (normalizeUrl u ∈ visited s)) as [Hv|Hv].
  { destruct (inv_queue_fresh ROOT s HI u); [rewrite Hq; by left|done]. }
  destruct (step_shape ROOT browser s u rest Hp Hq Hv)
    as (f & new & ? & ? & _). eauto.
Qed.

Lemma run_extends n k :
  ∃ f more, (∀ x, stable x (f x))
            ∧ results (run (n + k)) = (f <$> results (run n)) ++ more.
Proof.
  induction k as [|k (f & more & Hf & Hk)].
  { exists id, []. split; [intros x; apply stable_refl|].
    by rewrite Nat.add_0_r, list_fmap_id, app_nil_r. }
  rewrite Nat.add_succ_r, run_succ.
  destruct (step_results (run (n + k)) (Inv_run ROOT browser (n + k)))
    as (g & new & Hg & ->).
  exists (λ x, g (f x)), ((g <$> more) ++ new). split.
  - intros x. eapply stable_trans; [apply Hf | apply Hg].
  - by rewrite Hk, fmap_app, <- list_fmap_compose, <- app_assoc.
Qed.

Abbreviation history := (history ROOT).

Lemma urls_prefix_history n :
  (url <$> results (run n)) `prefix_of` history (run n).
Proof.
  unfold history.
  destruct (inv_history ROOT _ (Inv_run ROOT browser n)) as (q' & _ & <-).
  by exists q'.
Qed.

Lemma history_extends n k :
  history (run n) `prefix_of` history (run (n + k))
  ∧ (url <$> results (run n)) `prefix_of` (url <$> results (run (n + k))).
Proof.
  destruct (run_extends n k) as (f & more & Hf & Hr). unfold history.
  rewrite Hr, !fmap_app, concat_app.
  rewrite fmap_stable_links, fmap_stable_urls by done.
  split; [|by eexists].
  exists (concat (links <$> more)). by rewrite app_comm_cons.
Qed.

(** On a calm browser every turn with a target emits its result. *)
Lemma calm_step s u rest :
  calm browser → Inv ROOT s → phase s = Running → queue s = u :: rest →
  phase (step s) = Running
  ∧ length (results (step s)) = S (length (results s)).
Proof.
  intros Hcalm HI Hp Hq.
  assert (Hv : normalizeUrl u ∉ visited s).
  { apply (inv_queue_fresh ROOT s HI). rewrite Hq. by left. }
  unfold Crawler.step. rewrite Hp, Hq.
  rewrite bool_decide_false by done. cbv zeta.
  set (v := visit browser (length (navigated s)) u).
  destruct (isDocumentUrl u); simpl.
  { by rewrite length_app, length_fmap, Nat.add_1_r. }
  destruct (navigation v) as [st|message] eqn:Hnav; simpl.
  2:{ by rewrite length_app, length_fmap, Nat.add_1_r. }
  destruct (Hcalm _ _ _ Hnav) as ([t Ht] & [allLinks Ha] & Hpause).
  fold v in Ht, Ha, Hpause. rewrite Ht.
  destruct (inspectImages _ _ _ _) as [[analysis brokenList] c].
  rewrite Ha, Hpause. simpl.
  by rewrite length_fmap, length_app, length_fmap, Nat.add_1_r.
Qed.

Lemma calm_run m :
  calm browser →
  phase (run m) ≠ Aborted
  ∧ (queue (run m) = []
     ∨ (phase (run m) = Running ∧ length (results (run m)) = m)).
Proof.
  intros Hcalm. induction m as [|m [Hab IH]].
  { split; [done|]. right. by split. }
  rewrite run_succ. pose proof (Inv_run ROOT browser m) as HI.
  destruct (decide (phase (run m) = Running)) as [Hp|Hp].
  2:{ rewrite step_idle by done. split; [done|].
      destruct IH as [?|[? _]]; [by left | done]. }
  destruct (queue (run m)) as [|u rest] eqn:Hq.
  { rewrite step_finish by done. split; [done | by left]. }
  destruct IH as [?|[_ Hlen]]; [done|].
  destruct (calm_step _ u rest Hcalm HI Hp Hq) as [Hp' Hlen'].
  split; [by rewrite Hp'|]. right. split; [done|]. by rewrite Hlen', Hlen.
Qed.

(** On a calm browser every target of the history gets its result. *)
Lemma calm_reaches n j u :
  calm browser → history (run n) !! j = Some u →
  ∃ m, (url <$> results (run m)) !! j = Some u
       ∧ history (run n) `prefix_of` history (run m).
Proof.
  intros Hcalm Hj. exists (n + S j)%nat.
  destruct (history_extends n (S j)) as [Hpre _]. split; [|done].
  destruct (calm_run (n + S j) Hcalm) as [Hab Hm].
  destruct (inv_history ROOT _ (Inv_run ROOT browser (n + S j)))
    as (q' & Hq' & Hh).
  rewrite (Hq' Hab) in Hh. fold (history (run (n + S j))) in Hh.
  assert (Hj' : history (run (n + S j)) !! j = Some u).
  { destruct Hpre as [k ->]. by apply lookup_app_l_Some. }
  rewrite <- Hh in Hj'.
  destruct Hm as [Hq|[_ Hlen]].
  - by rewrite Hq, app_nil_r in Hj'.
  - rewrite lookup_app_l in Hj'; [done|]. rewrite length_fmap. lia.
Qed.

End Progress.

(** C4. Breadth-first order.  Let the first result of a run be the
    root's, with [links = [A; B]], and let [C] be among the links of the
    second result.  Then in every run over this site the emitted targets
    form a prefix of a sequence [ROOT, A, B, ..., C, ...] without
    repetition: the second result is A's, the third B's, and C's comes
    after B's.  When no step after a successful navigation rejects, the
    run does emit them all: after enough turns the results are those of
    [ROOT, A, B], then others, then [C]. *)
Theorem bfs_order (ROOT : string) (browser : Browser) (n : nat)
    (rR rA : PageResult) (rest : list PageResult) (A B C : string) :
  results (run ROOT browser n) = rR :: rA :: rest →
  links rR = [A; B] → C ∈ links rA →
  (∀ m, ∃ tail,
      C ∈ tail ∧ NoDup (ROOT :: A :: B :: tail)
      ∧ (url <$> results (run ROOT browser m))
          `prefix_of` (ROOT :: A :: B :: tail))
  ∧ (calm browser →
     ∃ m before after,
       url <$> results (run ROOT browser m)
       = ROOT :: A :: B :: before ++ C :: after).
Proof.
  intros Hres HR HC.
  assert (Hn : history ROOT (run ROOT browser n)
               = ROOT :: A :: B
                 :: (links rA ++ concat (links <$> rest))).
  { unfold history. rewrite Hres. simpl. by rewrite HR. }
  assert (Hlater : ∀ m, history ROOT (run ROOT browser n)
                          `prefix_of` history ROOT (run ROOT browser m) →
            ∃ tail, C ∈ tail ∧ NoDup (ROOT :: A :: B :: tail)
                    ∧ history ROOT (run ROOT browser m)
                      = ROOT :: A :: B :: tail).
  { intros m [k Hk]. rewrite Hn in Hk.
    exists ((links rA ++ concat (links <$> rest)) ++ k). split; [|split].
    - rewrite !elem_of_app. auto.
    - change (NoDup ((ROOT :: A :: B
                        :: links rA ++ concat (links <$> rest)) ++ k)).
      rewrite <- Hk.
      eapply NoDup_fmap_1, (inv_history_nodup ROOT), Inv_run.
    - by rewrite Hk. }
  split.
  - intros m.
    destruct (history_extends ROOT browser n m) as [Hh _].
    destruct (history_extends ROOT browser m n) as [_ Hu].
    rewrite (Nat.add_comm m n) in Hu.
    destruct (Hlater _ Hh) as (tail & ? & ? & Heq).
    exists tail. split; [done|]. split; [done|]. rewrite <- Heq.
    etrans; [exact Hu | apply urls_prefix_history].
  - intros Hcalm.
    apply list_elem_of_lookup_1 in HC as [idx Hidx].
    assert (Hj : history ROOT (run ROOT browser n) !! (3 + idx)%nat = Some C).
    { rewrite Hn. simpl. by apply lookup_app_l_Some. }
    destruct (calm_reaches ROOT browser n _ C Hcalm Hj) as (m & Hm & Hpre).
    destruct (Hlater _ Hpre) as (tail & _ & _ & Heq).
    pose proof (urls_prefix_history ROOT browser m) as [k Hk].
    rewrite Heq in Hk. exists m.
    destruct (url <$> results (run ROOT browser m)) as [|x0 [|x1 [|x2 t]]];
      try discriminate.
    simpl in Hk, Hm. injection Hk as <- <- <- _.
    exists (take idx t), (drop (S idx) t).
    by rewrite (take_drop_middle t idx C Hm).
Qed.

Lemma calm_exampleSite : calm exampleSite.
Proof.
  intros k u st. unfold exampleSite. simpl.
  repeat case_bool_decide; simpl; intros; try discriminate;
    repeat split; eauto.
Qed.

Lemma bfs_order_witness :
  let s := run "https://x.com" exampleSite 2 in
  (links <$> results s) = [ ["https://x.com/a"; "https://x.com/b"];
                           ["https://x.com/c"] ]
  ∧ (url <$> results (run "https://x.com" exampleSite 5))
    = [ "https://x.com"; "https://x.com/a"; "https://x.com/b";
        "https://x.com/c" ]
  ∧ ∃ m before after,
      url <$> results (run "https://x.com" exampleSite m)
      = "https://x.com" :: "https://x.com/a" :: "https://x.com/b"
        :: before ++ "https://x.com/c" :: after.
Proof.
  intros s. split; [vm_compute; reflexivity|].
  split; [vm_compute; reflexivity|].
  eapply (bfs_order "https://x.com" exampleSite 2
            (nth 0 (results s) (newPageResult ""))
            (nth 1 (results s) (newPageResult "")) []).
  - vm_compute. reflexivity.
  - vm_compute. reflexivity.
  - apply list_elem_of_singleton. vm_compute. reflexivity.
  - apply calm_exampleSite.
Defined.
(** * The claims about the URL helpers *)

Lemma dropWhile_replicate f c k l :
  f c = true → dropWhile f (replicate k c ++ l) = dropWhile f l.
Proof. intros Hc. induction k as [|k IH]; [done|]. simpl. by rewrite Hc. Qed.

Lemma rev_replicate {A} (c : A) k : rev (replicate k c) = replicate k c.
Proof.
  induction k as [|k IH]; [done|]. simpl. rewrite IH.
  clear. induction k as [|k IH]; [done|]. simpl. by rewrite IH.
Qed.

Lemma stripTrailingSlashes_slashes l k :
  stripTrailingSlashes (l ++ replicate k "/"%char) = stripTrailingSlashes l.
Proof.
  unfold stripTrailingSlashes, dropWhileEnd.
  by rewrite rev_app_distr, rev_replicate, dropWhile_replicate.
Qed.

(** C6. Identity invariance.  Two URLs with the same origin whose
    pathnames differ only in trailing slashes have the same page
    identity, whatever their query strings and fragments; two URLs with
    the same origin and pathname have the same asset identity, whatever
    their query strings and fragments.  In particular the identities of
    the two pairs of the claim coincide. *)
Theorem identity_invariance :
  (∀ u1 u2 p1 p2 base k1 k2,
     URLStd.parse u1 = Some p1 → URLStd.parse u2 = Some p2 →
     URLStd.origin p1 = URLStd.origin p2 →
     URLStd.pathname p1 = base ++ replicate k1 "/"%char →
     URLStd.pathname p2 = base ++ replicate k2 "/"%char →
     normalizeUrl u1 = normalizeUrl u2)
  ∧ (∀ u1 u2 p1 p2,
       URLStd.parse u1 = Some p1 → URLStd.parse u2 = Some p2 →
       URLStd.origin p1 = URLStd.origin p2 →
       URLStd.pathname p1 = URLStd.pathname p2 →
       normalizeImageUrl u1 = normalizeImageUrl u2)
  ∧ normalizeUrl "https://x.com/a/" = normalizeUrl "https://x.com/a#frag"
  ∧ normalizeUrl "https://x.com/p?x=1" = normalizeUrl "https://x.com/p?x=2"
  ∧ normalizeImageUrl "https://x.com/i.png?v=1"
    = normalizeImageUrl "https://x.com/i.png?v=2"
  ∧ normalizeImageUrl "https://x.com/i.png#a"
    = normalizeImageUrl "https://x.com/i.png".
Proof.
  split; [|split; [|repeat split; vm_compute; reflexivity]].
  - intros u1 u2 p1 p2 base k1 k2 H1 H2 Ho Hp1 Hp2.
    unfold normalizeUrl. rewrite H1, H2, Ho, Hp1, Hp2.
    by rewrite !app_assoc, !stripTrailingSlashes_slashes.
  - intros u1 u2 p1 p2 H1 H2 Ho Hp.
    unfold normalizeImageUrl. by rewrite H1, H2, Ho, Hp.
Qed.

Lemma identity_invariance_witness :
  normalizeUrl "https://x.com/a/?q=1" = normalizeUrl "https://x.com/a#frag"
  ∧ normalizeImageUrl "https://x.com/i.png?v=1"
    = normalizeImageUrl "https://x.com/i.png?v=2#top".
Proof.
  destruct identity_invariance as (H1 & H2 & _).
  split.
  - destruct (URLStd.parse "https://x.com/a/?q=1") as [p1|] eqn:E1;
      [|vm_compute in E1; discriminate].
    destruct (URLStd.parse "https://x.com/a#frag") as [p2|] eqn:E2;
      [|vm_compute in E2; discriminate].
    apply (H1 _ _ p1 p2 (chars "/a") 1%nat 0%nat E1 E2);
      vm_compute in E1, E2; injection E1 as <-; injection E2 as <-;
      vm_compute; reflexivity.
  - destruct (URLStd.parse "https://x.com/i.png?v=1") as [p1|] eqn:E1;
      [|vm_compute in E1; discriminate].
    destruct (URLStd.parse "https://x.com/i.png?v=2#top") as [p2|] eqn:E2;
      [|vm_compute in E2; discriminate].
    apply (H2 _ _ p1 p2 E1 E2);
      vm_compute in E1, E2; injection E1 as <-; injection E2 as <-;
      vm_compute; reflexivity.
Defined.

(** C8. Asset classification.  [isDocumentUrl] holds exactly when the
    URL parses and its pathname, in lower case, ends with one of the
    extensions of [DOCUMENT_EXTENSIONS]; the query and fragment play no
    role, and an unparseable URL is not an asset.  The extensions are the
    twenty-three of the claim. *)
Theorem isDocumentUrl_spec :
  (∀ u, isDocumentUrl u = true
        ↔ ∃ parsed ext,
            URLStd.parse u = Some parsed ∧ ext ∈ DOCUMENT_EXTENSIONS
            ∧ endsWith (toLowerCase (text (URLStd.pathname parsed))) ext
              = true)
  ∧ (∀ u, URLStd.parse u = None → isDocumentUrl u = false)
  ∧ (∀ u1 u2 p1 p2,
       URLStd.parse u1 = Some p1 → URLStd.parse u2 = Some p2 →
       URLStd.path p1 = URLStd.path p2 →
       isDocumentUrl u1 = isDocumentUrl u2)
  ∧ DOCUMENT_EXTENSIONS
    = (λ e, "." +:+ e)
        <$> [ "pdf"; "doc"; "docx"; "xls"; "xlsx"; "ppt"; "pptx"; "jpg";
              "jpeg"; "png"; "gif"; "bmp"; "svg"; "webp"; "mp4"; "avi";
              "mov"; "wmv"; "zip"; "rar"; "7z"; "txt"; "rtf" ]
  ∧ isDocumentUrl "https://x.com/doc.PDF" = true
  ∧ isDocumentUrl "https://x.com/page" = false
  ∧ isDocumentUrl "https://x.com/img.png?x=1" = true
  ∧ isDocumentUrl "https://x.com/img.png#x.html" = true
  ∧ isDocumentUrl "https://x.com/page?file=a.pdf" = false
  ∧ isDocumentUrl "not a url.pdf" = false.
Proof.
  split; [|split; [|split; [|repeat split; vm_compute; reflexivity]]].
  - intros u. unfold isDocumentUrl. destruct (URLStd.parse u) as [p|].
    + rewrite existsb_exists. split.
      * intros (ext & Hin & Hext). exists p, ext.
        by rewrite list_elem_of_In.
      * intros (p' & ext & [= <-] & Hin & Hext). exists ext.
        by rewrite <- list_elem_of_In.
    + split; [done|]. by intros (p' & ext & ? & _).
  - intros u Hu. unfold isDocumentUrl. by rewrite Hu.
  - intros u1 u2 p1 p2 H1 H2 Hp. unfold isDocumentUrl, URLStd.pathname.
    by rewrite H1, H2, Hp.
Qed.

Lemma isDocumentUrl_spec_witness :
  URLStd.parse "://missing" = None ∧ isDocumentUrl "://missing" = false.
Proof.
  destruct isDocumentUrl_spec as (_ & H & _).
  split; [reflexivity|]. apply H. reflexivity.
Defined.
(** * Re-parsing a normalized URL *)

Import Char URLStd Reparse.

(** ** Characters, by enumeration *)

Lemma forall_ascii (P : ascii → bool) :
  forallb P allAscii = true → ∀ c, P c = true.
Proof.
  intros H c. rewrite forallb_forall in H. apply H.
  rewrite <- (ascii_nat_embedding c). apply in_map, in_seq.
  pose proof (nat_ascii_bounded c). lia.
Qed.

Lemma domain_char c :
  isForbiddenDomain c = false → (code c <? 128) = true →
  isHostChar c = true ∧ isCode 58 c = false ∧ isCode 91 c = false
  ∧ isCode 93 c = false.
Proof.
  revert c.
  assert (H : ∀ c, implb (negb (isForbiddenDomain c) && (code c <? 128))
                     (isHostChar c && negb (isCode 58 c)
                      && negb (isCode 91 c) && negb (isCode 93 c)) = true)
    by (apply forall_ascii; vm_compute; reflexivity).
  intros c H1 H2. specialize (H c). rewrite H1, H2 in H. cbn [implb negb andb] in H.
  do 3 (apply andb_true_iff in H as [H ?]).
  repeat split; try done; by apply negb_true_iff.
Qed.

Lemma digit_char c :
  isDigit c = true →
  isHostChar c = true ∧ isCode 58 c = false ∧ isCode 91 c = false
  ∧ isCode 93 c = false ∧ isDot c = false ∧ isHex c = true
  ∧ Char.toLower c = c ∧ isForbiddenDomain c = false
  ∧ (code c <? 128) = true.
Proof.
  revert c.
  assert (H : ∀ c, implb (isDigit c)
                     (isHostChar c && negb (isCode 58 c)
                      && negb (isCode 91 c) && negb (isCode 93 c)
                      && negb (isDot c) && isHex c
                      && Ascii.eqb (Char.toLower c) c
                      && negb (isForbiddenDomain c)
                      && (code c <? 128)) = true)
    by (apply forall_ascii; vm_compute; reflexivity).
  intros c H1. specialize (H c). rewrite H1 in H. cbn [implb] in H.
  do 8 (apply andb_true_iff in H as [H ?]).
  repeat split; try done; try (by apply negb_true_iff).
  by apply Ascii.eqb_eq.
Qed.

Lemma segment_char_encoded c :
  inPathSet c = false → isPlain c = true.
Proof.
  revert c.
  assert (H : ∀ c, implb (negb (inPathSet c)) (isPlain c) = true)
    by (apply forall_ascii; vm_compute; reflexivity).
  intros c H1. specialize (H c). by rewrite H1 in H.
Qed.

Lemma percentEncodeByte_chars c :
  forallb (λ x, isPlain x && negb (inPathSet x) && negb (isSlash x))
    (percentEncodeByte c) = true.
Proof.
  revert c. apply forall_ascii. vm_compute. reflexivity.
Qed.

(** ** Lists of characters *)



Lemma dropWhile_head f c l : f c = false → dropWhile f (c :: l) = c :: l.
Proof. intros H. simpl. by rewrite H. Qed.

Lemma forallb_app_iff {A} (f : A → bool) a b :
  forallb f (a ++ b) = true ↔ forallb f a = true ∧ forallb f b = true.
Proof. rewrite forallb_app. apply andb_true_iff. Qed.

Lemma forallb_impl {A} (f g : A → bool) l :
  (∀ x, f x = true → g x = true) → forallb f l = true → forallb g l = true.
Proof.
  intros H. rewrite !forallb_forall. auto.
Qed.


(** ** Pieces and segments *)


Lemma splitOn_app_sep f a c b :
  forallb (λ x, negb (f x)) a = true → f c = true →
  splitOn f (a ++ c :: b) = a :: splitOn f b.
Proof.
  intros Ha Hc. induction a as [|x a IH]; simpl in *.
  - by rewrite Hc.
  - apply andb_true_iff in Ha as [Hx Ha]. apply negb_true_iff in Hx.
    by rewrite Hx, (IH Ha).
Qed.

Lemma splitOn_none f a :
  forallb (λ x, negb (f x)) a = true → splitOn f a = [a].
Proof.
  intros Ha. induction a as [|x a IH]; simpl in *; [done|].
  apply andb_true_iff in Ha as [Hx Ha]. apply negb_true_iff in Hx.
  by rewrite Hx, (IH Ha).
Qed.


(** Percent-encoding is the identity on encoded text. *)
Lemma percentEncode_id inSet l :
  forallb (λ c, negb (inSet c)) l = true → percentEncode inSet l = l.
Proof.
  intros Hl. unfold percentEncode. induction l as [|c l IH]; [done|].
  simpl in *. apply andb_true_iff in Hl as [Hc Hl].
  apply negb_true_iff in Hc. by rewrite Hc, (IH Hl).
Qed.

Lemma percentEncode_path_chars l :
  forallb (λ x, isPlain x && negb (inPathSet x)) (percentEncode inPathSet l)
  = true.
Proof.
  unfold percentEncode. induction l as [|c l IH]; [done|]. simpl.
  rewrite forallb_app, IH, andb_true_r.
  destruct (inPathSet c) eqn:Hc.
  - eapply forallb_impl; [|apply percentEncodeByte_chars].
    intros x Hx. by apply andb_true_iff in Hx as [-> _].
  - simpl. rewrite Hc. simpl. by rewrite (segment_char_encoded c Hc).
Qed.

Lemma percentEncode_no_slash f l :
  (∀ c, f c = true → isSlash c = true) →
  forallb (λ x, negb (f x)) l = true →
  forallb (λ x, negb (f x)) (percentEncode inPathSet l) = true.
Proof.
  intros Hf Hl. unfold percentEncode. induction l as [|c l IH]; [done|].
  simpl in *. apply andb_true_iff in Hl as [Hc Hl].
  rewrite forallb_app, (IH Hl), andb_true_r.
  destruct (inPathSet c).
  - eapply forallb_impl; [|apply percentEncodeByte_chars].
    intros x Hx. apply andb_true_iff in Hx as [_ Hx].
    destruct (f x) eqn:Hfx; [|done]. by rewrite (Hf x Hfx) in Hx.
  - simpl. by rewrite Hc.
Qed.
(** ** Paths *)

Lemma Forall_removelast {A} (P : A → Prop) l :
  Forall P l → Forall P (removelast l).
Proof.
  induction 1 as [|x l Hx Hl IH]; [constructor|]. simpl.
  destruct l; [constructor|]. by constructor.
Qed.

Lemma shorten_ok p : Forall SegOk p → Forall SegOk (shorten false p).
Proof.
  intros Hp. unfold shorten. destruct p as [|d [|e p]]; try done.
  by apply Forall_removelast.
Qed.

Lemma SegOk_nil : SegOk [].
Proof. by split. Qed.

Lemma pathSegments_ok pieces p :
  Forall (λ b, forallb isSegmentChar b = true) pieces → Forall SegOk p →
  Forall SegOk (pathSegments false pieces p)
  ∧ (pieces ≠ [] → pathSegments false pieces p ≠ []).
Proof.
  intros Hpieces. revert p.
  induction Hpieces as [|b rest Hb Hrest IH]; intros p Hp; [done|].
  cbn [pathSegments andb].
  set (p' := if isDoubleDot b then _ else _).
  assert (Hp' : Forall SegOk p'
                ∧ (bool_decide (rest = []) = true → p' ≠ [])).
  { subst p'. destruct (isDoubleDot b) eqn:Hdd.
    - case_bool_decide; split; try done.
      + apply Forall_app. split; [by apply shorten_ok|].
        constructor; [apply SegOk_nil | constructor].
      + intros _. by destruct (shorten false p).
      + by apply shorten_ok.
    - destruct (isSingleDot b) eqn:Hsd.
      + case_bool_decide; split; try done.
        * apply Forall_app. split; [done|].
          constructor; [apply SegOk_nil | constructor].
        * intros _. by destruct p.
      + split; [|intros _; by destruct p].
        apply Forall_app. split; [done|]. by repeat constructor. }
  destruct Hp' as [Hok Hne]. destruct (IH p' Hok) as [IH1 IH2].
  split; [done|]. intros _. destruct rest as [|b' rest']; [|by apply IH2].
  simpl. by apply Hne, bool_decide_eq_true.
Qed.


Lemma splitOn_pieces f l :
  Forall (λ b, forallb (λ x, negb (f x)) b = true) (splitOn f l).
Proof.
  induction l as [|c l IH]; simpl; [by repeat constructor|].
  destruct (f c) eqn:Hc; [by constructor|].
  destruct (splitOn f l) as [|p ps]; [by repeat constructor; simpl; rewrite Hc|].
  apply Forall_cons in IH as [Hp Hps]. constructor; [|done].
  simpl. by rewrite Hc.
Qed.

Lemma splitOn_nonempty f l : splitOn f l ≠ [].
Proof.
  destruct l as [|c l]; simpl; [done|].
  destruct (f c); [done|]. by destruct (splitOn f l).
Qed.

(** The path of a parsed special URL. *)
Lemma parsePathState_ok l :
  Forall SegOk (parsePathState true false l)
  ∧ parsePathState true false l ≠ [].
Proof.
  unfold parsePathState.
  assert (Hpieces : Forall (λ b, forallb isSegmentChar b = true)
                      (map (percentEncode inPathSet) (splitOn isSlash l))).
  { apply Forall_forall. intros b (piece & <- & Hin)%list_elem_of_In%in_map_iff.
    pose proof (splitOn_pieces isSlash l) as Hs. rewrite Forall_forall in Hs.
    apply list_elem_of_In in Hin. specialize (Hs piece Hin).
    pose proof (percentEncode_path_chars piece) as H1.
    pose proof (percentEncode_no_slash isSlash piece (λ c H, H) Hs) as H2.
    rewrite forallb_forall in H1, H2. apply forallb_forall. intros x Hx.
    unfold isSegmentChar. by rewrite (H1 x Hx), (H2 x Hx). }
  destruct (pathSegments_ok _ [] Hpieces ltac:(constructor)) as [H1 H2].
  split; [done|]. apply H2.
  destruct (splitOn isSlash l) eqn:E; [by destruct (splitOn_nonempty isSlash l)|done].
Qed.



(** ** Numbers, by enumeration *)

Lemma forallBits_spec k P :
  forallBits k P = true → ∀ n, n < 2 ^ N.of_nat k → P n = true.
Proof.
  revert P. induction k as [|k IH]; intros P H n Hn.
  - simpl in *. assert (n = 0) as -> by lia. done.
  - simpl in H. apply andb_true_iff in H as [H0 H1].
    rewrite Nat2N.inj_succ, N.pow_succ_r' in Hn.
    destruct (N.even n) eqn:He.
    + apply N.even_spec in He as [m ->]. apply (IH _ H0). lia.
    + assert (N.odd n = true) as [m ->]%N.odd_spec
        by (by rewrite <- N.negb_even, He).
      apply (IH _ H1). lia.
Qed.

Lemma showDec_port n : n ≤ 65535 → decimalOk n = true.
Proof.
  intros Hn. apply (forallBits_spec 16); [vm_compute; reflexivity | simpl; lia].
Qed.

Lemma showDec_digits n :
  n ≤ 65535 →
  forallb isDigit (showDec n) = true ∧ showDec n ≠ []
  ∧ readRadix 10 (showDec n) = n ∧ parseIPv4Number (showDec n) = Some n.
Proof.
  intros H%showDec_port. unfold decimalOk in H.
  do 3 (apply andb_true_iff in H as [H ?]).
  repeat split; try done.
  - intros Heq. by rewrite Heq in *.
  - by apply N.eqb_eq.
  - by apply bool_decide_eq_true in H0.
Qed.

Lemma parsePort_ok sch l p :
  parsePort sch l = Some (Some p) → p ≤ 65535 ∧ defaultPort sch ≠ Some p.
Proof.
  unfold parsePort. destruct (forallb isDigit l); [|done].
  destruct l as [|c l]; [done|].
  destruct (65535 <? _) eqn:Hle; [done|]. case_bool_decide; [done|].
  intros [= <-]. apply N.ltb_ge in Hle. done.
Qed.

(** ** Hosts *)

Lemma splitHostPort_plain inside l tail :
  forallb (λ c, negb (isCode 58 c) && negb (isCode 91 c)
                && negb (isCode 93 c)) l = true →
  splitHostPort inside (l ++ tail)
  = (l ++ (splitHostPort inside tail).1, (splitHostPort inside tail).2).
Proof.
  intros Hl. induction l as [|c l IH]; simpl.
  - by destruct (splitHostPort inside tail).
  - simpl in Hl. apply andb_true_iff in Hl as [Hc Hl].
    do 2 (apply andb_true_iff in Hc as [Hc ?]).
    apply negb_true_iff in Hc, H, H0. rewrite Hc, H, H0. simpl.
    rewrite (IH Hl). done.
Qed.

Lemma percentDecode_id l :
  forallb (λ c, negb (isCode 37 c)) l = true → percentDecode l = l.
Proof.
  induction l as [|c l IH]; [done|]. simpl. intros [Hc Hl]%andb_true_iff.
  apply negb_true_iff in Hc. by rewrite Hc, (IH Hl).
Qed.

Lemma toLower_facts c :
  Char.toLower (Char.toLower c) = Char.toLower c
  ∧ isDot (Char.toLower c) = isDot c
  ∧ (code (Char.toLower c) <? 128) = (code c <? 128).
Proof.
  revert c.
  assert (H : ∀ c, Ascii.eqb (Char.toLower (Char.toLower c)) (Char.toLower c)
                   && Bool.eqb (isDot (Char.toLower c)) (isDot c)
                   && Bool.eqb (code (Char.toLower c) <? 128) (code c <? 128)
                   = true)
    by (apply forall_ascii; vm_compute; reflexivity).
  intros c. specialize (H c). do 2 (apply andb_true_iff in H as [H ?]).
  repeat split; [by apply Ascii.eqb_eq | by apply Bool.eqb_prop..].
Qed.

Lemma map_toLower_idem l :
  map Char.toLower (map Char.toLower l) = map Char.toLower l.
Proof.
  induction l as [|c l IH]; [done|]. simpl.
  by rewrite IH, (proj1 (toLower_facts c)).
Qed.

Lemma splitOn_toLower l :
  splitOn isDot (map Char.toLower l)
  = map (map Char.toLower) (splitOn isDot l).
Proof.
  induction l as [|c l IH]; [done|]. simpl.
  destruct (toLower_facts c) as (_ & -> & _). rewrite IH.
  destruct (isDot c); [done|]. by destruct (splitOn isDot l).
Qed.

Lemma hasXnLabel_toLower l :
  hasXnLabel (map Char.toLower l) = hasXnLabel l.
Proof.
  unfold hasXnLabel. rewrite splitOn_toLower.
  induction (splitOn isDot l) as [|label rest IH]; [done|].
  cbn [map existsb]. by rewrite map_toLower_idem, IH.
Qed.

Lemma domainToASCII_stable l d :
  domainToASCII l = Some d → domainToASCII d = Some d ∧ d ≠ []
  ∧ forallb (λ c, code c <? 128) d = true.
Proof.
  unfold domainToASCII.
  destruct (forallb _ l && _) eqn:H; [|done].
  apply andb_true_iff in H as [Hascii Hxn].
  destruct l as [|c l]; [done|].
  intros [= <-].
  change (Char.toLower c :: map Char.toLower l)
    with (map Char.toLower (c :: l)).
  set (l0 := c :: l) in *.
  assert (Ha : forallb (λ c, code c <? 128) (map Char.toLower l0) = true).
  { rewrite forallb_forall in Hascii. apply forallb_forall.
    intros x (y & <- & Hy)%in_map_iff.
    destruct (toLower_facts y) as (_ & _ & ->). by apply Hascii. }
  rewrite Ha, hasXnLabel_toLower, Hxn, map_toLower_idem. done.
Qed.

Lemma domain_ok l d :
  parseHost false l = Some (Domain d) → HostOk (Domain d).
Proof.
  unfold parseHost. destruct l as [|c r]; [done|].
  destruct (isCode 91 c).
  { destruct (rev r) as [|e mid]; [done|].
    destruct (isCode 93 e); [|done]. by destruct (parseIPv6 _). }
  simpl. destruct (domainToASCII _) as [a|] eqn:Ha; [|done].
  destruct (existsb isForbiddenDomain a) eqn:Hforb; [done|].
  destruct (endsInNumber a) eqn:Hnum; [by destruct (parseIPv4 a)|].
  intros [= ->].
  destruct (domainToASCII_stable _ _ Ha) as (Hst & Hne & Hascii).
  assert (Hchars : ∀ x, In x d → isHostChar x = true ∧ isCode 58 x = false
                                ∧ isCode 91 x = false ∧ isCode 93 x = false).
  { intros x Hx. apply domain_char.
    - destruct (isForbiddenDomain x) eqn:E; [|done].
      assert (existsb isForbiddenDomain d = true); [|congruence].
      apply existsb_exists. eauto.
    - rewrite forallb_forall in Hascii. by apply Hascii. }
  split; simpl.
  - done.
  - apply forallb_forall. intros x Hx. by apply Hchars.
  - intros tail. apply splitHostPort_plain. apply forallb_forall.
    intros x Hx. destruct (Hchars x Hx) as (_ & -> & -> & ->). done.
  - unfold parseHost. destruct d as [|c' d'] eqn:Ed; [done|].
    assert (isCode 91 c' = false) as -> by (apply (Hchars c'); by left).
    cbn [negb]. rewrite <- Ed in *. rewrite percentDecode_id.
    2:{ apply forallb_forall. intros x Hx.
        destruct (Hchars x Hx) as (Hh & _). unfold isHostChar in Hh.
        by apply andb_true_iff in Hh as [_ ->]. }
    by rewrite Hst, Hforb, Hnum.
Qed.

(** The IPv4 parser returns a 32-bit address. *)
Lemma parseIPv4_bound l a : parseIPv4 l = Some a → a < 4294967296.
Proof.
  unfold parseIPv4. set (parts := dottedPartsRev l).
  destruct (4 <? length parts)%nat eqn:Hlen; [done|].
  apply Nat.ltb_ge in Hlen.
  destruct (mapM parseIPv4Number parts) as [[|last others]|] eqn:Hm; try done.
  apply length_mapM in Hm. rewrite Hm in *. clear Hm parts.
  destruct (existsb _ others) eqn:Hex; [done|].
  destruct (_ <=? last) eqn:Hlast; [done|]. apply N.leb_gt in Hlast.
  intros [= <-].
  assert (Hsmall : ∀ x, In x others → x ≤ 255).
  { intros x Hx. destruct (255 <? x) eqn:E; [|by apply N.ltb_ge].
    assert (existsb (λ n, 255 <? n) others = true); [|congruence].
    apply existsb_exists. eauto. }
  destruct others as [|o1 [|o2 [|o3 [|o4 others]]]]; simpl in *;
    [| | | |lia]; pow256.
  - lia.
  - pose proof (Hsmall o1 ltac:(auto)). lia.
  - pose proof (Hsmall o1 ltac:(auto)). pose proof (Hsmall o2 ltac:(auto)).
    lia.
  - pose proof (Hsmall o1 ltac:(auto)). pose proof (Hsmall o2 ltac:(auto)).
    pose proof (Hsmall o3 ltac:(auto)). lia.
Qed.

Lemma octets a :
  a < 4294967296 →
  a mod 256 + (a / 16777216 mod 256) * 16777216
  + (a / 65536 mod 256) * 65536 + (a / 256 mod 256) * 256 = a
  ∧ a / 16777216 mod 256 ≤ 255 ∧ a / 65536 mod 256 ≤ 255
  ∧ a / 256 mod 256 ≤ 255 ∧ a mod 256 ≤ 255.
Proof. intros H. zify. Z.to_euclidean_division_equations. lia. Qed.

Lemma dot_facts :
  isHostChar "."%char = true ∧ isDot "."%char = true
  ∧ isForbiddenDomain "."%char = false.
Proof. by vm_compute. Qed.

Lemma digits_no_xn l :
  forallb isDigit l = true → l ≠ [] →
  isPrefix (lit "xn--") (map Char.toLower l) = false.
Proof.
  intros Hl Hne. destruct l as [|c l]; [done|]. simpl in Hl.
  apply andb_true_iff in Hl as [Hc _]. clear Hne.
  revert c Hc.
  assert (H : ∀ c, implb (isDigit c)
                     (negb (Ascii.eqb "x" (Char.toLower c))) = true)
    by (apply forall_ascii; vm_compute; reflexivity).
  intros c Hc. specialize (H c). rewrite Hc in H. cbn [implb] in H.
  apply negb_true_iff in H.
  change (lit "xn--") with ("x"%char :: lit "n--").
  cbn [map isPrefix]. by rewrite H.
Qed.

Lemma splitOn_dotted p ps :
  Forall (λ q, forallb isDigit q = true) (p :: ps) →
  splitOn isDot (dotted (p :: ps)) = p :: ps.
Proof.
  revert p. induction ps as [|q ps IH]; intros p Hall.
  - simpl. rewrite app_nil_r. apply splitOn_none.
    apply Forall_cons in Hall as [Hp _].
    eapply forallb_impl; [|exact Hp]. intros c Hc.
    by destruct (digit_char c Hc) as (_ & _ & _ & _ & -> & _).
  - apply Forall_cons in Hall as [Hp Hall].
    change (dotted (p :: q :: ps)) with (p ++ "."%char :: dotted (q :: ps)).
    rewrite splitOn_app_sep; [by rewrite IH| |done].
    eapply forallb_impl; [|exact Hp]. intros c Hc.
    by destruct (digit_char c Hc) as (_ & _ & _ & _ & -> & _).
Qed.

Lemma dotted_forallb (P : ascii → bool) parts :
  P "."%char = true → (∀ c, isDigit c = true → P c = true) →
  Forall (λ q, forallb isDigit q = true) parts →
  forallb P (dotted parts) = true.
Proof.
  intros Hdot Hdig Hall. destruct Hall as [|p ps Hp Hps]; [done|].
  simpl. rewrite forallb_app. apply andb_true_iff. split.
  { eapply forallb_impl; [|exact Hp]. auto. }
  induction Hps as [|q ps Hq _ IH]; [done|]. simpl.
  rewrite Hdot, forallb_app, IH, andb_true_r. simpl.
  eapply forallb_impl; [|exact Hq]. auto.
Qed.

Lemma showIPv4_dotted a :
  showIPv4 a
  = dotted [ showDec (a / 16777216 mod 256); showDec (a / 65536 mod 256);
             showDec (a / 256 mod 256); showDec (a mod 256) ].
Proof.
  unfold showIPv4, dotted. simpl. by rewrite app_nil_r.
Qed.

Lemma ipv4_ok a : a < 4294967296 → HostOk (IPv4 a).
Proof.
  intros Ha. destruct (octets a Ha) as (Hsum & H1 & H2 & H3 & H4).
  set (o1 := a / 16777216 mod 256) in *. set (o2 := a / 65536 mod 256) in *.
  set (o3 := a / 256 mod 256) in *. set (o4 := a mod 256) in *.
  destruct (showDec_digits o1 ltac:(lia)) as (D1 & N1 & _ & P1).
  destruct (showDec_digits o2 ltac:(lia)) as (D2 & N2 & _ & P2).
  destruct (showDec_digits o3 ltac:(lia)) as (D3 & N3 & _ & P3).
  destruct (showDec_digits o4 ltac:(lia)) as (D4 & N4 & _ & P4).
  assert (Hall : Forall (λ q, forallb isDigit q = true)
                   [showDec o1; showDec o2; showDec o3; showDec o4])
    by (by repeat constructor).
  pose proof (showIPv4_dotted a) as Hshow. fold o1 o2 o3 o4 in Hshow.
  split; cbn [showHost]; rewrite Hshow.
  - simpl. by destruct (showDec o1).
  - apply dotted_forallb; [done| |done].
    intros c Hc. by destruct (digit_char c Hc) as (-> & _).
  - intros tail. apply splitHostPort_plain.
    apply (dotted_forallb (λ c, negb (isCode 58 c) && negb (isCode 91 c)
                                && negb (isCode 93 c))); [done| |done].
    intros c Hc. by destruct (digit_char c Hc) as (_ & -> & -> & -> & _).
  - set (S := dotted _).
    assert (Hlow : map Char.toLower S = S).
    { assert (Hc : forallb (λ c, Ascii.eqb (Char.toLower c) c) S = true).
      { apply dotted_forallb; [done| |done]. intros c Hc.
        destruct (digit_char c Hc) as (_ & _ & _ & _ & _ & _ & -> & _).
        apply Ascii.eqb_refl. }
      clear -Hc. induction S as [|c S IH]; [done|]. simpl in *.
      apply andb_true_iff in Hc as [Hc%Ascii.eqb_eq HS].
      by rewrite Hc, (IH HS). }
    assert (Hsplit : splitOn isDot S
                     = [showDec o1; showDec o2; showDec o3; showDec o4])
      by (by apply splitOn_dotted).
    assert (Hdomain : domainToASCII S = Some S).
    { unfold domainToASCII.
      assert (forallb (λ c, code c <? 128) S = true) as ->.
      { apply dotted_forallb; [done| |done]. intros c Hc.
        by destruct (digit_char c Hc) as (_ & _ & _ & _ & _ & _ & _ & _ & ->). }
      assert (hasXnLabel S = false) as ->.
      { unfold hasXnLabel. rewrite Hsplit. cbn [existsb].
        by rewrite !digits_no_xn. }
      rewrite Hlow. subst S. simpl. by destruct (showDec o1). }
    unfold parseHost.
    destruct S as [|c r] eqn:ES.
    { subst S. simpl in ES. by destruct (showDec o1). }
    assert (forallb (λ c, negb (isCode 91 c) && negb (isCode 37 c)
                          && negb (isForbiddenDomain c)) (c :: r) = true)
      as Hplain.
    { rewrite <- ES. apply dotted_forallb; [done| |done]. intros x Hx.
      destruct (digit_char x Hx)
        as (Hh & _ & -> & _ & _ & _ & _ & -> & _).
      unfold isHostChar in Hh. apply andb_true_iff in Hh as [_ ->]. done. }
    assert (isCode 91 c = false) as ->.
    { simpl in Hplain. apply andb_true_iff in Hplain as [Hc _].
      do 2 (apply andb_true_iff in Hc as [Hc _]). by apply negb_true_iff. }
    cbn [negb]. rewrite percentDecode_id.
    2:{ eapply forallb_impl; [|exact Hplain]. intros x Hx.
        do 1 (apply andb_true_iff in Hx as [Hx _]).
        by apply andb_true_iff in Hx as [_ ->]. }
    rewrite Hdomain.
    assert (existsb isForbiddenDomain (c :: r) = false) as ->.
    { apply not_true_is_false. intros (x & Hin & Hx)%existsb_exists.
      rewrite forallb_forall in Hplain. specialize (Hplain x Hin).
      apply andb_true_iff in Hplain as [_ Hf]. by rewrite Hx in Hf. }
    assert (endsInNumber (c :: r) = true) as ->.
    { unfold endsInNumber, dottedPartsRev. rewrite Hsplit.
      cbn [rev app]. destruct (showDec o4) as [|d ds] eqn:E4; [done|].
      rewrite D4. by rewrite bool_decide_false. }
    unfold parseIPv4, dottedPartsRev. rewrite Hsplit. cbn [rev app].
    destruct (showDec o4) as [|d ds] eqn:E4; [done|].
    rewrite <- E4 in P4 |- *.
    cbn [length Nat.ltb Nat.leb]. cbn [mapM]. rewrite P4, P3, P2, P1. simpl.
    assert ((255 <? o3) = false) as -> by (apply N.ltb_ge; lia).
    assert ((255 <? o2) = false) as -> by (apply N.ltb_ge; lia).
    assert ((255 <? o1) = false) as -> by (apply N.ltb_ge; lia).
    simpl. pow256.
    assert ((256 <=? o4) = false) as -> by (apply N.leb_gt; lia).
    simpl. f_equal. f_equal. lia.
Qed.

Lemma ipv4_host_ok l a : parseHost false l = Some (IPv4 a) → HostOk (IPv4 a).
Proof.
  intros H. apply ipv4_ok. revert H. unfold parseHost.
  destruct l as [|c r]; [done|].
  destruct (isCode 91 c).
  { destruct (rev r) as [|e mid]; [done|].
    destruct (isCode 93 e); [|done]. by destruct (parseIPv6 _). }
  simpl. destruct (domainToASCII _) as [d|]; [|done].
  destruct (existsb isForbiddenDomain d); [done|].
  destruct (endsInNumber d); [|done].
  destruct (parseIPv4 d) as [b|] eqn:Hb; [|done].
  intros [= <-]. by eapply parseIPv4_bound.
Qed.

(** ** The authority *)

Lemma tuple_scheme sch tail :
  hasTupleOrigin sch = true →
  parseScheme (sch ++ ":"%char :: tail) = Some (sch, tail)
  ∧ eqChars sch (lit "file") = false ∧ eqChars sch (lit "blob") = false
  ∧ isSpecial sch = true ∧ forallb isPlain sch = true.
Proof.
  unfold hasTupleOrigin. intros (x & Hin & Heq)%existsb_exists.
  apply bool_decide_eq_true in Heq. subst x.
  repeat (destruct Hin as [<-|Hin]; [by vm_compute|]). done.
Qed.



Lemma colon_host_char : isHostChar ":"%char = true.
Proof. by vm_compute. Qed.




(** ** IPv6 hosts *)

Lemma ipv6_char c :
  isIPv6Char c = true →
  isHostChar c = true ∧ isCode 91 c = false ∧ isCode 93 c = false.
Proof.
  revert c.
  assert (H : ∀ c, implb (isIPv6Char c)
                     (isHostChar c && negb (isCode 91 c) && negb (isCode 93 c))
                   = true)
    by (apply forall_ascii; vm_compute; reflexivity).
  intros c Hc. specialize (H c). rewrite Hc in H. cbn [implb] in H.
  do 2 (apply andb_true_iff in H as [H ?]).
  repeat split; try done; by apply negb_true_iff.
Qed.

Lemma hex_char c :
  isHex c = true →
  isCode 58 c = false ∧ isDot c = false ∧ digitVal c ≤ 15.
Proof.
  revert c.
  assert (H : ∀ c, implb (isHex c)
                     (negb (isCode 58 c) && negb (isDot c)
                      && (digitVal c <=? 15)) = true)
    by (apply forall_ascii; vm_compute; reflexivity).
  intros c Hc. specialize (H c). rewrite Hc in H. cbn [implb] in H.
  do 2 (apply andb_true_iff in H as [H ?]).
  repeat split; try by apply negb_true_iff. by apply N.leb_le.
Qed.

Lemma showHex_piece n : n < 65536 → hexOk n = true.
Proof.
  intros Hn. apply (forallBits_spec 16); [vm_compute; reflexivity | simpl; lia].
Qed.

Lemma showHex_facts n :
  n < 65536 →
  forallb isHex (showHex n) = true ∧ showHex n ≠ []
  ∧ (length (showHex n) ≤ 4)%nat
  ∧ (readHex4 4 (showHex n) 0 0%nat).1.1 = n.
Proof.
  intros H%showHex_piece. unfold hexOk in H.
  do 3 (apply andb_true_iff in H as [H ?]).
  destruct (readHex4 _ _ _ _) as [[value len] rest].
  apply andb_true_iff in H0 as [Hv _]. apply N.eqb_eq in Hv.
  repeat split; try done.
  - intros Heq. by rewrite Heq in *.
  - by apply Nat.leb_le.
Qed.

(** Reading the digits of a piece stops where they end. *)
Lemma readHex4_app n s rest value len :
  forallb isHex s = true → (length s ≤ n)%nat →
  match rest with c :: _ => isHex c = false | [] => True end →
  ∃ len', readHex4 n (s ++ rest) value len
          = ((readHex4 n s value len).1.1, len', rest).
Proof.
  revert n value len. induction s as [|c s IH]; intros n value len Hs Hn Hrest.
  - simpl. destruct n, rest as [|d rest]; simpl; eauto.
    rewrite Hrest. eauto.
  - simpl in Hs. apply andb_true_iff in Hs as [Hc Hs].
    destruct n as [|n]; [simpl in Hn; lia|]. simpl. rewrite Hc.
    apply IH; [done|simpl in Hn; lia|done].
Qed.

Lemma readHex4_bound n l value len :
  (readHex4 n l value len).1.1 < (value + 1) * 16 ^ N.of_nat n.
Proof.
  revert l value len. induction n as [|n IH]; intros l value len.
  - simpl. lia.
  - rewrite Nat2N.inj_succ, N.pow_succ_r'. destruct l as [|c l]; simpl.
    + pose proof (N.pow_nonzero 16 (N.of_nat n)). nia.
    + destruct (isHex c) eqn:Hc; simpl.
      * destruct (hex_char c Hc) as (_ & _ & Hd).
        specialize (IH l (value * 16 + digitVal c) (S len)). nia.
      * pose proof (N.pow_nonzero 16 (N.of_nat n)). nia.
Qed.

(** *** The shape of a serialized address *)

Lemma dropZeros_spec l :
  l = replicate (length l - length (dropZeros l)) 0 ++ dropZeros l
  ∧ (length (dropZeros l) ≤ length l)%nat.
Proof.
  induction l as [|p r [IH Hlen]]; [done|].
  destruct p as [|p]; simpl.
  - split; [|lia].
    replace (S (length r) - length (dropZeros r))%nat
      with (S (length r - length (dropZeros r))) by lia.
    simpl. by rewrite <- IH.
  - split; [|lia]. by rewrite Nat.sub_diag.
Qed.

Lemma findCompress_spec l i best k n :
  findCompress l i best = Some (k, n) →
  best = Some (k, n)
  ∨ ((i ≤ k)%nat ∧ l !! (k - i)%nat = Some 0).
Proof.
  revert i best. induction l as [|p r IH]; intros i best; simpl; [by left|].
  intros [H|[Hle Hk]]%IH.
  - destruct (_ && _) eqn:Hrun; [|by left].
    injection H as <- <-. right. split; [lia|]. rewrite Nat.sub_diag.
    destruct p; [done|]. by rewrite andb_false_l in Hrun.
  - right. split; [lia|].
    replace (k - i)%nat with (S (k - S i)) by lia. done.
Qed.

(** Without compression, and after the compressed run. *)
Lemma showPieces_plain l i compress :
  (i + length l = 8)%nat →
  match compress with Some k => (k < i)%nat | None => True end →
  showPieces l i compress false = sepHex l
  ∧ showPieces l i compress true = sepHex (dropZeros l).
Proof.
  revert i. induction l as [|p r IH]; intros i Hi Hc; [done|].
  simpl in Hi.
  destruct (IH (S i)) as [IHf IHt]; [lia|by destruct compress; [lia|]|].
  assert (Hno : bool_decide (compress = Some i) = false).
  { apply bool_decide_eq_false. intros ->. lia. }
  assert (Hshow : showPieces (p :: r) i compress false = sepHex (p :: r)).
  { cbn [showPieces andb]. rewrite Hno, IHf.
    destruct r as [|q r].
    - simpl in Hi. assert (i = 7%nat) as -> by lia. simpl. by rewrite app_nil_r.
    - simpl in Hi. destruct (i =? 7)%nat eqn:E; [apply Nat.eqb_eq in E; lia|].
      done. }
  split; [done|].
  destruct p as [|p]; [exact IHt|].
  cbn [dropZeros]. rewrite <- Hshow. cbn [showPieces andb N.eqb]. done.
Qed.

(** Up to the compressed run. *)
Lemma showPieces_prefix pre rest i k :
  (i + length pre = k)%nat → (k ≤ 7)%nat →
  showPieces (pre ++ rest) i (Some k) false
  = prefixText pre ++ showPieces rest k (Some k) false.
Proof.
  revert i. induction pre as [|p pre IH]; intros i Hi Hk.
  - simpl in *. by assert (i = k) as -> by lia.
  - simpl in Hi. cbn [app showPieces andb].
    rewrite bool_decide_false by (intros [= ->]; lia).
    destruct (i =? 7)%nat eqn:E; [apply Nat.eqb_eq in E; lia|].
    rewrite (IH (S i)) by lia. unfold prefixText. simpl.
    by rewrite <- !app_assoc.
Qed.

(** The serialization of eight pieces, in full. *)
Lemma showIPv6_shape p :
  length p = 8%nat →
  showIPv6 p = sepHex p
  ∨ ∃ pre r,
      p = pre ++ 0 :: r
      ∧ showIPv6 p
        = (match pre with [] => lit ":" | _ => prefixText pre end)
          ++ lit ":" ++ sepHex (dropZeros r).
Proof.
  intros Hlen. unfold showIPv6.
  destruct (findCompress p 0 None) as [[k n]|] eqn:Hfind; simpl.
  - right. apply findCompress_spec in Hfind as [|[_ Hk]]; [done|].
    rewrite Nat.sub_0_r in Hk.
    pose proof (lookup_lt_Some _ _ _ Hk) as Hlt.
    exists (take k p), (drop (S k) p).
    assert (Hp : p = take k p ++ 0 :: drop (S k) p)
      by by rewrite take_drop_middle.
    split; [done|]. rewrite Hp at 1.
    assert (Hlk : length (take k p) = k) by (rewrite length_take; lia).
    assert (Hld : (S k + length (drop (S k) p) = 8)%nat)
      by (rewrite length_drop; lia).
    destruct (showPieces_plain (drop (S k) p) (S k) (Some k) Hld) as [_ Ht];
      [lia|].
    rewrite (showPieces_prefix _ _ 0 k) by lia.
    cbn [showPieces andb]. rewrite bool_decide_true by done. rewrite Ht.
    destruct k as [|k].
    + by rewrite take_0.
    + destruct (take (S k) p) eqn:E; [done|]. by rewrite <- E.
  - left. by apply showPieces_plain.
Qed.

(** *** Parsing a serialized address *)

Lemma showHex_head n :
  n < 65536 →
  ∃ c s, showHex n = c :: s ∧ isCode 58 c = false ∧ isHex c = true.
Proof.
  intros (Hhex & Hne & _)%showHex_facts.
  destruct (showHex n) as [|c s]; [done|]. exists c, s.
  simpl in Hhex. apply andb_true_iff in Hhex as [Hc _].
  by destruct (hex_char c Hc) as (? & _).
Qed.

Lemma sepHex_head p r :
  p < 65536 →
  ∃ c s, sepHex (p :: r) = c :: s ∧ isCode 58 c = false.
Proof.
  intros (c & s & E & Hc & _)%showHex_head.
  destruct r; simpl; rewrite E; eauto.
Qed.

(** One piece, with what follows it. *)
Lemma ipv6Loop_piece fuel p rest acc compress :
  p < 65536 → (length acc < 8)%nat →
  ipv6Loop (S fuel) (showHex p ++ rest) acc compress
  = match rest with
    | [] => ipv6Loop fuel [] (acc ++ [p]) compress
    | d :: rest' =>
        if isCode 58 d then
          match rest' with
          | [] => None
          | _ => ipv6Loop fuel rest' (acc ++ [p]) compress
          end
        else ipv6Loop (S fuel) (showHex p ++ rest) acc compress
    end.
Proof.
  intros Hp Hacc.
  destruct rest as [|d rest'].
  - rewrite app_nil_r.
    destruct (showHex_head p Hp) as (c & s & E & Hc & _).
    destruct (showHex_facts p Hp) as (Hhex & _ & Hlen & Hread).
    destruct (readHex4_app 4 (showHex p) [] 0 0%nat Hhex Hlen I)
      as (len & Hr).
    rewrite app_nil_r, Hread in Hr.
    rewrite E in *. cbn [ipv6Loop].
    assert ((length acc =? 8)%nat = false) as -> by (apply Nat.eqb_neq; lia).
    by rewrite Hc, Hr.
  - destruct (isCode 58 d) eqn:Hd; [|done].
    destruct (showHex_head p Hp) as (c & s & E & Hc & _).
    destruct (showHex_facts p Hp) as (Hhex & _ & Hlen & Hread).
    assert (Hnothex : isHex d = false).
    { destruct (isHex d) eqn:Hx; [|done].
      destruct (hex_char d Hx) as (Hd' & _). congruence. }
    destruct (readHex4_app 4 (showHex p) (d :: rest') 0 0%nat Hhex Hlen Hnothex)
      as (len & Hr).
    rewrite Hread in Hr. rewrite E in *. cbn [app ipv6Loop].
    assert ((length acc =? 8)%nat = false) as -> by (apply Nat.eqb_neq; lia).
    cbn [app] in Hr. rewrite Hc, Hr.
    assert (isDot d = false) as ->.
    { unfold isDot. revert Hd. unfold isCode.
      intros ->%N.eqb_eq. done. }
    by rewrite Hd.
Qed.

(** Pieces separated by colons are read one after the other. *)
Lemma ipv6Loop_sep tail fuel acc compress :
  Forall (λ p, p < 65536) tail → (length acc + length tail ≤ 8)%nat →
  (length (sepHex tail) < fuel)%nat →
  ipv6Loop fuel (sepHex tail) acc compress = Some (acc ++ tail, compress).
Proof.
  intros Htail. revert fuel acc.
  induction Htail as [|p r Hp Hr IH]; intros fuel acc Hlen Hfuel.
  - destruct fuel; [simpl in Hfuel; lia|]. simpl. by rewrite app_nil_r.
  - destruct fuel as [|fuel]; [lia|]. simpl in Hlen.
    destruct r as [|q r].
    + cbn [sepHex] in *. rewrite <- (app_nil_r (showHex p)).
      rewrite ipv6Loop_piece by (done || lia).
      destruct fuel as [|fuel].
      { destruct (showHex_head p Hp) as (c & s & E & _).
        rewrite E in Hfuel. simpl in Hfuel. lia. }
      done.
    + change (sepHex (p :: q :: r))
        with (showHex p ++ ":"%char :: sepHex (q :: r)) in *.
      rewrite ipv6Loop_piece by (done || lia).
      change (isCode 58 ":"%char) with true. cbn match.
      destruct (sepHex_head q r) as (c & s & E & _); [by inversion Hr|].
      rewrite E. rewrite <- E.
      rewrite IH.
      * by rewrite <- app_assoc.
      * rewrite length_app. cbn [length] in *. lia.
      * rewrite length_app in Hfuel. cbn [length] in Hfuel. lia.
Qed.

(** Pieces followed by a colon each, then the compression. *)
Lemma ipv6Loop_prefix pre tail fuel acc :
  Forall (λ p, p < 65536) pre → Forall (λ p, p < 65536) tail →
  (length acc + length pre + 1 + length tail ≤ 8)%nat →
  (length (prefixText pre ++ lit ":" ++ sepHex tail) < fuel)%nat →
  ipv6Loop fuel (prefixText pre ++ lit ":" ++ sepHex tail) acc None
  = Some (acc ++ pre ++ 0 :: tail, Some (S (length acc + length pre))).
Proof.
  intros Hpre Htail. revert fuel acc.
  induction Hpre as [|p r Hp Hr IH]; intros fuel acc Hlen Hfuel.
  - destruct fuel as [|fuel]; [lia|]. simpl in *.
    assert ((length acc =? 8)%nat = false) as -> by (apply Nat.eqb_neq; lia).
    change (isCode 58 ":"%char) with true. cbn match.
    rewrite ipv6Loop_sep; [|done|rewrite length_app; simpl; lia|lia].
    by rewrite <- app_assoc, Nat.add_0_r.
  - destruct fuel as [|fuel]; [lia|]. simpl in Hlen.
    unfold prefixText in *. cbn [flat_map] in *.
    rewrite <- !app_assoc in *.
    rewrite ipv6Loop_piece by (done || lia).
    set (rest := flat_map _ r ++ _) in *.
    change (lit ":" ++ rest) with (":"%char :: rest) in *.
    change (isCode 58 ":"%char) with true. cbn match.
    assert (Hrest : rest ≠ []).
    { subst rest. destruct (flat_map _ r); done. }
    assert (Hgo : ∀ x : option (list N * option nat),
              match rest with [] => None | _ :: _ => x end = x)
      by (by destruct rest).
    rewrite Hgo. subst rest. rewrite IH.
    + rewrite <- app_assoc. simpl. f_equal. f_equal. f_equal.
      rewrite length_app. simpl. lia.
    + rewrite length_app. simpl. lia.
    + rewrite length_app in Hfuel. cbn [length] in Hfuel. lia.
Qed.

Lemma parseIPv6_show p :
  length p = 8%nat → Forall (λ x, x < 65536) p →
  parseIPv6 (showIPv6 p) = Some p.
Proof.
  intros Hlen Hp.
  destruct (showIPv6_shape p Hlen) as [->|(pre & r & Hsplit & ->)].
  - destruct p as [|p0 r]; [done|].
    destruct (sepHex_head p0 r) as (c & s & E & Hc); [by inversion Hp|].
    unfold parseIPv6. rewrite E, Hc, <- E.
    rewrite ipv6Loop_sep; [|done|simpl in *; lia|lia].
    cbn [app]. by rewrite Hlen.
  - assert (Hparts : Forall (λ x, x < 65536) pre
                     ∧ Forall (λ x, x < 65536) (dropZeros r)
                     ∧ (length pre + S (length r) = 8)%nat).
    { rewrite Hsplit in Hp, Hlen. apply Forall_app in Hp as [Hpre Hr].
      apply Forall_inv_tail in Hr. rewrite length_app in Hlen.
      repeat split; [done| |done].
      destruct (dropZeros_spec r) as [Hr' _]. rewrite Hr' in Hr.
      by apply Forall_app in Hr as [_ ?]. }
    destruct Hparts as (Hpre & Htail & Hlens).
    destruct (dropZeros_spec r) as [Hr Hle].
    set (tail := dropZeros r) in *.
    destruct pre as [|q pre'].
    + unfold parseIPv6. cbn match.
      change (lit ":" ++ lit ":" ++ sepHex tail)
        with (":"%char :: ":"%char :: sepHex tail).
      cbn match. change (isCode 58 ":"%char) with true. cbn match.
      rewrite ipv6Loop_sep; [|done|simpl in *; lia|lia].
      simpl in Hlens. rewrite Hsplit, Hr at 1. simpl.
      rewrite drop_0.
      replace (7 - length tail)%nat with (length r - length tail)%nat by lia.
      done.
    + remember (q :: pre') as pre eqn:Epre.
      assert (Hhead : ∃ c s, prefixText pre ++ lit ":" ++ sepHex tail = c :: s
                             ∧ isCode 58 c = false).
      { destruct (showHex_head q) as (c & s & E & Hc & _).
        { rewrite Epre in Hpre. by inversion Hpre. }
        exists c. eexists. rewrite Epre. unfold prefixText. cbn [flat_map].
        rewrite E. by split. }
      destruct Hhead as (c & s & E & Hc).
      unfold parseIPv6. rewrite E, Hc, <- E.
      rewrite ipv6Loop_prefix; [|done|done|simpl; lia|lia].
      cbn [app length Nat.add].
      rewrite (cons_middle 0 pre tail), !(app_assoc pre [0] tail).
      rewrite take_app_length' by (rewrite length_app; simpl; lia).
      rewrite drop_app_length' by (rewrite length_app; simpl; lia).
      rewrite !length_app. cbn [length].
      rewrite Hsplit, Hr at 1. rewrite <- app_assoc. simpl.
      do 4 f_equal. apply (f_equal (λ n, replicate n 0)). lia.
Qed.

(** *** What the IPv6 parser returns *)

Lemma readIPv4Piece_ok l acc v rest :
  readIPv4Piece l acc = Some (v, rest) →
  (∀ v0, acc = Some v0 → v0 ≤ 255) → v ≤ 255.
Proof.
  revert acc. induction l as [|c r IH]; intros acc; simpl.
  - destruct acc as [v0|]; [|done]. intros [= <- _] H. by apply H.
  - destruct (isDigit c) eqn:Hc.
    + assert (Hd : digitVal c ≤ 15).
      { apply hex_char. unfold isHex. by rewrite Hc. }
      destruct acc as [[|v0]|].
      * done.
      * destruct (255 <? _) eqn:Hle; [done|]. intros H _.
        apply (IH _ H). intros ? [= <-]. by apply N.ltb_ge.
      * intros H _. apply (IH _ H). intros ? [= <-]. lia.
    + destruct acc as [v0|]; [|done]. intros [= <- _] H. by apply H.
Qed.

Lemma readIPv4Tail_ok fuel l seen out :
  readIPv4Tail fuel l seen = Some out →
  Forall (λ x, x ≤ 255) seen → Forall (λ x, x ≤ 255) out.
Proof.
  revert l seen. induction fuel as [|fuel IH]; intros l seen; [done|].
  simpl. destruct l as [|c r].
  - destruct (_ =? _)%nat; [|done]. by intros [= <-].
  - destruct (match seen with [] => _ | _ => _ end) as [l1|]; [|done].
    destruct (readIPv4Piece l1 None) as [[v rest]|] eqn:Hpiece; [|done].
    intros H Hseen. apply (IH _ _ H). apply Forall_app. split; [done|].
    constructor; [|done]. by eapply readIPv4Piece_ok.
Qed.

Lemma ipv6Loop_ok fuel l acc compress out compress' :
  ipv6Loop fuel l acc compress = Some (out, compress') →
  Forall (λ x, x < 65536) acc → (length acc ≤ 8)%nat →
  Forall (λ x, x < 65536) out ∧ (length out ≤ 8)%nat.
Proof.
  revert l acc compress. induction fuel as [|fuel IH]; intros l acc compress;
    [done|].
  cbn [ipv6Loop]. destruct l as [|c r]; [by intros [= <- _]|].
  destruct (length acc =? 8)%nat eqn:Hlen; [done|]. apply Nat.eqb_neq in Hlen.
  assert (Hgrow : ∀ x, x < 65536 → Forall (λ x, x < 65536) acc →
                       (length acc ≤ 8)%nat →
                       Forall (λ x, x < 65536) (acc ++ [x])
                       ∧ (length (acc ++ [x]) ≤ 8)%nat).
  { intros x Hx Hacc Hle. split.
    - apply Forall_app. split; [done|]. by constructor.
    - rewrite length_app. simpl. lia. }
  destruct (isCode 58 c).
  - destruct compress; [done|]. intros H Hacc Hle.
    destruct (Hgrow 0) as [? ?]; [done..|]. by apply (IH _ _ _ H).
  - pose proof (readHex4_bound 4 (c :: r) 0 0%nat) as Hbound.
    destruct (readHex4 4 (c :: r) 0 0%nat) as [[value len] rest].
    simpl in Hbound.
    destruct rest as [|d rest'].
    + intros H Hacc Hle.
      destruct (Hgrow value) as [? ?]; [done..|]. by apply (IH _ _ _ H).
    + destruct (isDot d).
      * destruct (len =? 0)%nat; [done|].
        destruct (6 <? length acc)%nat eqn:H6; [done|].
        apply Nat.ltb_ge in H6.
        destruct (readIPv4Tail _ _ _) as [out4|] eqn:Htail; [|done].
        apply readIPv4Tail_ok in Htail; [|done].
        destruct out4 as [|a [|b [|c' [|e [|? ?]]]]]; try done.
        intros [= <- _] Hacc Hle.
        apply Forall_cons in Htail as [Ha Htail].
        apply Forall_cons in Htail as [Hb Htail].
        apply Forall_cons in Htail as [Hc' Htail].
        apply Forall_cons in Htail as [He _].
        split.
        -- apply Forall_app. split; [done|].
           constructor; [lia|]. constructor; [lia|done].
        -- rewrite length_app. simpl. lia.
      * destruct (isCode 58 d); [|done]. destruct rest'; [done|].
        intros H Hacc Hle.
        destruct (Hgrow value) as [? ?]; [done..|]. by apply (IH _ _ _ H).
Qed.

Lemma parseIPv6_ok l p :
  parseIPv6 l = Some p → length p = 8%nat ∧ Forall (λ x, x < 65536) p.
Proof.
  unfold parseIPv6.
  destruct (match l with [] => _ | _ => _ end)
    as [[[l1 acc0] compress0]|] eqn:Hstart; [|done].
  assert (Hacc0 : Forall (λ x, x < 65536) acc0 ∧ (length acc0 ≤ 8)%nat).
  { assert (Hnil : Forall (λ x, x < 65536) [] ∧ (length (@nil N) ≤ 8)%nat)
      by (split; [constructor|simpl; lia]).
    destruct l as [|c r]; [by injection Hstart as <- <- <-|].
    destruct (isCode 58 c); [|by injection Hstart as <- <- <-].
    destruct r as [|c2 r2]; [done|]. destruct (isCode 58 c2); [|done].
    injection Hstart as <- <- <-. split; [|simpl; lia].
    by constructor. }
  destruct Hacc0 as [Hacc0 Hlen0].
  destruct (ipv6Loop _ _ _ _) as [[acc [k|]]|] eqn:Hloop; [| |done].
  - destruct (ipv6Loop_ok _ _ _ _ _ _ Hloop Hacc0 Hlen0) as [Hacc Hlen].
    intros [= <-]. split.
    + rewrite !length_app, length_replicate.
      pose proof (take_drop k acc) as Htd.
      apply (f_equal length) in Htd. rewrite length_app in Htd. lia.
    + rewrite <- (take_drop k acc) in Hacc.
      apply Forall_app in Hacc as [? ?].
      repeat (apply Forall_app; split); try done.
      by apply Forall_replicate.
  - destruct (ipv6Loop_ok _ _ _ _ _ _ Hloop Hacc0 Hlen0) as [Hacc Hlen].
    destruct (_ =? _)%nat eqn:E; [|done]. apply Nat.eqb_eq in E.
    by intros [= <-].
Qed.

(** *** A parsed IPv6 host *)

Lemma sepHex_chars l :
  Forall (λ x, x < 65536) l → forallb isIPv6Char (sepHex l) = true.
Proof.
  induction 1 as [|p r Hp Hr IH]; [done|].
  destruct (showHex_facts p Hp) as (Hhex & _).
  assert (Hshow : forallb isIPv6Char (showHex p) = true).
  { eapply forallb_impl; [|exact Hhex]. intros c Hc.
    unfold isIPv6Char. by rewrite Hc. }
  destruct r as [|q r]; [done|].
  change (sepHex (p :: q :: r))
    with (showHex p ++ ":"%char :: sepHex (q :: r)).
  rewrite forallb_app, Hshow. cbn [forallb andb]. by rewrite IH.
Qed.

Lemma prefixText_chars l :
  Forall (λ x, x < 65536) l → forallb isIPv6Char (prefixText l) = true.
Proof.
  induction 1 as [|p r Hp Hr IH]; [done|].
  destruct (showHex_facts p Hp) as (Hhex & _).
  unfold prefixText in *. cbn [flat_map]. rewrite !forallb_app, IH.
  rewrite andb_true_r. apply andb_true_iff. split; [|done].
  eapply forallb_impl; [|exact Hhex]. intros c Hc.
  unfold isIPv6Char. by rewrite Hc.
Qed.

Lemma showIPv6_chars p :
  length p = 8%nat → Forall (λ x, x < 65536) p →
  forallb isIPv6Char (showIPv6 p) = true.
Proof.
  intros Hlen Hp.
  destruct (showIPv6_shape p Hlen) as [->|(pre & r & Hsplit & ->)].
  { by apply sepHex_chars. }
  rewrite Hsplit in Hp. apply Forall_app in Hp as [Hpre Hr].
  apply Forall_inv_tail in Hr.
  destruct (dropZeros_spec r) as [Hr' _]. rewrite Hr' in Hr.
  apply Forall_app in Hr as [_ Htail].
  rewrite !forallb_app, (sepHex_chars _ Htail), andb_true_r.
  assert (forallb isIPv6Char
            (match pre with [] => lit ":" | _ => prefixText pre end) = true)
    as -> by (destruct pre; [done|by apply prefixText_chars]).
  done.
Qed.

(** Inside the square brackets a colon does not end the host. *)
Lemma splitHostPort_inside s tail :
  forallb isIPv6Char s = true →
  splitHostPort true (s ++ "]"%char :: tail)
  = (s ++ "]"%char :: (splitHostPort false tail).1,
     (splitHostPort false tail).2).
Proof.
  induction s as [|c s IH]; intros Hs.
  - simpl. by destruct (splitHostPort false tail).
  - simpl in Hs. apply andb_true_iff in Hs as [Hc Hs].
    destruct (ipv6_char c Hc) as (_ & Hopen & Hclose).
    cbn [app splitHostPort negb]. rewrite andb_false_r, Hopen, Hclose.
    by rewrite (IH Hs).
Qed.

Lemma ipv6_ok l p : parseIPv6 l = Some p → HostOk (IPv6 p).
Proof.
  intros [Hlen Hp]%parseIPv6_ok.
  pose proof (showIPv6_chars p Hlen Hp) as Hchars.
  split.
  - done.
  - cbn [showHost]. rewrite !forallb_app. cbn [lit].
    apply andb_true_iff. split; [by vm_compute|].
    apply andb_true_iff. split; [|by vm_compute].
    eapply forallb_impl; [|exact Hchars]. intros c Hc.
    by destruct (ipv6_char c Hc) as (? & _).
  - intros tail. cbn [showHost].
    change (lit "[" ++ showIPv6 p ++ lit "]")
      with ("["%char :: showIPv6 p ++ ["]"%char]).
    cbn [app splitHostPort negb].
    change (isCode 58 "["%char) with false.
    change (isCode 91 "["%char) with true. cbn [andb].
    rewrite <- !app_assoc. cbn [app].
    by rewrite splitHostPort_inside.
  - cbn [showHost].
    change (lit "[" ++ showIPv6 p ++ lit "]")
      with ("["%char :: showIPv6 p ++ ["]"%char]).
    cbn [parseHost]. change (isCode 91 "["%char) with true. cbn match.
    rewrite rev_app_distr. cbn [rev app].
    change (isCode 93 "]"%char) with true. cbn match.
    by rewrite rev_involutive, parseIPv6_show.
Qed.
(** ** What the parser returns for a scheme with a tuple origin *)

Lemma tuple_special sch : hasTupleOrigin sch = true → isSpecial sch = true.
Proof. intros H. by destruct (tuple_scheme sch [] H) as (_ & _ & _ & ? & _). Qed.

Lemma tuple_not_file sch :
  hasTupleOrigin sch = true → eqChars sch (lit "file") = false.
Proof. intros H. by destruct (tuple_scheme sch [] H) as (_ & ? & _). Qed.

Lemma parseFile_scheme l p : parseFile l = Some p → scheme p = lit "file".
Proof.
  unfold parseFile. intros H.
  repeat match type of H with
         | Some _ = Some _ => injection H as <-; reflexivity
         | None = Some _ => discriminate
         | context [match ?x with _ => _ end] => destruct x
         end.
Qed.

Lemma parseAfterAuthority_ok rest p q f :
  parseAfterAuthority true false rest = (p, q, f) →
  ∃ segs, p = ListPath segs ∧ Forall SegOk segs ∧ segs ≠ [].
Proof.
  unfold parseAfterAuthority.
  assert (Hstart : match rest with
                   | c :: _ => true || negb (isQueryOrFragmentStart c)
                   | [] => true
                   end = true) by by destruct rest.
  rewrite Hstart.
  destruct (breakAt _ _) as [p' qf]. destruct (parseQueryFragment _ _).
  intros [= <- _ _]. eexists. split; [done|]. apply parsePathState_ok.
Qed.

Lemma parseHost_ok l h : parseHost false l = Some h → HostOk h.
Proof.
  intros H. destruct h as [d|a|p|o|].
  - by eapply domain_ok.
  - by eapply ipv4_host_ok.
  - unfold parseHost in H. destruct l as [|c r]; [done|].
    destruct (isCode 91 c).
    + destruct (rev r) as [|e mid]; [done|]. destruct (isCode 93 e); [|done].
      destruct (parseIPv6 (rev mid)) eqn:E; [|done].
      injection H as ->. by eapply ipv6_ok.
    + destruct (domainToASCII _); [|done]. destruct (existsb _ _); [done|].
      destruct (endsInNumber _); [|done]. by destruct (parseIPv4 _).
  - unfold parseHost in H. destruct l as [|c r]; [done|].
    destruct (isCode 91 c).
    + destruct (rev r) as [|e mid]; [done|]. destruct (isCode 93 e); [|done].
      by destruct (parseIPv6 (rev mid)).
    + destruct (domainToASCII _); [|done]. destruct (existsb _ _); [done|].
      destruct (endsInNumber _); [|done]. by destruct (parseIPv4 _).
  - unfold parseHost in H. destruct l as [|c r]; [done|].
    destruct (isCode 91 c).
    + destruct (rev r) as [|e mid]; [done|]. destruct (isCode 93 e); [|done].
      by destruct (parseIPv6 (rev mid)).
    + destruct (domainToASCII _); [|done]. destruct (existsb _ _); [done|].
      destruct (endsInNumber _); [|done]. by destruct (parseIPv4 _).
Qed.

Lemma parseAuthority_ok sch l p :
  parseAuthority sch true l = Some p →
  scheme p = sch ∧ ∃ h segs, TupleOk p h segs.
Proof.
  unfold parseAuthority.
  destruct (breakAt _ l) as [authority rest].
  destruct (splitCredentials authority) as [cred hostport].
  destruct (_ && _); [done|].
  destruct (splitHostPort false hostport) as [hostText portText].
  destruct (_ && _); [done|]. cbn [negb].
  destruct (parseHost false hostText) as [h|] eqn:Hh; [|done].
  destruct (parsePort sch _) as [prt|] eqn:Hp; [|done].
  destruct (match cred with Some _ => _ | None => _ end) as [user pass].
  destruct (parseAfterAuthority true false rest) as [[pth q] f] eqn:Hpath.
  intros [= <-]. split; [done|].
  destruct (parseAfterAuthority_ok _ _ _ _ Hpath) as (segs & -> & Hsegs & Hne).
  exists h, segs. split; simpl; try done.
  - by eapply parseHost_ok.
  - intros n ->. by eapply parsePort_ok.
Qed.

Lemma basicParse_ok input p :
  basicParse input = Some p → hasTupleOrigin (scheme p) = true →
  ∃ h segs, TupleOk p h segs.
Proof.
  unfold basicParse. destruct (parseScheme _) as [[sch rest]|]; [|done].
  destruct (eqChars sch (lit "file")) eqn:Hfile.
  { intros ->%parseFile_scheme. by vm_compute. }
  destruct (isSpecial sch) eqn:Hspecial.
  { by intros (_ & ?)%parseAuthority_ok. }
  intros H Ht. apply tuple_special in Ht.
  assert (scheme p = sch) as Hs; [|by rewrite Hs, Hspecial in Ht].
  clear Ht. unfold parseAuthority in H.
  repeat match type of H with
         | Some _ = Some _ => injection H as <-; reflexivity
         | None = Some _ => discriminate
         | context [match ?x with _ => _ end] => destruct x
         end.
Qed.
(** ** Trailing slashes of a serialized path *)







(** ** The normalizers on a URL with a tuple origin *)



Lemma trimSegs_root : trimSegs [[]] = trimSegs [].
Proof. done. Qed.





(** ** The normalizers on a URL with an opaque origin *)





Lemma basicParse_null : basicParse (lit "null") = None.
Proof. by vm_compute. Qed.




(** ** Idempotence of the normalizers *)

Lemma tuple_list_path url p :
  parse url = Some p → hasTupleOrigin (scheme p) = true →
  ∃ segs, path p = ListPath segs.
Proof.
  intros Hparse Ht.
  destruct (basicParse_ok _ _ Hparse Ht) as (h & segs & Hok).
  exists segs. apply (tuple_path _ _ _ Hok).
Qed.


Import Hosts.

(** ** URLs whose host needs no Unicode processing *)


(** On a plain domain, "domain to ASCII" is lower-casing. *)
Lemma domainToASCII_plain l :
  plainDomain l = true → l ≠ [] → domainToASCII l = Some (map toLower l).
Proof.
  unfold plainDomain, domainToASCII. intros -> Hne. by destruct l.
Qed.







(** * More about the crawl loop *)

(** ** The queue and the end of the crawl *)

Section Termination.

Context (ROOT : string) (browser : Browser).

Abbreviation step := (step ROOT browser).
Abbreviation run := (run ROOT browser).

Lemma queue_fresh n u rest :
  queue (run n) = u :: rest → normalizeUrl u ∉ visited (run n).
Proof.
  intros Hq. apply (inv_queue_fresh ROOT _ (Inv_run ROOT browser n)).
  rewrite Hq. by left.
Qed.

(** As long as the loop runs, every turn opens one target. *)
Lemma running_count n :
  phase (run n) = Running → length (navigated (run n)) = n.
Proof.
  induction n as [|n IH]; [done|]. rewrite run_succ. intros Hp.
  destruct (decide (phase (run n) = Running)) as [Hr|Hr].
  2:{ rewrite step_idle in Hp by done. done. }
  destruct (queue (run n)) as [|u rest] eqn:Hq.
  { rewrite step_finish in Hp by done. done. }
  destruct (step_shape ROOT browser _ u rest Hr Hq (queue_fresh n u rest Hq))
    as (f & new & _ & _ & _ & Hnav & _).
  rewrite Hnav, length_app, (IH Hr). simpl. lia.
Qed.

(** The links of the result that a turn adds are anchors of its page. *)
Lemma Emitted_links v seen rest c c' u r :
  Emitted ROOT browser v seen rest c c' u r →
  links r = []
  ∨ ∃ allLinks, anchors v = Some allLinks ∧ links r ⊆ allLinks.
Proof.
  unfold Emitted.
  pose proof (deliver_stable (navEvents v)
                (setupErrorHandling (newPageResult u))) as H0.
  destruct (isDocumentUrl u).
  { intros [-> _]. left. by rewrite checkDocumentUrl_links. }
  destruct (navigation v) as [st|message].
  2:{ intros [-> _]. left. simpl. by rewrite (st_links _ _ H0). }
  intros (t & allLinks & analysis & brokenList & _ & Ha & _ & ->).
  right. exists allLinks. split; [done|].
  match goal with |- context [deliver (laterEvents v) ?x] =>
    pose proof (deliver_stable (laterEvents v) x) as H1 end.
  rewrite (st_links _ _ H1). simpl.
  destruct (discover_spec ROOT seen allLinks rest) as (_ & _ & Hall & _).
  intros l Hl. rewrite Forall_forall in Hall. by destruct (Hall l Hl).
Qed.

Section Finite.

Context (L : list string).
Hypothesis anchors_in :
  ∀ k u allLinks, anchors (visit browser k u) = Some allLinks → allLinks ⊆ L.

Lemma targets_within n :
  ∀ q, q ∈ queue (run n) ++ navigated (run n) → q ∈ ROOT :: L.
Proof.
  induction n as [|n IH].
  { intros q [Hq|Hq]%elem_of_app; [|by apply elem_of_nil in Hq].
    apply list_elem_of_singleton in Hq as ->. by left. }
  rewrite run_succ.
  destruct (decide (phase (run n) = Running)) as [Hr|Hr].
  2:{ by rewrite step_idle. }
  destruct (queue (run n)) as [|u rest] eqn:Hq.
  { rewrite step_finish by done. simpl. intros q Hin. by apply IH. }
  destruct (step_turn ROOT browser _ u rest Hr Hq (queue_fresh n u rest Hq))
    as (f & new & _ & _ & _ & Hnav & Hqueue & _ & Hnew).
  rewrite Hnav, Hqueue. intros q Hin.
  pose proof IH as Hold.
  rewrite !elem_of_app in Hin.
  destruct Hin as [[Hin|Hin]|[Hin|Hin]].
  - apply Hold. right. apply elem_of_app. by left.
  - destruct Hnew as [[-> _]|(r & -> & _ & _ & _ & Hem)].
    { by apply elem_of_nil in Hin. }
    simpl in Hin. rewrite app_nil_r in Hin.
    destruct (Emitted_links _ _ _ _ _ _ _ Hem) as [Hl|(allLinks & Ha & Hl)].
    { rewrite Hl in Hin. by apply elem_of_nil in Hin. }
    right. eapply anchors_in; [exact Ha|]. by apply Hl.
  - apply Hold. right. apply elem_of_app. by right.
  - apply list_elem_of_singleton in Hin as ->. apply Hold. by left.
Qed.

Lemma navigated_bound n : (length (navigated (run n)) ≤ S (length L))%nat.
Proof.
  change (S (length L)) with (length (ROOT :: L)).
  apply submseteq_length, NoDup_submseteq.
  - eapply NoDup_fmap_1, (inv_navigated_nodup ROOT _ (Inv_run ROOT browser n)).
  - intros x Hx. apply (targets_within n). apply elem_of_app. by right.
Qed.

Lemma stops_within : phase (run (length L + 2)) ≠ Running.
Proof.
  intros Hp. pose proof (running_count _ Hp).
  pose proof (navigated_bound (length L + 2)). lia.
Qed.

End Finite.

Lemma run_idle n k : phase (run n) ≠ Running → run (n + k) = run n.
Proof.
  intros Hp. induction k as [|k IH]; [by rewrite Nat.add_0_r|].
  rewrite Nat.add_succ_r, run_succ, IH. by apply step_idle.
Qed.

End Termination.

(** The check of [visited] at the head of the loop never fires: the
    identity of the target that a turn takes from the queue is not in
    [visited], so the turn opens it. *)
Theorem dequeued_target_is_new (ROOT : string) (browser : Browser)
    (n : nat) (u : string) (rest : list string) :
  phase (run ROOT browser n) = Running →
  queue (run ROOT browser n) = u :: rest →
  (normalizeUrl u ∉ visited (run ROOT browser n))
  ∧ navigated (run ROOT browser (S n)) = navigated (run ROOT browser n) ++ [u]
  ∧ visited (run ROOT browser (S n))
    = {[normalizeUrl u]} ∪ visited (run ROOT browser n).
Proof.
  intros Hp Hq. pose proof (queue_fresh ROOT browser n u rest Hq) as Hv.
  split; [done|]. rewrite run_succ.
  destruct (step_shape ROOT browser _ u rest Hp Hq Hv)
    as (f & new & _ & _ & ? & ? & _). done.
Qed.

Lemma dequeued_target_is_new_witness :
  navigated (run "https://x.com" exampleSite 2)
  = ["https://x.com"; "https://x.com/a"].
Proof.
  destruct (dequeued_target_is_new "https://x.com" exampleSite 1
              "https://x.com/a" ["https://x.com/b"])
    as (_ & H & _); [reflexivity | reflexivity |].
  rewrite H. reflexivity.
Defined.

(** The crawl of a site with finitely many links ends.  When every
    anchor that the browser ever reports is in the list [L], the loop
    has stopped after [length L + 2] turns, with at most [length L + 1]
    results, and nothing changes afterwards; on a browser where nothing
    rejects after a successful navigation it has stopped because the
    queue is empty. *)
Theorem crawl_ends (ROOT : string) (browser : Browser) (L : list string) :
  (∀ k u allLinks,
     anchors (visit browser k u) = Some allLinks → allLinks ⊆ L) →
  let s := run ROOT browser (length L + 2) in
  phase s ≠ Running
  ∧ (length (results s) ≤ length L + 1)%nat
  ∧ (∀ k, run ROOT browser (length L + 2 + k) = s)
  ∧ (calm browser → phase s = Finished ∧ queue s = []).
Proof.
  intros HL s.
  pose proof (stops_within ROOT browser L HL) as Hstop. fold s in Hstop.
  split; [done|]. split; [|split].
  - pose proof (navigated_bound ROOT browser L HL (length L + 2)) as Hb.
    destruct (inv_navigated ROOT _ (Inv_run ROOT browser (length L + 2)))
      as (extra & Hn & _).
    fold s in Hb, Hn. rewrite Hn, length_app, length_fmap in Hb. lia.
  - intros k. by apply run_idle.
  - intros Hcalm.
    destruct (calm_run ROOT browser (length L + 2) Hcalm) as [Hab Hq].
    fold s in Hab, Hq.
    assert (Hfin : phase s = Finished) by (by destruct (phase s)).
    split; [done|]. by destruct Hq as [?|[? _]].
Qed.

Lemma crawl_ends_witness :
  let L := [ "https://x.com/a"; "https://x.com/b"; "https://x.com/a/";
             "https://other.com/page"; "https://other.com/f.pdf";
             "https://x.com/"; "https://x.com/c"; "https://x.com/b#x" ] in
  phase (run "https://x.com" exampleSite (length L + 2)) = Finished.
Proof.
  intros L.
  destruct (crawl_ends "https://x.com" exampleSite L) as (_ & _ & _ & H).
  - intros k u allLinks. unfold exampleSite, htmlVisit, failedVisit. simpl.
    repeat case_bool_decide; simpl; intros [= <-]; intros x Hx;
      repeat (apply elem_of_cons in Hx as [->|Hx]; [set_solver|]);
      by apply elem_of_nil in Hx.
  - by destruct (H calm_exampleSite).
Defined.


(** ** The listeners *)

Lemma grown_refl r : grown r r.
Proof. by repeat split. Qed.

Lemma grown_trans a b c : grown a b → grown b c → grown a c.
Proof.
  intros (? & ? & ? & ? & ?) (? & ? & ? & ? & ?).
  repeat split; by etrans.
Qed.

Lemma push_spec k m r :
  armed r →
  armed (push k m r) ∧ grown r (push k m r)
  ∧ recorded (push k m r) = S (recorded r).
Proof.
  intros ([b Hb] & [n Hn] & [w Hw]). unfold armed, grown, recorded, push.
  destruct k; simpl; rewrite Hb, Hn, Hw; simpl;
    rewrite ?length_app; simpl;
    (split; [by repeat split|]); (split; [|try lia]);
    repeat split; try done; try by apply prefix_app_r.
Qed.

Lemma listener_spec e r :
  armed r →
  armed (listener e r) ∧ grown r (listener e r)
  ∧ recorded (listener e r)
    = (recorded r + if reportable e then 1 else 0)%nat.
Proof.
  intros Ha.
  assert (Hsame : armed r ∧ grown r r ∧ recorded r = (recorded r + 0)%nat)
    by (split; [done|split; [apply grown_refl|lia]]).
  assert (Hpush : ∀ k m, armed (push k m r) ∧ grown r (push k m r)
                         ∧ recorded (push k m r) = (recorded r + 1)%nat).
  { intros k m. destruct (push_spec k m r Ha) as (? & ? & ->).
    split; [done|]. split; [done|lia]. }
  destruct e as [message|type text'|st responseUrl];
    cbn [listener reportable].
  - destruct (existsb (contains message) benignPageErrors); apply Hpush.
  - repeat case_bool_decide; cbn [orb]; try done;
      try destruct (existsb (contains text') benignConsoleErrors);
      apply Hpush.
  - destruct (400 <=? st); [apply Hpush | done].
Qed.

Lemma fold_listener_spec events r :
  armed r →
  let r' := fold_left (λ r' e, listener e r') events r in
  armed r' ∧ grown r r'
  ∧ recorded r' = (recorded r + length (List.filter reportable events))%nat.
Proof.
  revert r. induction events as [|e events IH]; intros r Ha; simpl.
  { split; [done|]. split; [apply grown_refl|lia]. }
  destruct (listener_spec e r Ha) as (Ha1 & Hg1 & Hr1).
  destruct (IH _ Ha1) as (Ha2 & Hg2 & Hr2).
  split; [done|]. split; [by eapply grown_trans|].
  rewrite Hr2, Hr1. destruct (reportable e); simpl; lia.
Qed.

Lemma armed_listening r : armed r → hasListeners r = true.
Proof. intros (? & _). by apply bool_decide_eq_true. Qed.

Lemma deliver_spec events r :
  armed r →
  armed (deliver events r) ∧ grown r (deliver events r)
  ∧ recorded (deliver events r)
    = (recorded r + length (List.filter reportable events))%nat.
Proof.
  intros Ha. unfold deliver. rewrite (armed_listening r Ha).
  by apply fold_listener_spec.
Qed.

Lemma deliver_idle events r : hasListeners r = false → deliver events r = r.
Proof. intros H. unfold deliver. by rewrite H. Qed.

Lemma deliver_nil r : deliver [] r = r.
Proof. unfold deliver. by destruct (hasListeners r). Qed.

(** Where a recorded event is found. *)
Lemma listener_records e r :
  armed r →
  match e with
  | PageError m =>
      m ∈ jsErrors (listener e r) ++ default [] (benignErrors (listener e r))
  | ConsoleMessage type m =>
      type = "error" →
      m ∈ consoleErrors (listener e r)
          ++ default [] (benignErrors (listener e r))
  | ResponseSeen st responseUrl =>
      400 ≤ st →
      text (showDec st) +:+ " - " +:+ responseUrl
      ∈ default [] (networkErrors (listener e r))
  end.
Proof.
  intros ([b Hb] & [n Hn] & [w Hw]).
  destruct e as [m|type m|st responseUrl]; cbn [listener].
  - destruct (existsb (contains m) benignPageErrors); simpl; rewrite ?Hb;
      simpl; set_solver.
  - intros ->. rewrite bool_decide_true by done.
    destruct (existsb (contains m) benignConsoleErrors); simpl; rewrite ?Hb;
      simpl; set_solver.
  - intros Hst. apply N.leb_le in Hst. rewrite Hst. simpl. rewrite Hn. simpl.
    set_solver.
Qed.

Lemma grown_elem r r' :
  grown r r' →
  (∀ m, m ∈ jsErrors r ++ default [] (benignErrors r) →
        m ∈ jsErrors r' ++ default [] (benignErrors r'))
  ∧ (∀ m, m ∈ consoleErrors r ++ default [] (benignErrors r) →
          m ∈ consoleErrors r' ++ default [] (benignErrors r'))
  ∧ (∀ m, m ∈ default [] (networkErrors r) →
          m ∈ default [] (networkErrors r')).
Proof.
  intros ([j ->] & [c ->] & [b ->] & [n ->] & _).
  repeat split; intros m; rewrite !elem_of_app; tauto.
Qed.

Lemma fold_listener_records events r e :
  armed r → e ∈ events →
  let r' := fold_left (λ r' e, listener e r') events r in
  match e with
  | PageError m => m ∈ jsErrors r' ++ default [] (benignErrors r')
  | ConsoleMessage type m =>
      type = "error" →
      m ∈ consoleErrors r' ++ default [] (benignErrors r')
  | ResponseSeen st responseUrl =>
      400 ≤ st →
      text (showDec st) +:+ " - " +:+ responseUrl
      ∈ default [] (networkErrors r')
  end.
Proof.
  revert r. induction events as [|x events IH]; intros r Ha Hin.
  { by apply elem_of_nil in Hin. }
  destruct (listener_spec x r Ha) as (Ha1 & _ & _).
  apply elem_of_cons in Hin as [<-|Hin]; [|by apply IH].
  cbn [fold_left]. cbv zeta.
  destruct (fold_listener_spec events _ Ha1) as (_ & Hg & _).
  destruct (grown_elem _ _ Hg) as (Hj & Hc & Hn).
  pose proof (listener_records e r Ha) as Hrec.
  destruct e as [m|type m|st responseUrl]; auto.
Qed.


Section Listening.

Context (ROOT : string) (browser : Browser).

Abbreviation step := (step ROOT browser).

Lemma setup_armed u : armed (setupErrorHandling (newPageResult u)).
Proof. by repeat split. Qed.

Lemma failedPage_armed v m r : armed r → armed (failedPage v m r).
Proof.
  intros Ha. destruct (push_spec JsErrors ("Page failed to load: " +:+ m) r Ha)
    as (Hp & _). exact Hp.
Qed.

(** A turn, with the deliveries to the earlier results spelled out. *)
Lemma step_earlier s u rest :
  phase s = Running → queue s = u :: rest → normalizeUrl u ∉ visited s →
  let v := visit browser (length (navigated s)) u in
  ∃ later new,
    (later = [] ∨ later = laterEvents v)
    ∧ results (step s)
      = ((λ r, deliver later (deliver (navEvents v) r)) <$> results s) ++ new
    ∧ Forall (λ r, hasListeners r = negb (isDocumentUrl (url r))
                   ∧ (hasListeners r = true → armed r)) new.
Proof.
  intros Hp Hq Hv. unfold Crawler.step. rewrite Hp, Hq.
  rewrite bool_decide_false by done. cbv zeta.
  set (v := visit browser (length (navigated s)) u).
  set (r0 := deliver (navEvents v) (setupErrorHandling (newPageResult u))).
  assert (Hr0 : armed r0 ∧ url r0 = u).
  { destruct (deliver_spec (navEvents v) _ (setup_armed u)) as (? & _).
    split; [done|]. unfold r0. by rewrite deliver_url. }
  destruct Hr0 as [Hr0 Hu0].
  assert (Hid : ∀ rs : list PageResult,
            deliver (navEvents v) <$> rs
            = (λ r, deliver [] (deliver (navEvents v) r)) <$> rs).
  { intros rs. apply list_fmap_ext. intros _ r _. by rewrite deliver_nil. }
  destruct (isDocumentUrl u) eqn:Hdoc.
  { exists [], [checkDocumentUrl v u (newPageResult u)]. simpl.
    split; [by left|]. split; [by rewrite Hid|].
    constructor; [|done]. rewrite checkDocumentUrl_url. simpl. rewrite Hdoc.
    unfold checkDocumentUrl. by destruct (navigation v). }
  destruct (navigation v) as [st|message] eqn:Hnav.
  2:{ exists [], [failedPage v message r0]. simpl.
      split; [by left|]. split; [by rewrite Hid|].
      constructor; [|done]. pose proof (failedPage_armed v message r0 Hr0) as Hf.
      assert (url (failedPage v message r0) = u) as -> by done.
      rewrite Hdoc. split; [by apply armed_listening|done]. }
  destruct (pageTitle v) as [t|] eqn:Htitle.
  2:{ exists [], []. simpl. split; [by left|]. rewrite app_nil_r.
      split; [by rewrite Hid|done]. }
  destruct (inspectImages _ _ _ _) as [[analysis brokenList] c] eqn:Himg.
  destruct (anchors v) as [allLinks|] eqn:Hanchors.
  2:{ exists [], []. simpl. split; [by left|]. rewrite app_nil_r.
      split; [by rewrite Hid|done]. }
  set (r := htmlPage v t st r0 analysis brokenList
              (discover ROOT ({[normalizeUrl u]} ∪ visited s) allLinks rest)).
  exists (laterEvents v), [deliver (laterEvents v) r]. simpl.
  split; [by right|]. split.
  { by rewrite fmap_app, <- list_fmap_compose. }
  constructor; [|done].
  assert (Ha : armed r) by exact Hr0.
  destruct (deliver_spec (laterEvents v) r Ha) as (Ha' & _).
  rewrite deliver_url. assert (url r = u) as -> by done. rewrite Hdoc.
  split; [by apply armed_listening|done].
Qed.

(** The results with listeners are those of the HTML pages, and they
    have their three extra lists. *)
Lemma results_listening n r :
  r ∈ results (run ROOT browser n) →
  hasListeners r = negb (isDocumentUrl (url r))
  ∧ (hasListeners r = true → armed r).
Proof.
  revert r. induction n as [|n IH]; intros r.
  { intros Hr. by apply elem_of_nil in Hr. }
  rewrite run_succ.
  destruct (decide (phase (run ROOT browser n) = Running)) as [Hp|Hp].
  2:{ rewrite step_idle by done. apply IH. }
  destruct (queue (run ROOT browser n)) as [|u rest] eqn:Hq.
  { rewrite step_finish by done. apply IH. }
  destruct (step_earlier _ u rest Hp Hq (queue_fresh ROOT browser n u rest Hq))
    as (later & new & _ & -> & Hnew).
  intros [Hr|Hr]%elem_of_app.
  - apply list_elem_of_fmap in Hr as (x & -> & Hx).
    destruct (IH x Hx) as [Hl Ha].
    destruct (hasListeners x) eqn:Hx'.
    + destruct (deliver_spec (navEvents (visit browser
                  (length (navigated (run ROOT browser n))) u)) x (Ha eq_refl))
        as (Ha1 & _).
      destruct (deliver_spec later _ Ha1) as (Ha2 & _).
      rewrite !deliver_url, <- Hl. split; [by apply armed_listening|done].
    + rewrite !deliver_idle by (by rewrite ?deliver_idle). by rewrite Hx'.
  - rewrite Forall_forall in Hnew. by apply Hnew.
Qed.

End Listening.

(** [setupErrorHandling], the listeners.  Every event that they get is
    recorded exactly once when it is a page error, a console message
    of type error or warning, or a response from status 400, and not at
    all otherwise; the five lists only grow at their end. *)
Theorem events_recorded_once (events : list PageEvent) (r : PageResult) :
  armed r →
  let r' := deliver events r in
  armed r' ∧ grown r r'
  ∧ recorded r' = (recorded r + length (List.filter reportable events))%nat.
Proof. apply deliver_spec. Qed.

Lemma events_recorded_once_witness :
  let r := setupErrorHandling (newPageResult "https://x.com") in
  let events :=
    [ ResponseSeen 200 "https://x.com/"; ResponseSeen 404 "https://x.com/i.png";
      ConsoleMessage "log" "hello";
      ConsoleMessage "error" "Failed to load resource: 404";
      PageError "boom" ] in
  recorded (deliver events r) = 3%nat.
Proof.
  intros r events.
  destruct (events_recorded_once events r) as (_ & _ & H).
  - repeat split; by eexists.
  - rewrite H. reflexivity.
Defined.

(** The listeners are never removed.  The events of the page that a
    turn opens are recorded in the result of every HTML page opened
    before as well: its lists grow by all of them.  The result of a
    document, which has no listeners, stays as it is. *)
Theorem events_reach_earlier_results (ROOT : string) (browser : Browser)
    (n : nat) (u : string) (rest : list string) (i : nat) (r : PageResult) :
  phase (run ROOT browser n) = Running →
  queue (run ROOT browser n) = u :: rest →
  results (run ROOT browser n) !! i = Some r →
  let v := visit browser n u in
  ∃ r', results (run ROOT browser (S n)) !! i = Some r'
    ∧ (isDocumentUrl (url r) = true → r' = r)
    ∧ (isDocumentUrl (url r) = false →
         grown r r'
         ∧ (recorded r + length (List.filter reportable (navEvents v))
            ≤ recorded r')%nat
         ∧ (∀ m, PageError m ∈ navEvents v →
                 m ∈ jsErrors r' ++ default [] (benignErrors r'))
         ∧ (∀ m, ConsoleMessage "error" m ∈ navEvents v →
                 m ∈ consoleErrors r' ++ default [] (benignErrors r'))
         ∧ (∀ st responseUrl,
              ResponseSeen st responseUrl ∈ navEvents v → 400 ≤ st →
              text (showDec st) +:+ " - " +:+ responseUrl
              ∈ default [] (networkErrors r'))).
Proof.
  intros Hp Hq Hi v.
  pose proof (running_count ROOT browser n Hp) as Hn.
  destruct (step_earlier ROOT browser _ u rest Hp Hq
              (queue_fresh ROOT browser n u rest Hq))
    as (later & new & _ & Hres & _).
  rewrite Hn in Hres. fold v in Hres.
  exists (deliver later (deliver (navEvents v) r)).
  split.
  { rewrite run_succ, Hres. apply lookup_app_l_Some.
    by rewrite list_lookup_fmap, Hi. }
  destruct (results_listening ROOT browser n r) as [Hl Ha].
  { by eapply list_elem_of_lookup_2. }
  split.
  - intros Hdoc. rewrite Hdoc in Hl. simpl in Hl.
    rewrite !deliver_idle by (by rewrite ?deliver_idle). done.
  - intros Hdoc. rewrite Hdoc in Hl. specialize (Ha Hl).
    destruct (deliver_spec (navEvents v) r Ha) as (Ha1 & Hg1 & Hr1).
    destruct (deliver_spec later _ Ha1) as (Ha2 & Hg2 & Hr2).
    destruct (grown_elem _ _ Hg2) as (Hj & Hc & Hnet).
    assert (Hrec : ∀ e, e ∈ navEvents v →
              match e with
              | PageError m =>
                  m ∈ jsErrors (deliver (navEvents v) r)
                      ++ default [] (benignErrors (deliver (navEvents v) r))
              | ConsoleMessage type m =>
                  type = "error" →
                  m ∈ consoleErrors (deliver (navEvents v) r)
                      ++ default [] (benignErrors (deliver (navEvents v) r))
              | ResponseSeen st responseUrl =>
                  400 ≤ st →
                  text (showDec st) +:+ " - " +:+ responseUrl
                  ∈ default [] (networkErrors (deliver (navEvents v) r))
              end).
    { intros e He. unfold deliver. rewrite Hl.
      by apply fold_listener_records. }
    split; [by eapply grown_trans|]. split; [lia|].
    split; [|split].
    + intros m Hm. apply Hj, (Hrec _ Hm).
    + intros m Hm. by apply Hc, (Hrec _ Hm).
    + intros st responseUrl He Hst. by apply Hnet, (Hrec _ He).
Qed.

Lemma events_reach_earlier_results_witness :
  ∃ r', results (run "https://x.com" noisySite 2) !! 0%nat = Some r'
        ∧ url r' = "https://x.com"
        ∧ networkErrors r' = Some ["404 - https://x.com/missing.js"]
        ∧ jsErrors r' = ["boom"].
Proof.
  pose (r := nth 0 (results (run "https://x.com" noisySite 1))
               (newPageResult "")).
  destruct (events_reach_earlier_results "https://x.com" noisySite 1
              "https://x.com/a" [] 0 r)
    as (r' & Hr' & _ & _); [reflexivity | reflexivity | reflexivity |].
  exists r'. split; [exact Hr'|].
  vm_compute in Hr'. injection Hr' as <-. by vm_compute.
Defined.


(** * More about a page *)

(** ** The meta tags *)

(** The meta tags of a page.  [extractMetaTags] keeps the ten important
    names only; a [meta] element counts under its [name] attribute, or
    under its [property] attribute when it has no [name] or an empty
    one; the last element of a name gives its value, which is empty
    when the element has no [content]. *)
Theorem extractMetaTags_lookup (ms : list Meta) (k : string) :
  extractMetaTags ms !! k
  = if bool_decide (k ∈ importantMetaTags)
    then (λ m, default "" (meta_content m))
           <$> last (List.filter
                       (λ m, bool_decide
                               (orAttr (meta_name m) (meta_property m)
                                = Some k))
                       ms)
    else None.
Proof.
  unfold extractMetaTags.
  induction ms as [|m ms IH] using rev_ind.
  { simpl. rewrite lookup_empty. by case_bool_decide. }
  rewrite fold_left_app, List.filter_app. cbn [fold_left List.filter].
  destruct (orAttr (meta_name m) (meta_property m)) as [name|] eqn:Hname.
  2:{ rewrite (bool_decide_false (None = Some k)) by done.
      by rewrite app_nil_r. }
  destruct (decide (name = k)) as [->|Hne].
  - rewrite (bool_decide_true (Some k = Some k)) by done.
    rewrite last_snoc. case_bool_decide as Hk.
    + rewrite (bool_decide_false (k = "")).
      2:{ intros ->. apply list_elem_of_In in Hk. simpl in Hk.
          intuition discriminate. }
      cbn [negb andb].
      by rewrite lookup_insert_eq.
    + rewrite andb_false_r. rewrite IH.
      first [done | by rewrite bool_decide_false].
  - rewrite (bool_decide_false (Some name = Some k)) by congruence.
    rewrite app_nil_r, <- IH.
    destruct (negb _ && _); [|done]. by rewrite lookup_insert_ne.
Qed.

(** ** The images of a page *)

Lemma countZ_total {A} (f : A → bool) (l : list A) :
  (countZ f l + countZ (λ x, negb (f x)) l = Z.of_nat (length l))%Z.
Proof.
  induction l as [|x l IH]; [done|]. rewrite !countZ_cons. simpl.
  destruct (f x); simpl; lia.
Qed.

Lemma countZ_nonneg {A} (f : A → bool) (l : list A) : (0 ≤ countZ f l)%Z.
Proof. unfold countZ. lia. Qed.

Lemma analyzeImages_alt imgs :
  let a := analyzeImages imgs in
  withAlt a = countZ (λ i, hasAltText (img_alt i)) imgs
  ∧ withoutAlt a = countZ (λ i, negb (hasAltText (img_alt i))) imgs.
Proof.
  unfold analyzeImages.
  assert (H : ∀ a,
    withAlt (fold_left analyzeImage imgs a)
    = (withAlt a + countZ (λ i, hasAltText (img_alt i)) imgs)%Z
    ∧ withoutAlt (fold_left analyzeImage imgs a)
      = (withoutAlt a
         + countZ (λ i, negb (hasAltText (img_alt i))) imgs)%Z).
  { induction imgs as [|i imgs IH]; intros a; cbn [fold_left].
    { unfold countZ. simpl. lia. }
    destruct (IH (analyzeImage a i)) as [-> ->]. rewrite !countZ_cons.
    unfold analyzeImage. cbn [withAlt withoutAlt].
    destruct (hasAltText (img_alt i)); cbn [negb]; lia. }
  destruct (H (mkImagesAnalysis (Z.of_nat (length imgs)) 0 0 0 0 []))
    as [-> ->].
  simpl. lia.
Qed.

Section Probes.

Context (browser : Browser).

(** The verification loop keeps the entries in place and sends its
    requests to sources that are neither empty nor data URLs. *)
Lemma verifyImages_requests infos v :
  let '(out, v') := verifyImages browser infos v in
  length out = length infos
  ∧ ∃ more,
      requests (cache v') = requests (cache v) ++ more
      ∧ (length more ≤ length infos)%nat
      ∧ Forall (λ u, u ∈ src <$> infos ∧ u ≠ ""
                     ∧ startsWith u "data:" = false) more.
Proof.
  revert v. induction infos as [|i infos IH]; intros v; simpl.
  { split; [done|]. exists []. rewrite app_nil_r. split; [done|]. split; [simpl; lia|constructor]. }
  assert (H1 : ∃ more,
            requests (cache (verifyImage browser i v).2)
            = requests (cache v) ++ more
            ∧ (length more ≤ 1)%nat
            ∧ Forall (λ u, u = src i ∧ u ≠ ""
                           ∧ startsWith u "data:" = false) more).
  { unfold verifyImage.
    destruct (negb (bool_decide (src i = ""))) eqn:He; simpl.
    2:{ exists []. rewrite app_nil_r. split; [done|]. split; [simpl; lia|constructor]. }
    destruct (negb (startsWith (src i) "data:")) eqn:Hd; simpl.
    2:{ exists []. rewrite app_nil_r. split; [done|]. split; [simpl; lia|constructor]. }
    apply negb_true_iff in He, Hd. apply bool_decide_eq_false in He.
    destruct (entries (cache v) !! normalizeImageUrl (src i)) eqn:Hc.
    { pose proof (reconcile_spec (exists_ i0) true i v (cache v)) as Hr.
      destruct (reconcile _ _ _ _ _) as [i' v']. destruct Hr as (Hc' & _).
      simpl. rewrite Hc'. exists []. rewrite app_nil_r. split; [done|]. split; [simpl; lia|constructor]. }
    unfold checkImageExists. rewrite Hc.
    assert (Hone : ∀ found c,
              requests c = requests (cache v) ++ [src i] →
              ∃ more,
                requests (cache (reconcile found false i v c).2)
                = requests (cache v) ++ more
                ∧ (length more ≤ 1)%nat
                ∧ Forall (λ u, u = src i ∧ u ≠ ""
                               ∧ startsWith u "data:" = false) more).
    { intros found c Hreq.
      pose proof (reconcile_spec found false i v c) as Hr.
      destruct (reconcile _ _ _ _ _) as [i' v']. destruct Hr as (Hc' & _).
      simpl. rewrite Hc'. exists [src i]. split; [done|]. split; [simpl; lia|].
      by constructor. }
    destruct (head browser _ _); by apply Hone. }
  destruct (verifyImage browser i v) as [i' v1]. simpl in H1.
  specialize (IH v1). destruct (verifyImages browser infos v1) as [out v2].
  destruct IH as (Hlen & more2 & Hreq2 & Hlen2 & Hall2).
  destruct H1 as (more1 & Hreq1 & Hlen1 & Hall1).
  split; [simpl; by rewrite Hlen|].
  exists (more1 ++ more2). rewrite Hreq2, Hreq1, <- app_assoc.
  split; [done|]. split; [rewrite length_app; lia|].
  apply Forall_app. split.
  - eapply Forall_impl; [exact Hall1|]. intros u (-> & ? & ?).
    split; [by left|done].
  - eapply Forall_impl; [exact Hall2|]. intros u (? & ? & ?).
    split; [by right|done].
Qed.

(** The image analysis of a page: its counters. *)
Lemma inspectImages_counts v r c :
  imagesAnalysis r = emptyAnalysis →
  let a := (inspectImages browser v r c).1.1 in
  total a = Z.of_nat (length (details a))
  ∧ (withAlt a + withoutAlt a = total a)%Z
  ∧ (0 ≤ withAlt a)%Z ∧ (0 ≤ withoutAlt a)%Z.
Proof.
  intros Hr. unfold inspectImages. destruct (images v) as [imgs|] eqn:Himgs.
  2:{ rewrite Hr. simpl. repeat split; done. }
  destruct (analyzeImages_spec imgs) as (Hd & _ & _ & Ht).
  destruct (analyzeImages_alt imgs) as (Ha & Hna).
  pose proof (verifyImages_requests (details (analyzeImages imgs))
    (mkVerification c (working (analyzeImages imgs))
       (broken (analyzeImages imgs)))) as Hv.
  destruct (verifyImages _ _ _) as [out ver].
  destruct Hv as (Hlen & _). simpl in *.
  rewrite Hd, length_fmap in Hlen.
  pose proof (countZ_total (λ i, hasAltText (img_alt i)) imgs).
  split; [rewrite Ht, Hlen; done|]. split; [lia|].
  split; [rewrite Ha; apply countZ_nonneg|].
  rewrite Hna; apply countZ_nonneg.
Qed.

(** The image analysis of a page: its requests. *)
Lemma inspectImages_requests v r c :
  ∃ more,
    requests (inspectImages browser v r c).2 = requests c ++ more
    ∧ (length more
       ≤ length (details (inspectImages browser v r c).1.1))%nat
    ∧ Forall (λ u, u ≠ "" ∧ startsWith u "data:" = false
                   ∧ ∃ imgs, images v = Some imgs ∧ u ∈ img_src <$> imgs)
        more.
Proof.
  unfold inspectImages. destruct (images v) as [imgs|] eqn:Himgs.
  2:{ exists []. rewrite app_nil_r. split; [done|].
      split; [simpl; lia|constructor]. }
  destruct (analyzeImages_spec imgs) as (Hd & _).
  pose proof (verifyImages_requests (details (analyzeImages imgs))
    (mkVerification c (working (analyzeImages imgs))
       (broken (analyzeImages imgs)))) as Hv.
  destruct (verifyImages _ _ _) as [out ver].
  destruct Hv as (Hlen & more & Hreq & Hmore & Hall). simpl in *.
  exists more. split; [done|]. split; [lia|].
  eapply Forall_impl; [exact Hall|]. intros u (Hu & ? & ?).
  repeat split; try done. exists imgs. split; [done|].
  rewrite Hd, <- list_fmap_compose in Hu. exact Hu.
Qed.

End Probes.


Section Counters.

Context (ROOT : string) (browser : Browser).

Abbreviation run := (run ROOT browser).

Lemma results_counted n r :
  r ∈ results (run n) →
  let a := imagesAnalysis r in
  total a = Z.of_nat (length (details a))
  ∧ (withAlt a + withoutAlt a = total a)%Z
  ∧ (0 ≤ withAlt a)%Z ∧ (0 ≤ withoutAlt a)%Z.
Proof.
  intros (i & Hi)%list_elem_of_lookup_1.
  destruct (inv_provenance _ _ _ (Inv2_run ROOT browser n) i r Hi)
    as (seen & rest & c & c' & x & Hem & Hst).
  cbv zeta. rewrite (st_imagesAnalysis _ _ Hst). clear Hst Hi.
  unfold Emitted in Hem.
  set (v := visit browser i (url r)) in *.
  pose proof (deliver_stable (navEvents v)
                (setupErrorHandling (newPageResult (url r)))) as H0.
  destruct (isDocumentUrl (url r)).
  { destruct Hem as [-> _]. unfold checkDocumentUrl.
    by destruct (navigation v). }
  destruct (navigation v) as [st|message].
  2:{ destruct Hem as [-> _]. simpl. by rewrite (st_imagesAnalysis _ _ H0). }
  destruct Hem as (t & allLinks & analysis & brokenList & _ & _ & Himg & ->).
  match goal with |- context [deliver (laterEvents v) ?y] =>
    pose proof (deliver_stable (laterEvents v) y) as H1 end.
  rewrite (st_imagesAnalysis _ _ H1). simpl.
  pose proof (inspectImages_counts browser v _ c (st_imagesAnalysis _ _ H0))
    as Hc.
  by rewrite Himg in Hc.
Qed.

Lemma imagesSeen_stable (f : PageResult → PageResult) rs :
  (∀ x, stable x (f x)) → imagesSeen (f <$> rs) = imagesSeen rs.
Proof.
  intros Hf. induction rs as [|r rs IH]; [done|].
  rewrite fmap_cons. unfold imagesSeen in *. cbn [sum_list_with].
  by rewrite IH, (st_imagesAnalysis _ _ (Hf r)).
Qed.

(** Where the HEAD requests go, and how many there are. *)
Lemma probes_inv n :
  Forall (λ u, u ≠ "" ∧ startsWith u "data:" = false
               ∧ ∃ k page imgs,
                   images (visit browser k page) = Some imgs
                   ∧ u ∈ img_src <$> imgs)
    (probed (run n))
  ∧ (phase (run n) ≠ Aborted →
     (length (probed (run n)) ≤ imagesSeen (results (run n)))%nat).
Proof.
  induction n as [|n [IHa IHl]]; [split; [constructor|done]|].
  rewrite run_succ.
  destruct (decide (phase (run n) = Running)) as [Hp|Hp].
  2:{ by rewrite step_idle. }
  assert (Hna : phase (run n) ≠ Aborted) by (by rewrite Hp).
  specialize (IHl Hna).
  destruct (queue (run n)) as [|u rest] eqn:Hq.
  { by rewrite step_finish. }
  destruct (step_turn ROOT browser _ u rest Hp Hq (queue_fresh ROOT browser n u rest Hq))
    as (f & new & Hf & Hres & _ & _ & _ & Hc & Hnew).
  set (v := visit browser (length (navigated (run n))) u) in *.
  set (c := mkCache (checkedImages (run n)) (probed (run n))) in *.
  set (s' := step ROOT browser (run n)) in *.
  split.
  - destruct Hc as [Hc|(r0 & Hc)].
    { apply (f_equal requests) in Hc. simpl in Hc. by rewrite Hc. }
    apply (f_equal requests) in Hc. simpl in Hc. rewrite Hc.
    destruct (inspectImages_requests browser v r0 c)
      as (more & -> & _ & Hall).
    apply Forall_app. split; [done|].
    eapply Forall_impl; [exact Hall|]. intros x (? & ? & imgs & ? & ?).
    repeat split; try done. by exists (length (navigated (run n))), u, imgs.
  - intros Hab. destruct Hnew as [[_ ?]|(r & -> & _ & _ & _ & Hem)]; [done|].
    rewrite Hres. unfold imagesSeen. rewrite sum_list_with_app.
    fold (imagesSeen (f <$> results (run n))).
    rewrite (imagesSeen_stable f _ Hf). simpl. rewrite Nat.add_0_r.
    unfold Emitted in Hem.
    destruct (isDocumentUrl u).
    { destruct Hem as [_ Hc']. apply (f_equal requests) in Hc'.
      simpl in Hc'. rewrite Hc'. lia. }
    destruct (navigation v) as [st|message].
    2:{ destruct Hem as [_ Hc']. apply (f_equal requests) in Hc'.
        simpl in Hc'. rewrite Hc'. lia. }
    destruct Hem as (t & allLinks & analysis & brokenList & _ & _ & Himg & ->).
    match goal with |- context [deliver (laterEvents v) ?y] =>
      pose proof (deliver_stable (laterEvents v) y) as H1 end.
    rewrite (st_imagesAnalysis _ _ H1). simpl.
    match type of Himg with inspectImages _ _ ?r0 _ = _ =>
      destruct (inspectImages_requests browser v r0 c)
        as (more & Hreq & Hlen & _) end.
    rewrite Himg in Hreq, Hlen. simpl in Hreq, Hlen.
    rewrite Hreq, length_app. fold c in IHl. simpl in IHl. lia.
Qed.

End Counters.

(** The counters of the image analysis.  In every result of every run
    the total is the number of entries, the working and the broken
    images add up to it, and so do the images with and without alt
    text; the list of broken images has one source for each broken
    entry. *)
Theorem image_counters (ROOT : string) (browser : Browser) (n : nat)
    (r : PageResult) :
  r ∈ results (run ROOT browser n) →
  let a := imagesAnalysis r in
  total a = Z.of_nat (length (details a))
  ∧ (working a + broken a = total a)%Z
  ∧ (withAlt a + withoutAlt a = total a)%Z
  ∧ Z.of_nat (length (brokenImages r)) = broken a
  ∧ brokenImages r
    = src <$> List.filter (λ i, negb (isWorking i)) (details a)
  ∧ (0 ≤ working a)%Z ∧ (0 ≤ broken a)%Z
  ∧ (0 ≤ withAlt a)%Z ∧ (0 ≤ withoutAlt a)%Z.
Proof.
  intros Hr a.
  destruct (results_counted ROOT browser n r Hr) as (Ht & Halt & ? & ?).
  destruct (inv_images _ _ _ (Inv2_run ROOT browser n) r Hr)
    as ((_ & Hw & Hb) & _ & Hlist).
  fold a in Ht, Halt, Hw, Hb, Hlist.
  pose proof (countZ_total isWorking (details a)).
  pose proof (countZ_nonneg isWorking (details a)).
  pose proof (countZ_nonneg (λ i, negb (isWorking i)) (details a)).
  repeat split; try lia; try done.
  rewrite Hlist, length_fmap, Hb. done.
Qed.

Lemma image_counters_witness :
  ∃ r, results (run "https://x.com" noisySite 2) !! 1%nat = Some r
       ∧ total (imagesAnalysis r) = 2%Z
       ∧ working (imagesAnalysis r) = 1%Z
       ∧ broken (imagesAnalysis r) = 1%Z
       ∧ brokenImages r = ["https://x.com/gone.png"].
Proof.
  pose (r := nth 1 (results (run "https://x.com" noisySite 2))
               (newPageResult "")).
  exists r. split; [reflexivity|].
  destruct (image_counters "https://x.com" noisySite 2 r)
    as (_ & _ & _ & _ & _ & _).
  - apply list_elem_of_In. vm_compute. right. left. reflexivity.
  - by vm_compute.
Defined.

(** The HEAD requests of the image check.  Every request of every run
    goes to the source of an image of an opened page, and never to an
    empty source or to a data URL. *)
Theorem probes_are_image_sources (ROOT : string) (browser : Browser)
    (n : nat) (u : string) :
  u ∈ probed (run ROOT browser n) →
  u ≠ "" ∧ startsWith u "data:" = false
  ∧ ∃ k page imgs,
      images (visit browser k page) = Some imgs ∧ u ∈ img_src <$> imgs.
Proof.
  intros Hu. destruct (probes_inv ROOT browser n) as [Hall _].
  rewrite Forall_forall in Hall. by apply Hall.
Qed.

Lemma probes_are_image_sources_witness :
  probed (run "https://x.com" noisySite 2) = ["https://x.com/gone.png"]
  ∧ startsWith "https://x.com/gone.png" "data:" = false.
Proof.
  split; [by vm_compute|].
  destruct (probes_are_image_sources "https://x.com" noisySite 2
              "https://x.com/gone.png") as (_ & H & _); [|exact H].
  apply list_elem_of_In. vm_compute. left. reflexivity.
Defined.


(** * The report *)

Section Sums.

Context {A : Type}.

Lemma sumOf_from (f : A → Z) xs a :
  fold_left (λ sum x, sum + f x)%Z xs a = (a + Report.sumOf f xs)%Z.
Proof.
  unfold Report.sumOf. revert a. induction xs as [|x xs IH]; intros a; simpl.
  { lia. }
  rewrite (IH (a + f x)%Z), (IH (0 + f x)%Z). lia.
Qed.

Lemma sumOf_cons (f : A → Z) x xs :
  Report.sumOf f (x :: xs) = (f x + Report.sumOf f xs)%Z.
Proof. unfold Report.sumOf at 1. simpl. by rewrite sumOf_from. Qed.

Lemma sumOf_ext (f g : A → Z) xs :
  Forall (λ x, f x = g x) xs → Report.sumOf f xs = Report.sumOf g xs.
Proof.
  induction 1 as [|x xs Hx _ IH]; [done|]. by rewrite !sumOf_cons, Hx, IH.
Qed.

Lemma sumOf_plus (f g : A → Z) xs :
  Report.sumOf (λ x, f x + g x)%Z xs
  = (Report.sumOf f xs + Report.sumOf g xs)%Z.
Proof.
  induction xs as [|x xs IH]; [done|]. rewrite !sumOf_cons, IH. lia.
Qed.

Lemma sumOf_length (f : A → nat) xs :
  Report.sumOf (λ x, Z.of_nat (f x)) xs = Z.of_nat (sum_list_with f xs).
Proof.
  induction xs as [|x xs IH]; [done|]. rewrite sumOf_cons, IH. simpl. lia.
Qed.

(** A sum with a term that throws, throws. *)
Lemma sumOrThrow_spec (f : A → option Z) xs :
  Report.sumOrThrow f xs
  = if bool_decide (Forall (λ x, is_Some (f x)) xs)
    then Some (Report.sumOf (λ x, default 0%Z (f x)) xs)
    else None.
Proof.
  unfold Report.sumOrThrow.
  assert (Hnone : ∀ l,
    fold_left (λ sum x, match sum, f x with
                        | Some s, Some n => Some (s + n)%Z
                        | _, _ => None
                        end) l None = None).
  { induction l as [|x l IH]; [done|]. simpl. exact IH. }
  assert (Hsome : ∀ l a,
    fold_left (λ sum x, match sum, f x with
                        | Some s, Some n => Some (s + n)%Z
                        | _, _ => None
                        end) l (Some a)
    = if bool_decide (Forall (λ x, is_Some (f x)) l)
      then Some (a + Report.sumOf (λ x, default 0%Z (f x)) l)%Z
      else None).
  { induction l as [|x l IH]; intros a; cbn [fold_left].
    { rewrite bool_decide_true by constructor. f_equal.
      unfold Report.sumOf. simpl. lia. }
    destruct (f x) as [n|] eqn:Hx.
    - rewrite IH, sumOf_cons, Hx. cbn [default].
      rewrite (bool_decide_ext (Forall (λ x, is_Some (f x)) (x :: l))
                 (Forall (λ x, is_Some (f x)) l)).
      2:{ split; [by intros [_ ?]%Forall_cons|].
          intros. constructor; [by rewrite Hx|done]. }
      case_bool_decide; [by rewrite Z.add_assoc|done].
    - rewrite Hnone, bool_decide_false; [done|].
      intros H. apply Forall_cons in H as [H _]. rewrite Hx in H.
      by destruct H. }
  rewrite Hsome. case_bool_decide; [|done]. by rewrite Z.add_0_l.
Qed.

Lemma filter_all (f : A → bool) xs :
  Forall (λ x, f x = true) xs → List.filter f xs = xs.
Proof.
  induction 1 as [|x xs Hx _ IH]; [done|]. simpl. by rewrite Hx, IH.
Qed.

Lemma filter_none (f : A → bool) xs :
  Forall (λ x, f x = false) xs → List.filter f xs = [].
Proof.
  induction 1 as [|x xs Hx _ IH]; [done|]. simpl. by rewrite Hx, IH.
Qed.

End Sums.

Section Written.

Context (ROOT : string) (browser : Browser).

Abbreviation run := (run ROOT browser).
Abbreviation step := (step ROOT browser).

(** The loop ends only on an empty queue. *)
Lemma step_finished s :
  phase (step s) = Finished →
  phase s = Finished ∨ (phase s = Running ∧ queue s = []).
Proof.
  unfold Crawler.step. destruct (phase s) eqn:Hp; [|by left|congruence].
  destruct (queue s) as [|u rest]; [intros _; by right|].
  case_bool_decide; [done|]. cbv zeta.
  destruct (isDocumentUrl u); [done|].
  destruct (navigation _); [|done].
  destruct (pageTitle _); [|done].
  destruct (inspectImages _ _ _ _) as [[? ?] ?].
  destruct (anchors _); [|done]. simpl. by destruct (pauseOk _).
Qed.

Lemma finished_queue n : phase (run n) = Finished → queue (run n) = [].
Proof.
  induction n as [|n IH]; [done|]. rewrite run_succ. intros Hp.
  destruct (step_finished _ Hp) as [Hf|[Hr Hq]].
  - rewrite step_idle by (by rewrite Hf). by apply IH.
  - by rewrite step_finish.
Qed.

(** The first result is the one of the root. *)
Lemma first_result n :
  phase (run n) = Finished → ∃ r rs, results (run n) = r :: rs ∧ url r = ROOT.
Proof.
  intros Hp.
  destruct (inv_history ROOT _ (Inv_run ROOT browser n)) as (q' & Hq' & Hh).
  rewrite Hq', (finished_queue n Hp), app_nil_r in Hh by (by rewrite Hp).
  destruct (results (run n)) as [|r rs]; [done|].
  exists r, rs. split; [done|]. by injection Hh.
Qed.

(** Only the root can be a document. *)
Lemma document_is_root n r :
  r ∈ results (run n) → isDocumentUrl (url r) = true → url r = ROOT.
Proof.
  intros Hr Hdoc. pose proof (Inv_run ROOT browser n) as HI.
  destruct (inv_navigated ROOT _ HI) as (extra & Hn & _).
  destruct (inv_scope ROOT _ HI (url r)) as [_ [?|?]]; [|done|congruence].
  rewrite Hn. apply elem_of_app. right. apply elem_of_app. left.
  apply list_elem_of_fmap. by exists r.
Qed.

Lemma benign_listening (r : PageResult) :
  is_Some (benignErrors r) ↔ hasListeners r = true.
Proof. unfold hasListeners. by rewrite bool_decide_eq_true. Qed.

Lemma results_benign n :
  Forall (λ r, is_Some (Report.len <$> benignErrors r)) (results (run n))
  ↔ (results (run n) = [] ∨ isDocumentUrl ROOT = false).
Proof.
  split.
  - intros Hall. destruct (results (run n)) as [|r rs] eqn:Hres; [by left|].
    right. destruct (isDocumentUrl ROOT) eqn:Hdoc; [|done]. exfalso.
    destruct (inv_history ROOT _ (Inv_run ROOT browser n)) as (q' & _ & Hh).
    rewrite Hres in Hh. injection Hh as Hu _.
    apply Forall_cons in Hall as [Hr _].
    destruct (results_listening ROOT browser n r) as [Hl _].
    { rewrite Hres. by left. }
    rewrite Hu, Hdoc in Hl. simpl in Hl.
    apply fmap_is_Some, benign_listening in Hr. congruence.
  - intros [->|Hdoc]; [constructor|].
    apply Forall_forall. intros r Hr.
    destruct (results_listening ROOT browser n r Hr) as [Hl _].
    apply fmap_is_Some, benign_listening. rewrite Hl.
    destruct (isDocumentUrl (url r)) eqn:Hd; [|done].
    rewrite (document_is_root n r Hr Hd) in Hd. congruence.
Qed.

Lemma no_documents n :
  isDocumentUrl ROOT = false →
  Forall (λ r, isDocument r = false) (results (run n)).
Proof.
  intros Hdoc. apply Forall_forall. intros r Hr.
  destruct (isDocument r) eqn:Hd; [|done].
  pose proof (document_result ROOT browser n r Hr (or_introl Hd)) as Hu.
  rewrite (document_is_root n r Hr Hu) in Hu. congruence.
Qed.

Lemma cache_size n :
  size (checkedImages (run n)) = length (probed (run n)).
Proof.
  destruct (inv_cache _ _ _ (Inv2_run ROOT browser n)) as [Hnd Hkeys _].
  simpl in *. rewrite <- (length_fmap normalizeImageUrl).
  rewrite <- (size_list_to_set (C := gset string)) by done.
  rewrite <- size_dom. f_equal. apply set_eq. intros k.
  rewrite elem_of_dom, elem_of_list_to_set. apply Hkeys.
Qed.

End Written.


Lemma report_some (ROOT : string) (browser : Browser) (n : nat)
    (sm : Report.Summary) :
  Report.report (run ROOT browser n) = Some sm →
  phase (run ROOT browser n) = Finished ∧ isDocumentUrl ROOT = false.
Proof.
  unfold Report.report.
  destruct (phase (run ROOT browser n)) eqn:Hp; [done| |done].
  unfold Report.generateReport. rewrite sumOrThrow_spec.
  destruct (first_result ROOT browser n Hp) as (r & rs & Hres & Hu).
  pose proof (results_benign ROOT browser n) as Hb.
  case_bool_decide as Hall; [|done].
  intros _. split; [done|].
  apply Hb in Hall as [Hnil|?]; [|done]. by rewrite Hres in Hnil.
Qed.

Lemma results_image_sums (ROOT : string) (browser : Browser) (n : nat) :
  Forall (λ r,
            total (imagesAnalysis r)
            = Z.of_nat (length (details (imagesAnalysis r)))
            ∧ (working (imagesAnalysis r) + broken (imagesAnalysis r)
               = total (imagesAnalysis r))%Z
            ∧ (withAlt (imagesAnalysis r) + withoutAlt (imagesAnalysis r)
               = total (imagesAnalysis r))%Z
            ∧ Z.of_nat (length (brokenImages r))
              = broken (imagesAnalysis r))
    (results (run ROOT browser n)).
Proof.
  apply Forall_forall. intros r Hr.
  destruct (results_counted ROOT browser n r Hr) as (Ht & Halt & _).
  destruct (inv_images _ _ _ (Inv2_run ROOT browser n) r Hr)
    as ((_ & Hw & Hb) & _ & Hlist).
  pose proof (countZ_total isWorking (details (imagesAnalysis r))).
  repeat split; try lia; try done.
  rewrite Hlist, length_fmap, Hb. done.
Qed.

Lemma report_fields (ROOT : string) (browser : Browser) (n : nat)
    (sm : Report.Summary) :
  Report.report (run ROOT browser n) = Some sm →
  let rs := results (run ROOT browser n) in
  let im := Report.images sm in
  Report.totalPages sm = Z.of_nat (length rs)
  ∧ Report.htmlPages sm = Z.of_nat (length rs)
  ∧ Report.documentPages sm = 0%Z
  ∧ Report.brokenDocuments sm = 0%Z
  ∧ Report.totalBrokenImages sm
    = Report.sumOf (λ r, Report.len (brokenImages r)) rs
  ∧ Report.totalImages im
    = Report.sumOf (λ r, total (imagesAnalysis r)) rs
  ∧ Report.totalWorkingImages im
    = Report.sumOf (λ r, working (imagesAnalysis r)) rs
  ∧ Report.totalBrokenImagesDetailed im
    = Report.sumOf (λ r, broken (imagesAnalysis r)) rs
  ∧ Report.imagesWithAlt im
    = Report.sumOf (λ r, withAlt (imagesAnalysis r)) rs
  ∧ Report.imagesWithoutAlt im
    = Report.sumOf (λ r, withoutAlt (imagesAnalysis r)) rs
  ∧ Report.totalUniqueImagesChecked im
    = Z.of_nat (size (checkedImages (run ROOT browser n))).
Proof.
  intros Hrep rs im.
  destruct (report_some ROOT browser n sm Hrep) as [Hp Hdoc].
  unfold Report.report in Hrep. rewrite Hp in Hrep.
  unfold Report.generateReport in Hrep. fold rs in Hrep.
  destruct (Report.sumOrThrow _ rs) as [tb|]; [|done].
  pose proof (no_documents ROOT browser n Hdoc) as Hnone. fold rs in Hnone.
  rewrite (filter_all (λ r, negb (isDocument r)) rs) in Hrep.
  2:{ eapply Forall_impl; [exact Hnone|]. by intros r ->. }
  rewrite (filter_none isDocument rs Hnone) in Hrep.
  injection Hrep as <-. subst im. cbn. done.
Qed.

(** [generateReport] is called and gets through its statistics exactly
    when the loop has ended on an empty queue and the root is not an
    asset.  The result of an asset has no [benignErrors], since
    [setupErrorHandling] is not called for it, and the sum of the
    benign errors throws on it before anything is written. *)
Theorem report_written (ROOT : string) (browser : Browser) (n : nat) :
  is_Some (Report.report (run ROOT browser n))
  ↔ phase (run ROOT browser n) = Finished ∧ isDocumentUrl ROOT = false.
Proof.
  split; [intros [sm Hsm]; by apply report_some in Hsm|].
  intros [Hp Hdoc]. unfold Report.report. rewrite Hp.
  unfold Report.generateReport. rewrite sumOrThrow_spec.
  rewrite bool_decide_true; [by eexists|].
  apply (results_benign ROOT browser n). by right.
Qed.

(** The summary of a report that is written.  It counts no document and
    no broken document, every result is an HTML page, the working and
    the broken images add up to the images, as do the images with and
    without alt text, and the two counts of broken images agree. *)
Theorem report_summary (ROOT : string) (browser : Browser) (n : nat)
    (sm : Report.Summary) :
  Report.report (run ROOT browser n) = Some sm →
  let rs := results (run ROOT browser n) in
  let im := Report.images sm in
  Report.totalPages sm = Z.of_nat (length rs)
  ∧ Report.htmlPages sm = Z.of_nat (length rs)
  ∧ Report.documentPages sm = 0%Z
  ∧ Report.brokenDocuments sm = 0%Z
  ∧ Report.totalImages im = Z.of_nat (imagesSeen rs)
  ∧ (Report.totalWorkingImages im + Report.totalBrokenImagesDetailed im
     = Report.totalImages im)%Z
  ∧ (Report.imagesWithAlt im + Report.imagesWithoutAlt im
     = Report.totalImages im)%Z
  ∧ Report.totalBrokenImages sm = Report.totalBrokenImagesDetailed im.
Proof.
  intros Hrep rs im.
  destruct (report_fields ROOT browser n sm Hrep)
    as (? & ? & ? & ? & Hbi & Hti & Hwi & Hbd & Hwa & Hwo & _).
  fold rs in Hbi, Hti, Hwi, Hbd, Hwa, Hwo.
  fold im in Hti, Hwi, Hbd, Hwa, Hwo.
  pose proof (results_image_sums ROOT browser n) as Hall. fold rs in Hall.
  do 4 (split; [done|]).
  rewrite Hbi, Hti, Hwi, Hbd, Hwa, Hwo.
  split; [|split; [|split]].
  - unfold imagesSeen. rewrite <- sumOf_length. apply sumOf_ext.
    eapply Forall_impl; [exact Hall|]. by intros r (? & _).
  - rewrite <- sumOf_plus. apply sumOf_ext.
    eapply Forall_impl; [exact Hall|]. by intros r (_ & ? & _).
  - rewrite <- sumOf_plus. apply sumOf_ext.
    eapply Forall_impl; [exact Hall|]. by intros r (_ & _ & ? & _).
  - apply sumOf_ext.
    eapply Forall_impl; [exact Hall|]. by intros r (_ & _ & _ & ?).
Qed.

Lemma report_summary_witness :
  ∃ sm, Report.report (run "https://x.com" noisySite 3) = Some sm
        ∧ Report.totalPages sm = 2%Z
        ∧ Report.documentPages sm = 0%Z
        ∧ Report.totalImages (Report.images sm) = 2%Z
        ∧ Report.totalBrokenImages sm = 1%Z.
Proof.
  destruct (Report.report (run "https://x.com" noisySite 3)) as [sm|] eqn:E;
    [|vm_compute in E; discriminate].
  exists sm. split; [done|].
  destruct (report_summary "https://x.com" noisySite 3 sm E)
    as (_ & _ & _ & _ & _ & _ & _ & _).
  vm_compute in E. injection E as <-. by vm_compute.
Defined.

(** The images that were checked.  In a report that is written the
    number of unique images checked is the number of HEAD requests that
    were sent, and it is at most the number of images: the number of
    duplicate checks avoided, which the crawler prints, is not
    negative. *)
Theorem unique_images_checked (ROOT : string) (browser : Browser) (n : nat)
    (sm : Report.Summary) :
  Report.report (run ROOT browser n) = Some sm →
  let im := Report.images sm in
  Report.totalUniqueImagesChecked im
  = Z.of_nat (length (probed (run ROOT browser n)))
  ∧ (0 ≤ Report.totalImages im - Report.totalUniqueImagesChecked im)%Z.
Proof.
  intros Hrep im.
  destruct (report_fields ROOT browser n sm Hrep)
    as (_ & _ & _ & _ & _ & Hti & _ & _ & _ & _ & Hu).
  fold im in Hti, Hu.
  destruct (report_some ROOT browser n sm Hrep) as [Hp Hdoc].
  rewrite cache_size in Hu. split; [done|]. rewrite Hu, Hti.
  assert (Hseen : Report.sumOf (λ r, total (imagesAnalysis r))
                    (results (run ROOT browser n))
                  = Z.of_nat (imagesSeen (results (run ROOT browser n)))).
  { unfold imagesSeen. rewrite <- sumOf_length. apply sumOf_ext.
    eapply Forall_impl; [exact (results_image_sums ROOT browser n)|].
    by intros r (? & _). }
  rewrite Hseen.
  destruct (probes_inv ROOT browser n) as [_ Hle].
  specialize (Hle ltac:(by rewrite Hp)). lia.
Qed.

Lemma unique_images_checked_witness :
  ∃ sm, Report.report (run "https://x.com" noisySite 3) = Some sm
        ∧ Report.totalUniqueImagesChecked (Report.images sm) = 1%Z.
Proof.
  destruct (Report.report (run "https://x.com" noisySite 3)) as [sm|] eqn:E;
    [|vm_compute in E; discriminate].
  exists sm. split; [done|].
  destruct (unique_images_checked "https://x.com" noisySite 3 sm E) as [-> _].
  by vm_compute.
Defined.

(** A crawl whose root is an asset.  It inspects the root and nothing
    else, ends at the next turn, and writes no report.  When the
    navigation fails, the result is marked broken but not as a
    document, and keeps the status code 200. *)
Theorem asset_root (ROOT : string) (browser : Browser) :
  isDocumentUrl ROOT = true →
  let v := visit browser 0 ROOT in
  let r := checkDocumentUrl v ROOT (newPageResult ROOT) in
  (∀ n, results (run ROOT browser (S n)) = [r]
        ∧ queue (run ROOT browser (S n)) = []
        ∧ navigated (run ROOT browser (S n)) = [ROOT]
        ∧ phase (run ROOT browser (S (S n))) = Finished
        ∧ Report.report (run ROOT browser n) = None)
  ∧ documentLinks r = None ∧ links r = [] ∧ benignErrors r = None
  ∧ (∀ message, navigation v = Failed message →
       isDocument r = false ∧ documentStatus r = "broken"
       ∧ statusCode r = 200
       ∧ jsErrors r = ["Failed to load document: " +:+ message])
  ∧ (∀ st, navigation v = Loaded st →
       isDocument r = true
       ∧ documentStatus r
         = if (400 <=? default 0 st) then "broken" else "accessible").
Proof.
  intros Hdoc v r.
  assert (H1 : run ROOT browser 1
               = mkState {[normalizeUrl ROOT]} [] [r] ∅ [ROOT] [] Running).
  { unfold run, runFrom, start, Crawler.step. simpl.
    rewrite bool_decide_false by set_solver. by rewrite Hdoc, union_empty_r_L. }
  assert (H2 : run ROOT browser 2
               = mkState {[normalizeUrl ROOT]} [] [r] ∅ [ROOT] [] Finished).
  { by rewrite (run_succ ROOT browser 1), H1. }
  assert (Hn : ∀ n, run ROOT browser (S (S n)) = run ROOT browser 2).
  { intros n. apply (run_idle ROOT browser 2 n). by rewrite H2. }
  split.
  { intros n.
    assert (Hs : results (run ROOT browser (S n)) = [r]
                 ∧ queue (run ROOT browser (S n)) = []
                 ∧ navigated (run ROOT browser (S n)) = [ROOT]).
    { destruct n as [|n]; [by rewrite H1|by rewrite Hn, H2]. }
    destruct Hs as (? & ? & ?). do 3 (split; [done|]).
    split; [by rewrite Hn, H2|].
    destruct (Report.report (run ROOT browser n)) eqn:E; [|done].
    destruct (report_some ROOT browser n _ E) as [_ ?]. congruence. }
  subst r. unfold checkDocumentUrl.
  destruct (navigation v) as [st|message]; simpl.
  - do 3 (split; [done|]). split; [by intros ? [=]|].
    intros st' [= <-]. split; [done|]. by destruct st.
  - do 3 (split; [done|]). split; [|by intros ? [=]].
    by intros message' [= <-].
Qed.

Lemma asset_root_witness :
  let r := checkDocumentUrl (visit deadSite 0 "https://x.com/a.pdf")
             "https://x.com/a.pdf" (newPageResult "https://x.com/a.pdf") in
  results (run "https://x.com/a.pdf" deadSite 5) = [r]
  ∧ isDocument r = false ∧ documentStatus r = "broken".
Proof.
  intros r.
  destruct (asset_root "https://x.com/a.pdf" deadSite) as (Hrun & _ & _ & _ & Hf & _);
    [reflexivity|].
  destruct (Hrun 4%nat) as (Hres & _).
  destruct (Hf "net::ERR_ABORTED") as (? & ? & _); [reflexivity|].
  by split.
Defined.


(** The pages that did not load, in the summary.  The result of a page
    whose navigation failed has an empty title and an empty
    description: the summary counts it among the pages missing their
    title and among the pages missing their description.  A page that
    loaded never has an empty title. *)
Theorem failed_pages_count_as_missing (ROOT : string) (browser : Browser)
    (n i : nat) (r : PageResult) :
  results (run ROOT browser n) !! i = Some r →
  isDocumentUrl (url r) = false →
  match navigation (visit browser i (url r)) with
  | Failed _ =>
      Report.missingTitle r = true ∧ metaDescription r = ""
      ∧ imagesAnalysis r = emptyAnalysis
  | Loaded _ => title r ≠ ""
  end.
Proof.
  intros Hi Hdoc. pose proof (provenance ROOT browser n i r Hi) as Hp.
  cbv zeta in Hp. rewrite Hdoc in Hp.
  set (v := visit browser i (url r)) in *.
  pose proof (deliver_stable (navEvents v)
                (setupErrorHandling (newPageResult (url r)))) as H0.
  destruct (navigation v) as [st|message].
  - destruct Hp as (t & allLinks & analysis & bl & seen & rest & _ & _ & Hs).
    rewrite (st_title _ _ Hs). simpl. unfold orElse.
    by case_bool_decide.
  - unfold Report.missingTitle.
    rewrite (st_title _ _ Hp), (st_metaDescription _ _ Hp),
      (st_imagesAnalysis _ _ Hp). simpl.
    by rewrite (st_title _ _ H0), (st_metaDescription _ _ H0),
      (st_imagesAnalysis _ _ H0).
Qed.

Lemma failed_pages_count_as_missing_witness :
  ∃ r, results (run "https://x.com" exampleSite 3) !! 2%nat = Some r
       ∧ url r = "https://x.com/b"
       ∧ Report.missingTitle r = true ∧ metaDescription r = "".
Proof.
  pose (r := nth 2 (results (run "https://x.com" exampleSite 3))
               (newPageResult "")).
  exists r. split; [reflexivity|]. split; [reflexivity|].
  pose proof (failed_pages_count_as_missing "https://x.com" exampleSite 3 2 r
                eq_refl eq_refl) as H.
  by destruct H as (? & ? & _).
Defined.


(** * The screenshots and the identities *)

Lemma replaceUnit_word c : forallb isWordChar (Report.replaceUnit c) = true.
Proof.
  revert c.
  assert (H : ∀ c, forallb isWordChar (Report.replaceUnit c) = true)
    by (apply forall_ascii; vm_compute; reflexivity).
  exact H.
Qed.

Lemma word_unreserved c :
  isWordChar c = true → negb (negb (Report.isUnreserved c)) = true.
Proof.
  revert c.
  assert (H : ∀ c, implb (isWordChar c)
                     (negb (negb (Report.isUnreserved c))) = true)
    by (apply forall_ascii; vm_compute; reflexivity).
  intros c Hc. specialize (H c). by rewrite Hc in H.
Qed.

Lemma replaceUnit_ascii c :
  code c < 128 → isAlnum c = false → Report.replaceUnit c = ["_"%char].
Proof.
  intros Hc Ha. unfold Report.replaceUnit. rewrite Ha.
  by apply N.ltb_lt in Hc as ->.
Qed.

(** The file of a screenshot.  Its name is the identity of the page
    with an underscore for every code unit that is not a letter or a
    digit; [encodeURIComponent] has nothing left to escape, so the file
    lies in the screenshots directory under that name.  Two identities
    that differ in such a character only share their screenshot. *)
Theorem screenshot_file (normalizedUrl : string) :
  Report.screenshotPath normalizedUrl
  = "site-report/screenshots/" +:+ Report.replaceNonAlnum normalizedUrl
    +:+ ".png"
  ∧ forallb isWordChar (chars (Report.replaceNonAlnum normalizedUrl)) = true
  ∧ ∀ a b c1 c2,
      normalizedUrl = text (a ++ c1 :: b) →
      code c1 < 128 → isAlnum c1 = false →
      code c2 < 128 → isAlnum c2 = false →
      Report.screenshotPath (text (a ++ c2 :: b))
      = Report.screenshotPath normalizedUrl.
Proof.
  assert (Hword : ∀ s,
            forallb isWordChar (chars (Report.replaceNonAlnum s)) = true).
  { intros s. unfold Report.replaceNonAlnum. rewrite chars_text.
    induction (chars s) as [|c l IH]; [done|]. simpl.
    by rewrite forallb_app, replaceUnit_word, IH. }
  split; [|split; [apply Hword|]].
  - unfold Report.screenshotPath, Report.encodeURIComponent.
    rewrite percentEncode_id, text_chars; [done|].
    eapply forallb_impl; [|apply Hword]. apply word_unreserved.
  - intros a b c1 c2 -> H1 Ha1 H2 Ha2.
    unfold Report.screenshotPath, Report.replaceNonAlnum.
    rewrite !chars_text, !flat_map_app. cbn [flat_map].
    by rewrite (replaceUnit_ascii c1), (replaceUnit_ascii c2).
Qed.

Lemma screenshot_file_witness :
  Report.screenshotPath "https://x.com/a-b"
  = "site-report/screenshots/https___x_com_a_b.png"
  ∧ Report.screenshotPath "https://x.com/a/b"
    = Report.screenshotPath "https://x.com/a-b".
Proof.
  destruct (screenshot_file "https://x.com/a-b") as (H & _ & Hsame).
  split; [by rewrite H|].
  apply (Hsame (chars "https://x.com/a") (chars "b") "-"%char "/"%char);
    by vm_compute.
Defined.

Lemma dropWhile_stops f l :
  match dropWhile f l with
  | c :: _ => f c = false
  | [] => True
  end.
Proof.
  induction l as [|c l IH]; [done|]. simpl.
  destruct (f c) eqn:Hc; [exact IH | exact Hc].
Qed.

(** The identity of a page has no slash at its end whenever the URL
    parses; it is the asset identity of the URL without its trailing
    slashes. *)
Theorem normalizeUrl_no_trailing_slash (url : string) (p : URL) :
  parse url = Some p →
  endsWith (normalizeUrl url) "/" = false
  ∧ normalizeUrl url
    = text (stripTrailingSlashes (chars (normalizeImageUrl url))).
Proof.
  intros Hp. unfold normalizeUrl, normalizeImageUrl. rewrite Hp.
  split; [|by rewrite chars_text].
  unfold endsWith, stripTrailingSlashes, dropWhileEnd.
  rewrite chars_text, rev_involutive.
  pose proof (dropWhile_stops (isCode 47) (rev (origin p ++ pathname p)))
    as Hs.
  destruct (dropWhile _ _) as [|c l]; [done|].
  cbn [chars list_ascii_of_string rev app isPrefix].
  destruct (Ascii.eqb "/" c) eqn:E; [|done].
  apply Ascii.eqb_eq in E as <-. done.
Qed.

Lemma normalizeUrl_no_trailing_slash_witness :
  normalizeUrl "https://x.com/a/b///?q=1#top" = "https://x.com/a/b"
  ∧ endsWith (normalizeUrl "https://x.com/a/b///?q=1#top") "/" = false.
Proof.
  split; [by vm_compute|].
  destruct (parse "https://x.com/a/b///?q=1#top") as [p|] eqn:E;
    [|vm_compute in E; discriminate].
  by destruct (normalizeUrl_no_trailing_slash _ p E).
Defined.

(** * extract-urls.js *)

Import ExtractUrls ExtractUrlsSpec.

(** ** The pattern *)

Lemma anyStar_spec l k :
  anyStar l k = true
  ↔ ∃ a rest, l = a ++ rest ∧ denotes AnyStar a rest ∧ k rest = true.
Proof.
  induction l as [|c l IH]; cbn [anyStar].
  { split.
    - intros Hk. exists [], []. split; [done|]. split; [|done].
      intros x y Hxy Hy. by destruct x, y.
    - intros (a & rest & Hl & _ & Hk). by destruct a, rest. }
  rewrite orb_true_iff, andb_true_iff, negb_true_iff, IH. split.
  - intros [[Hc (a & rest & -> & Ha & Hk)]|Hk].
    + exists (c :: a), rest. split; [done|]. split; [|done].
      intros x y Hxy Hy. destruct x as [|c' x].
      * simpl in Hxy. subst y. exact Hc.
      * injection Hxy as <- ->. by apply (Ha x y).
    + exists [], (c :: l). split; [done|]. split; [|done].
      intros x y Hxy Hy. by destruct x, y.
  - intros (a & rest & Hl & Ha & Hk). destruct a as [|c' a].
    + simpl in Hl. subst rest. by right.
    + injection Hl as <- ->. left. split.
      * by apply (Ha [] (c :: a)).
      * exists a, rest. split; [done|]. split; [|done].
        intros x y Hxy Hy. apply (Ha (c :: x) y); [by rewrite Hxy|done].
Qed.

(** The matcher computes the matches of the pattern. *)
Lemma matchFrom_spec p l k :
  matchFrom p l k = true
  ↔ ∃ a rest, l = a ++ rest ∧ denotes p a rest ∧ k rest = true.
Proof.
  revert l k. induction p as [|c|p1 IH1 p2 IH2|p1 IH1 p2 IH2|p1 IH1| |];
    intros l k; cbn [matchFrom denotes].
  - split; [intros Hk; by exists [], l|]. by intros (a & rest & -> & -> & ?).
  - destruct l as [|x l].
    { split; [done|]. by intros (a & rest & Hl & -> & _). }
    rewrite andb_true_iff. split.
    + intros [->%Ascii.eqb_eq Hk]. by exists [c], l.
    + intros (a & rest & Hl & -> & Hk). injection Hl as -> ->.
      split; [apply Ascii.eqb_refl|done].
  - rewrite IH1. split.
    + intros (a1 & r1 & -> & H1 & (a2 & rest & -> & H2 & Hk)%IH2).
      exists (a1 ++ a2), rest. rewrite <- app_assoc. split; [done|].
      split; [|done]. by exists a1, a2.
    + intros (a & rest & -> & (a1 & a2 & -> & H1 & H2) & Hk).
      exists a1, (a2 ++ rest). rewrite <- app_assoc. split; [done|].
      split; [done|]. apply IH2. by exists a2, rest.
  - rewrite orb_true_iff, IH1, IH2. split.
    + intros [(a & rest & ? & ? & ?)|(a & rest & ? & ? & ?)];
        exists a, rest; tauto.
    + intros (a & rest & ? & [?|?] & ?); [left|right]; by exists a, rest.
  - rewrite orb_true_iff, IH1. split.
    + intros [(a & rest & ? & ? & ?)|Hk]; [exists a, rest; tauto|].
      exists [], l. tauto.
    + intros (a & rest & Hl & [->|?] & ?); [right; by subst l|].
      left. by exists a, rest.
  - apply anyStar_spec.
  - destruct l as [|x l].
    + split; [intros Hk; by exists [], []|].
      by intros (a & rest & _ & [-> ->] & ?).
    + split; [done|]. by intros (a & rest & Hl & [-> ->] & _).
Qed.

Lemma test_spec p l :
  test p l = true ↔ ∃ pre a rest, l = pre ++ a ++ rest ∧ denotes p a rest.
Proof.
  induction l as [|c l IH]; cbn [test]; rewrite orb_true_iff, matchFrom_spec.
  - split.
    + intros [(a & rest & ? & ? & _)|?]; [|done]. by exists [], a, rest.
    + intros (pre & a & rest & Hl & ?). left. exists a, rest.
      destruct pre; [|done]. by split.
  - rewrite IH. split.
    + intros [(a & rest & ? & ? & _)|(pre & a & rest & -> & ?)].
      * by exists [], a, rest.
      * by exists (c :: pre), a, rest.
    + intros (pre & a & rest & Hl & ?). destruct pre as [|c' pre].
      * left. by exists a, rest.
      * injection Hl as <- ->. right. by exists pre, a, rest.
Qed.

Lemma denotes_word s a rest : denotes (word s) a rest ↔ a = chars s.
Proof.
  unfold word. revert a rest. induction (chars s) as [|c l IH]; intros a rest.
  { done. }
  cbn [fold_right denotes]. split.
  - intros (a1 & a2 & -> & -> & ->%IH). done.
  - intros ->. exists [c], l. split; [done|]. split; [done|]. by apply IH.
Qed.

Lemma denotes_query a :
  denotes (Opt (Seq (Chr "?") AnyStar)) a []
  ↔ a = [] ∨ ∃ q, a = "?"%char :: q ∧ hasLineTerminator q = false.
Proof.
  assert (Hstar : ∀ q, denotes AnyStar q [] ↔ hasLineTerminator q = false).
  { intros q. cbn [denotes]. induction q as [|c q IH].
    { split; [done|]. intros _ x y Hxy Hy. by destruct x, y. }
    cbn [hasLineTerminator]. rewrite orb_false_iff, <- IH. split.
    - intros H. split.
      + specialize (H [] (c :: q) eq_refl). rewrite app_nil_r in H.
        by apply H.
      + intros x y Hxy Hy. apply (H (c :: x) y); [by rewrite Hxy|done].
    - intros [Hc H] x y Hxy Hy. destruct x as [|c' x].
      + simpl in Hxy. subst y. by rewrite app_nil_r.
      + injection Hxy as <- ->. by apply (H x y). }
  cbn [denotes]. split.
  - intros [->|(a1 & a2 & -> & -> & H)]; [by left|]. right.
    exists a2. split; [done|]. by apply Hstar.
  - intros [->|(q & -> & H)]; [by left|]. right.
    exists ["?"%char], q. split; [done|]. split; [done|]. by apply Hstar.
Qed.

(** The matches of the pattern of [isImageOrPdf]. *)
Lemma denotes_imageOrPdf a rest :
  denotes imageOrPdf a rest
  ↔ rest = []
    ∧ ∃ ext tail,
        a = "."%char :: chars ext ++ tail ∧ ext ∈ imageExtensions
        ∧ (tail = [] ∨ ∃ q, tail = "?"%char :: q
                            ∧ hasLineTerminator q = false).
Proof.
  unfold imageOrPdf. cbn [denotes]. split.
  - intros (a1 & a2 & -> & -> & (e & a3 & -> & He & (tail & a4 & -> & Ht & [-> ->]))).
    split; [done|]. rewrite app_nil_r in *.
    apply denotes_query in Ht.
    assert (Hext : ∃ ext, e = chars ext ∧ ext ∈ imageExtensions).
    { rewrite !denotes_word in He.
      destruct He as [He|[He|[He|[He|[He|[He|[He|[He|He]]]]]]]].
      - exists "png". split; [done || reflexivity|apply list_elem_of_In; simpl; tauto].
      - destruct He as (j & k & He & Hj & (o & g & Hk & Ho & Hg)).
        apply denotes_word in Hj. cbn [denotes] in Ho, Hg.
        destruct Ho as [Ho|Ho]; subst.
        + exists "jpg". split; [done || reflexivity|apply list_elem_of_In; simpl; tauto].
        + exists "jpeg". split; [done || reflexivity|apply list_elem_of_In; simpl; tauto].
      - exists "gif". split; [done || reflexivity|apply list_elem_of_In; simpl; tauto].
      - exists "webp". split; [done || reflexivity|apply list_elem_of_In; simpl; tauto].
      - exists "svg". split; [done || reflexivity|apply list_elem_of_In; simpl; tauto].
      - exists "bmp". split; [done || reflexivity|apply list_elem_of_In; simpl; tauto].
      - destruct He as (t & f & He & Ht' & Hf).
        apply denotes_word in Ht'. cbn [denotes] in Hf.
        destruct Hf as [Hf|Hf]; subst.
        + exists "tif". split; [done || reflexivity|apply list_elem_of_In; simpl; tauto].
        + exists "tiff". split; [done || reflexivity|apply list_elem_of_In; simpl; tauto].
      - exists "ico". split; [done || reflexivity|apply list_elem_of_In; simpl; tauto].
      - exists "pdf". split; [done || reflexivity|apply list_elem_of_In; simpl; tauto]. }
    destruct Hext as (ext & -> & Hin). by exists ext, tail.
  - intros (-> & ext & tail & -> & Hin & Ht).
    exists ["."%char], (chars ext ++ tail). split; [done|]. split; [done|].
    exists (chars ext), tail. split; [done|]. split.
    2:{ exists tail, []. rewrite app_nil_r. split; [done|].
        split; [by apply denotes_query|done]. }
    rewrite app_nil_r. unfold imageExtensions in Hin.
    repeat (apply elem_of_cons in Hin as [->|Hin]);
      [..|by apply elem_of_nil in Hin].
    + left. by apply denotes_word.
    + right; left. exists (chars "jp"), (chars "g"). split; [done|].
      split; [by apply denotes_word|]. exists [], (chars "g").
      split; [done|]. split; [by left|done].
    + right; left. exists (chars "jp"), (chars "eg"). split; [done|].
      split; [by apply denotes_word|]. exists (chars "e"), (chars "g").
      split; [done|]. split; [by right|done].
    + do 2 right; left. by apply denotes_word.
    + do 3 right; left. by apply denotes_word.
    + do 4 right; left. by apply denotes_word.
    + do 5 right; left. by apply denotes_word.
    + do 6 right; left. exists (chars "tif"), []. split; [done|].
      split; [by apply denotes_word|by left].
    + do 6 right; left. exists (chars "tif"), (chars "f"). split; [done|].
      split; [by apply denotes_word|by right].
    + do 7 right; left. by apply denotes_word.
    + do 7 right; right. by apply denotes_word.
Qed.


(** ** [isImageOrPdf] *)

Lemma test_imageOrPdf (l : list ascii) :
  test imageOrPdf l = true
  ↔ ∃ pre ext tail,
      l = pre ++ "."%char :: chars ext ++ tail
      ∧ ext ∈ imageExtensions
      ∧ (tail = [] ∨ ∃ q, tail = "?"%char :: q
                          ∧ hasLineTerminator q = false).
Proof.
  rewrite test_spec. split.
  - intros (pre & a & rest & Hl & (-> & ext & tail & -> & Hin & Ht)%denotes_imageOrPdf).
    exists pre, ext, tail. by rewrite app_nil_r in Hl.
  - intros (pre & ext & tail & Hl & Hin & Ht).
    exists pre, ("."%char :: chars ext ++ tail), []. rewrite app_nil_r.
    split; [done|]. apply denotes_imageOrPdf. split; [done|].
    by exists ext, tail.
Qed.

(** [isImageOrPdf] holds exactly when the URL in lower case has, at some
    place, a dot and one of the eleven extensions, followed by the end
    of the string or by a question mark after which there is no line
    terminator. *)
Theorem isImageOrPdf_spec (url : string) :
  isImageOrPdf url = true
  ↔ ∃ pre ext tail,
      chars (toLowerCase url) = pre ++ "."%char :: chars ext ++ tail
      ∧ ext ∈ imageExtensions
      ∧ (tail = [] ∨ ∃ q, tail = "?"%char :: q
                          ∧ hasLineTerminator q = false).
Proof. exact (test_imageOrPdf (chars (toLowerCase url))). Qed.

Lemma chars_append a b : chars (a +:+ b) = chars a ++ chars b.
Proof.
  induction a as [|c a IH]; [done|].
  change (c :: chars (a +:+ b) = c :: (chars a ++ chars b)). by rewrite IH.
Qed.

Lemma text_app l1 l2 : text (l1 ++ l2) = text l1 +:+ text l2.
Proof.
  induction l1 as [|c l1 IH]; [done|].
  change (String c (text (l1 ++ l2)) = String c (text l1 +:+ text l2)).
  by rewrite IH.
Qed.

Lemma toLowerCase_append a b :
  toLowerCase (a +:+ b) = toLowerCase a +:+ toLowerCase b.
Proof. unfold toLowerCase. by rewrite chars_append, map_app, text_app. Qed.

(** Lower-casing leaves the characters that are not letters alone. *)
Lemma toLower_other c k :
  k < 65 ∨ 122 < k → isCode k (Char.toLower c) = isCode k c.
Proof.
  intros Hk. unfold Char.toLower.
  destruct (isUpper c) eqn:Hu; [|done].
  unfold isUpper, between in Hu.
  apply andb_true_iff in Hu as [?%N.leb_le ?%N.leb_le].
  unfold isCode, code. rewrite N_ascii_embedding by (unfold code in *; lia).
  unfold code in *. transitivity false; [|symmetry]; apply N.eqb_neq; lia.
Qed.


Lemma isCode_eq c x : isCode (code c) x = true ↔ x = c.
Proof.
  unfold isCode, code. rewrite N.eqb_eq. split; [|by intros ->].
  intros H. by rewrite <- (ascii_N_embedding x), H, ascii_N_embedding.
Qed.

Lemma occurs_false c s :
  occurs c s = false ↔ ∀ x, x ∈ chars s → x ≠ c.
Proof.
  unfold occurs. generalize (chars s). intros l. split.
  - intros H x Hx Heq. rewrite Heq in Hx. apply list_elem_of_In in Hx.
    assert (Ht : existsb (Ascii.eqb c) l = true); [|congruence].
    apply existsb_exists. exists c. split; [done|apply Ascii.eqb_refl].
  - intros H. destruct (existsb _ l) eqn:E; [|done].
    apply existsb_exists in E as (x & Hx & Heq%Ascii.eqb_eq).
    apply list_elem_of_In in Hx. by destruct (H x Hx).
Qed.

(** A character that is not a letter occurs in the lower case of a
    string only where it occurs in the string. *)
Lemma lower_occurs c s :
  code c < 65 ∨ 122 < code c →
  occurs c s = false → c ∉ map Char.toLower (chars s).
Proof.
  intros Hc Hs Hin. rewrite occurs_false in Hs.
  apply list_elem_of_In, in_map_iff in Hin as (y & Hy & Hin).
  apply list_elem_of_In in Hin.
  apply (Hs y Hin). apply isCode_eq.
  rewrite <- (toLower_other y _ Hc). by apply isCode_eq.
Qed.

Lemma lineTerminatorAt_lower l :
  lineTerminatorAt (map Char.toLower l) = lineTerminatorAt l.
Proof.
  destruct l as [|c1 [|c2 [|c3 l]]]; cbn [map lineTerminatorAt];
    rewrite ?toLower_other by lia; done.
Qed.

Lemma hasLineTerminator_lower l :
  hasLineTerminator (map Char.toLower l) = hasLineTerminator l.
Proof.
  induction l as [|c l IH]; [done|].
  cbn [hasLineTerminator]. rewrite <- IH.
  by rewrite <- (lineTerminatorAt_lower (c :: l)).
Qed.

(** No line terminator starts in front of a question mark that was not
    there without it. *)
Lemma lineTerminatorAt_query a b :
  lineTerminatorAt (a ++ "?"%char :: b)
  = lineTerminatorAt a.
Proof.
  destruct a as [|c1 [|c2 [|c3 a]]]; cbn [app lineTerminatorAt].
  - done.
  - change (isCode 128 "?"%char) with false.
    by destruct b; rewrite ?andb_false_l.
  - change (isCode 168 "?"%char) with false.
    change (isCode 169 "?"%char) with false.
    by rewrite !andb_false_r.
  - done.
Qed.

Lemma hasLineTerminator_query a b :
  hasLineTerminator a = false → hasLineTerminator b = false →
  hasLineTerminator (a ++ "?"%char :: b) = false.
Proof.
  intros Ha Hb. induction a as [|c a IH].
  { cbn [app hasLineTerminator]. by rewrite Hb. }
  cbn [hasLineTerminator] in Ha. apply orb_false_iff in Ha as [Ha1 Ha2].
  change ((c :: a) ++ "?"%char :: b) with (c :: (a ++ "?"%char :: b)).
  cbn [hasLineTerminator]. rewrite (IH Ha2), orb_false_r.
  etrans; [exact (lineTerminatorAt_query (c :: a) b)|exact Ha1].
Qed.

(** Query and fragment.  A query is ignored: with an image or PDF URL,
    the URL followed by a question mark and anything on the same line is
    one as well.  A fragment is not: a URL without question mark,
    followed by a fragment without dot and question mark, is never an
    image or PDF. *)
Theorem isImageOrPdf_query_fragment (u q f : string) :
  (isImageOrPdf u = true → hasLineTerminator (chars q) = false →
   isImageOrPdf (u +:+ "?" +:+ q) = true)
  ∧ (occurs "?" u = false → occurs "." f = false → occurs "?" f = false →
     isImageOrPdf (u +:+ "#" +:+ f) = false).
Proof.
  split.
  - unfold isImageOrPdf.
    intros (pre & ext & tail & Hl & Hin & Ht)%test_imageOrPdf Hq.
    apply test_imageOrPdf.
    exists pre, ext, (tail ++ "?"%char :: map Char.toLower (chars q)).
    split; [|split; [done|]].
    + rewrite !toLowerCase_append, !chars_append, Hl.
      unfold toLowerCase at 2. rewrite chars_text.
      by rewrite <- !app_assoc, <- app_comm_cons, <- app_assoc.
    + right. rewrite <- (hasLineTerminator_lower (chars q)) in Hq.
      destruct Ht as [->|(q0 & -> & Hq0)].
      * by eexists.
      * eexists. split; [done|]. by apply hasLineTerminator_query.
  - intros Hu Hf1 Hf2.
    destruct (isImageOrPdf _) eqn:E; [|done]. exfalso.
    unfold isImageOrPdf in E.
    apply test_imageOrPdf in E as (pre & ext & tail & Hl & Hin & Ht).
    rewrite !toLowerCase_append, !chars_append in Hl.
    unfold toLowerCase in Hl. rewrite !chars_text in Hl.
    change (map Char.toLower (chars "#")) with ["#"%char] in Hl.
    pose proof (lower_occurs "?" u ltac:(left; by vm_compute) Hu) as HuL.
    pose proof (lower_occurs "?" f ltac:(left; by vm_compute) Hf2) as HfL.
    pose proof (lower_occurs "." f ltac:(left; by vm_compute) Hf1) as HfD.
    set (L := map Char.toLower (chars u)) in *.
    set (F := map Char.toLower (chars f)) in *.
    assert (Hno : "?"%char ∉ L ++ ["#"%char] ++ F).
    { rewrite !elem_of_app, list_elem_of_singleton.
      intros [?|[?|?]]; done. }
    destruct Ht as [->|(q0 & -> & _)].
    2:{ apply Hno. rewrite Hl. rewrite !elem_of_app, !elem_of_cons.
        right. right. rewrite elem_of_app. right. by left. }
    rewrite app_nil_r in Hl.
    assert (Hext : "#"%char ∉ "."%char :: chars ext).
    { unfold imageExtensions in Hin.
      repeat (apply elem_of_cons in Hin as [->|Hin]);
        try (by apply elem_of_nil in Hin);
        intros H; apply list_elem_of_In in H; simpl in H;
        intuition discriminate. }
    apply app_eq_app in Hl as (l & [[HL Hr]|[Hp Hr]]).
    + apply Hext. rewrite Hr. apply elem_of_app. right. by left.
    + apply HfD.
      assert (Hd : "."%char ∈ ["#"%char] ++ F).
      { rewrite Hr. apply elem_of_app. right. by left. }
      apply elem_of_app in Hd as [Hd|Hd]; [|done].
      by apply list_elem_of_singleton in Hd.
Qed.

Lemma isImageOrPdf_query_fragment_witness :
  isImageOrPdf "https://x.com/a.png" = true
  ∧ isImageOrPdf "https://x.com/a.png?v=1" = true
  ∧ isImageOrPdf "https://x.com/a.png#top" = false.
Proof.
  destruct (isImageOrPdf_query_fragment "https://x.com/a.png" "v=1" "top")
    as [Hq Hf].
  split; [reflexivity|]. split.
  - apply Hq; reflexivity.
  - apply Hf; reflexivity.
Defined.


(** ** [extractCleanUrls] *)

Lemma visitPage_spec cleanUrls page :
  visitPage cleanUrls page
  = (λ u, cleanUrls ++ List.filter isClean (trim <$> option_list u))
      <$> urlField page.
Proof.
  unfold visitPage, urlField, member.
  destruct page as [|b|m e|s|items|fields];
    cbn [fmap option_fmap option_map option_list list_fmap List.filter];
    rewrite ?app_nil_r; try done.
  destruct (lookupLast "url" fields) as [[|b|m e|s|items|fields']|];
    cbn [fmap option_fmap option_map option_list list_fmap List.filter];
    rewrite ?app_nil_r; try done.
  change (trim <$> option_list (Some s)) with [trim s].
  cbn [List.filter]. unfold isClean.
  case_bool_decide; cbn [negb andb]; [by rewrite app_nil_r|].
  destruct (isImageOrPdf (trim s)); cbn [negb]; by rewrite ?app_nil_r.
Qed.

Lemma forEach_from pages acc :
  fold_left
    (λ acc page,
       match acc with
       | Some cleanUrls => visitPage cleanUrls page
       | None => None
       end)
    pages (Some acc)
  = (λ urls, acc ++ List.filter isClean (trim <$> omap id urls))
      <$> mapM urlField pages.
Proof.
  assert (Hnone : ∀ l,
    fold_left (λ acc page, match acc with
                           | Some cleanUrls => visitPage cleanUrls page
                           | None => None
                           end) l None = None).
  { induction l as [|x l IH]; [done|]. exact IH. }
  revert acc. induction pages as [|page pages IH]; intros acc.
  { simpl. by rewrite app_nil_r. }
  cbn [fold_left mapM]. rewrite visitPage_spec.
  destruct (urlField page) as [u|]; simpl.
  2:{ apply Hnone. }
  rewrite IH. destruct (mapM urlField pages) as [urls|]; simpl; [|done].
  f_equal. rewrite <- app_assoc. f_equal.
  destruct u as [u|]; simpl; [|done].
  by destruct (isClean (trim u)).
Qed.

(** What [extractCleanUrls] writes for a report with an array of pages.
    One page that is [null], or whose [url] is neither missing, [null]
    nor a string, and nothing is written.  Otherwise the lines are the
    [url] strings of the pages, trimmed, in order, without the empty
    ones and without the images and PDFs. *)
Theorem extractCleanUrls_pages (fields : list (string * JSON))
    (items : list JSON) :
  lookupLast "pages" fields = Some (JArray items) →
  extractCleanUrls (Parsed (JObject fields))
  = (λ urls, lines (List.filter isClean (trim <$> omap id urls)))
      <$> mapM urlField items.
Proof.
  intros Hpages. unfold extractCleanUrls, member. rewrite Hpages.
  cbn [truthy]. unfold forEach. rewrite forEach_from.
  by destruct (mapM urlField items).
Qed.

Lemma extractCleanUrls_pages_witness :
  extractCleanUrls
    (Parsed (JObject
       [ ("summary", JObject []);
         ("pages",
          JArray [ JObject [("url", JString "  https://x.com/  ")];
                   JObject [("url", JString "https://x.com/logo.PNG?v=2")];
                   JObject [("title", JString "no url")];
                   JObject [("url", JString "https://x.com/a")] ]) ]))
  = Some (lines ["https://x.com/"; "https://x.com/a"]).
Proof.
  rewrite (extractCleanUrls_pages _
             [ JObject [("url", JString "  https://x.com/  ")];
               JObject [("url", JString "https://x.com/logo.PNG?v=2")];
               JObject [("title", JString "no url")];
               JObject [("url", JString "https://x.com/a")] ]);
    [|reflexivity].
  by vm_compute.
Defined.

(** ** The lines of the output *)

Lemma splitOn_plain f l :
  forallb (λ c, negb (f c)) l = true → splitOn f l = [l].
Proof.
  induction l as [|c l IH]; [done|]. simpl.
  intros [Hc Hl]%andb_true_iff. apply negb_true_iff in Hc.
  by rewrite Hc, (IH Hl).
Qed.

Lemma splitOn_cut f l c r :
  forallb (λ c, negb (f c)) l = true → f c = true →
  splitOn f (l ++ c :: r) = l :: splitOn f r.
Proof.
  intros Hl Hc. induction l as [|x l IH]; simpl.
  { by rewrite Hc. }
  simpl in Hl. apply andb_true_iff in Hl as [Hx Hl].
  apply negb_true_iff in Hx. by rewrite Hx, (IH Hl).
Qed.

Lemma concat_cons sep a b rest :
  String.concat sep (a :: b :: rest)
  = a +:+ sep +:+ String.concat sep (b :: rest).
Proof. done. Qed.

(** The output file, cut at its line feeds.  When no clean URL contains
    a line feed, the lines of the file are the clean URLs, followed by
    one empty line; without clean URLs the file is one line feed. *)
Theorem lines_of_output (cleanUrls : list string) :
  Forall (λ u, forallb (λ c, negb (isLineFeed c)) (chars u) = true)
    cleanUrls →
  splitOn isLineFeed (chars (lines cleanUrls))
  = match cleanUrls with
    | [] => [[]; []]
    | _ => (chars <$> cleanUrls) ++ [[]]
    end.
Proof.
  unfold lines. intros Hall.
  destruct cleanUrls as [|u us]; [done|].
  revert u Hall. induction us as [|v us IH]; intros u Hall.
  { apply Forall_cons in Hall as [Hu _]. cbn [String.concat].
    rewrite chars_append. by apply splitOn_cut. }
  apply Forall_cons in Hall as [Hu Hall].
  rewrite concat_cons, !chars_append.
  change (chars (String (ascii_of_N 10) "")) with [ascii_of_N 10].
  rewrite <- !app_assoc. cbn [app].
  rewrite splitOn_cut by done. rewrite fmap_cons.
  change [ascii_of_N 10] with (chars (String (ascii_of_N 10) "")).
  rewrite <- chars_append. by rewrite (IH v Hall).
Qed.

Lemma lines_of_output_witness :
  splitOn isLineFeed (chars (lines ["https://x.com/"; "https://x.com/a"]))
  = [chars "https://x.com/"; chars "https://x.com/a"; []].
Proof.
  rewrite (lines_of_output ["https://x.com/"; "https://x.com/a"]);
    [reflexivity|].
  repeat constructor.
Defined.

